(** * The Puter AI service: request/response bridge and conversation store

    A shallow embedding of [src/puterAIService.ts] (class [PuterAIService])
    together with the two ends of the webview channel defined in the chat
    view provider: the host-side [onDidReceiveMessage] switch and the
    webview-side [handleAPIRequest] and [handleStreamRequest], as the
    functions are written.  A second part adds the statistics and text
    helpers of the service, its prompt builders, [getNonce] and the editor
    commands registered by the extension.

    The service object is a record of its fields; every method is a function
    on that record.  JavaScript promises, [setTimeout] handles and the
    messages posted to the webview are part of the state, so that the order
    in which the source touches them can be read off the definitions.

    Conventions.
    - An error is its message; a promise is a number; a closure is the data
      it captures ([PendingEntry], [TimerCallback]).
    - An asynchronous call is run to its end.  While an attempt of
      [callPuterAPI] waits, the messages the webview sends back ([webview] of
      the environment) are dispatched in order through the provider's
      switch; then the 60 second timer elapses if it is still armed.  A call
      whose promise is still pending after that never resumes
      ([Unsettled]).
    - [Date.now()], [Math.random()], the editor and the webview are the
      environment of a call ([Env]); [JSON.parse], [String.prototype.trim]
      and [String.prototype.toLowerCase] are section variables.  Strings
      are sequences of bytes.
    - The editor commands record the calls they make to the editor's user
      interface ([UiCall]) in order; those calls are taken to succeed.
    - [outbox], [slept] and [onChunk_calls] only record what the service did:
      the messages it posted, the backoff pauses it took, and the arguments
      it passed to the caller's [onChunk]. *)

From stdpp Require Import gmap strings list fin_maps pretty.
From Stdlib Require Import Ascii QArith.

Close Scope Q_scope.

Local Open Scope string_scope.
Local Open Scope list_scope.

(** ** Data model *)

Inductive Role := user | assistant | system.

Record ChatMessage := {
  role : Role;
  content : string;
  timestamp : N
}.

(** [params] of a chat call: [{ prompt, model, temperature, max_tokens }]. *)
Record ChatParams := {
  prompt : string;
  model : string;
  temperature : Q;
  max_tokens : Z
}.

Record PuterAPIResponse := {
  requestId : string;
  success : bool;
  data : option string;     (* [data?: any]; [None] is [undefined] *)
  error : option string     (* [error?: string] *)
}.

(** Messages the extension host posts to the webview. *)
Inductive ToWebview :=
  | ApiRequest (rid method : string) (params : ChatParams)
  | StreamRequest (rid : string) (params : ChatParams)
  | HistoryResponse (history : list ChatMessage)
  | Loading (loading : bool)
  | ProcessChat (message : string) (mdl : option string).

(** Messages the webview posts to the extension host.  The ['insertCode'],
    ['agentModify'] and ['openExternal'] cases of the provider act on the
    editor and are left out. *)
Inductive FromWebview :=
  | FwChat (message : string) (mdl : option string)
  | FwApiResponse (response : PuterAPIResponse)
  | FwClearHistory (conversationId : option string)
  | FwGetHistory (conversationId : option string)
  | FwStreamChunk (rid chunk : string)
  | FwStreamEnd (rid : string)
  | FwStreamError (rid err : string).

(** A JavaScript promise is pending until its first settlement; later calls
    of [resolve] or [reject] are ignored. *)
Inductive PromiseState :=
  | Pending
  | Resolved (value : option string)
  | Rejected (message : string).

(** The entry stored in [pendingRequests].  Its [resolve] and [reject]
    closures capture the timeout handle and the promise of the attempt; the
    entry records the two captured values. *)
Record PendingEntry := {
  entry_timeout : nat;
  entry_promise : nat
}.

(** Callback of an armed [setTimeout]: the 60 second request timeout of
    [callPuterAPI], which captures the request id and the promise. *)
Inductive TimerCallback :=
  | TimeoutCb (rid : string) (promise : nat).

(** [vscode.workspace.getConfiguration('puterAI')]: unset options are
    [None]. *)
Record WorkspaceConfiguration := {
  cfg_defaultModel : option string;
  cfg_temperature : option Q;
  cfg_maxTokens : option Z;
  cfg_enableStreaming : option bool;
  cfg_enableAgentMode : option bool;
  cfg_agentAutoApply : option bool
}.

Record State := {
  config : WorkspaceConfiguration;
  conversationHistory : gmap string (list ChatMessage);
  pendingRequests : gmap string PendingEntry;
  webviewProvider : bool;                    (* attached or [undefined] *)
  timers : gmap nat (N * TimerCallback);     (* armed timers: delay in ms, callback *)
  next_timer : nat;
  promises : gmap nat PromiseState;
  next_promise : nat;
  outbox : list ToWebview;                   (* [webview.postMessage] calls *)
  slept : list N;                            (* completed backoff delays, ms *)
  onChunk_calls : list (option string)       (* arguments passed to [onChunk] *)
}.

Definition maxHistoryLength : nat := 50.

(** [new PuterAIService()] *)
Definition new_service (cfg : WorkspaceConfiguration) : State :=
  {| config := cfg; conversationHistory := ∅; pendingRequests := ∅;
     webviewProvider := false; timers := ∅; next_timer := 0;
     promises := ∅; next_promise := 0; outbox := []; slept := [];
     onChunk_calls := [] |}.

(** Field updates. *)
Definition with_history (f : gmap string (list ChatMessage) -> gmap string (list ChatMessage))
    (s : State) : State :=
  {| config := config s; conversationHistory := f (conversationHistory s);
     pendingRequests := pendingRequests s; webviewProvider := webviewProvider s;
     timers := timers s; next_timer := next_timer s; promises := promises s;
     next_promise := next_promise s; outbox := outbox s; slept := slept s;
     onChunk_calls := onChunk_calls s |}.

Definition with_pending (f : gmap string PendingEntry -> gmap string PendingEntry)
    (s : State) : State :=
  {| config := config s; conversationHistory := conversationHistory s;
     pendingRequests := f (pendingRequests s); webviewProvider := webviewProvider s;
     timers := timers s; next_timer := next_timer s; promises := promises s;
     next_promise := next_promise s; outbox := outbox s; slept := slept s;
     onChunk_calls := onChunk_calls s |}.

Definition with_timers (f : gmap nat (N * TimerCallback) -> gmap nat (N * TimerCallback))
    (s : State) : State :=
  {| config := config s; conversationHistory := conversationHistory s;
     pendingRequests := pendingRequests s; webviewProvider := webviewProvider s;
     timers := f (timers s); next_timer := next_timer s; promises := promises s;
     next_promise := next_promise s; outbox := outbox s; slept := slept s;
     onChunk_calls := onChunk_calls s |}.

Definition with_promises (f : gmap nat PromiseState -> gmap nat PromiseState)
    (s : State) : State :=
  {| config := config s; conversationHistory := conversationHistory s;
     pendingRequests := pendingRequests s; webviewProvider := webviewProvider s;
     timers := timers s; next_timer := next_timer s; promises := f (promises s);
     next_promise := next_promise s; outbox := outbox s; slept := slept s;
     onChunk_calls := onChunk_calls s |}.

Definition post (m : ToWebview) (s : State) : State :=
  {| config := config s; conversationHistory := conversationHistory s;
     pendingRequests := pendingRequests s; webviewProvider := webviewProvider s;
     timers := timers s; next_timer := next_timer s; promises := promises s;
     next_promise := next_promise s; outbox := outbox s ++ [m]; slept := slept s;
     onChunk_calls := onChunk_calls s |}.

Definition onChunk (chunk : option string) (s : State) : State :=
  {| config := config s; conversationHistory := conversationHistory s;
     pendingRequests := pendingRequests s; webviewProvider := webviewProvider s;
     timers := timers s; next_timer := next_timer s; promises := promises s;
     next_promise := next_promise s; outbox := outbox s; slept := slept s;
     onChunk_calls := onChunk_calls s ++ [chunk] |}.

(** [setWebviewProvider(provider)] *)
Definition setWebviewProvider (s : State) : State :=
  {| config := config s; conversationHistory := conversationHistory s;
     pendingRequests := pendingRequests s; webviewProvider := true;
     timers := timers s; next_timer := next_timer s; promises := promises s;
     next_promise := next_promise s; outbox := outbox s; slept := slept s;
     onChunk_calls := onChunk_calls s |}.

(** ** Conversation store *)

(** [addToHistory]: create the array on first use, push, and drop the head
    once the length exceeds [maxHistoryLength]. *)
Definition addToHistory (conversationId : string) (message : ChatMessage)
    (s : State) : State :=
  let history := default [] (conversationHistory s !! conversationId) ++ [message] in
  let history := if decide (maxHistoryLength < length history)
                 then tail history else history in
  with_history (insert conversationId history) s.

(** [getHistory]: [this.conversationHistory.get(id) || []]. *)
Definition getHistory (conversationId : string) (s : State) : list ChatMessage :=
  default [] (conversationHistory s !! conversationId).

(** [clearHistory]: [this.conversationHistory.delete(id)]. *)
Definition clearHistory (conversationId : string) (s : State) : State :=
  with_history (delete conversationId) s.

Definition append_all (conversationId : string) (ms : list ChatMessage)
    (s : State) : State :=
  fold_left (fun s m => addToHistory conversationId m s) ms s.

(** ** Promises and timers *)

(** Outcome of awaiting a promise.  [Unsettled p] stands for an [await] that
    never resumes: promise [p] is still pending once every modelled event
    has been processed. *)
Inductive Completion (A : Type) :=
  | Fulfilled (value : A)
  | Failed (message : string)
  | Unsettled (promise : nat).

Arguments Fulfilled {A} value.
Arguments Failed {A} message.
Arguments Unsettled {A} promise.

(** [new Promise(...)]: a fresh pending promise. *)
Definition new_promise (s : State) : nat * State :=
  (next_promise s,
   {| config := config s; conversationHistory := conversationHistory s;
      pendingRequests := pendingRequests s; webviewProvider := webviewProvider s;
      timers := timers s; next_timer := next_timer s;
      promises := <[next_promise s := Pending]> (promises s);
      next_promise := S (next_promise s); outbox := outbox s; slept := slept s;
      onChunk_calls := onChunk_calls s |}).

(** The [resolve] / [reject] functions of promise [p]: only the first call
    settles it. *)
Definition settle (p : nat) (outcome : PromiseState) (s : State) : State :=
  match promises s !! p with
  | Some Pending => with_promises (insert p outcome) s
  | _ => s
  end.

Definition promise_state (p : nat) (s : State) : PromiseState :=
  default Pending (promises s !! p).

(** [setTimeout(cb, ms)] returns a fresh handle; [clearTimeout] disarms. *)
Definition setTimeout (cb : TimerCallback) (ms : N) (s : State) : nat * State :=
  (next_timer s,
   {| config := config s; conversationHistory := conversationHistory s;
      pendingRequests := pendingRequests s; webviewProvider := webviewProvider s;
      timers := <[next_timer s := (ms, cb)]> (timers s);
      next_timer := S (next_timer s); promises := promises s;
      next_promise := next_promise s; outbox := outbox s; slept := slept s;
      onChunk_calls := onChunk_calls s |}).

Definition clearTimeout (h : nat) (s : State) : State :=
  with_timers (delete h) s.

Definition timeout_message : string :=
  "Request timeout - AI service did not respond within 60 seconds".

(** The event "timer [h] elapses".  A cleared (or already fired) timer does
    nothing.  The request timeout deletes the pending entry, then rejects. *)
Definition fire_timer (h : nat) (s : State) : State :=
  match timers s !! h with
  | Some (_, TimeoutCb rid p) =>
      settle p (Rejected timeout_message)
        (with_pending (delete rid) (with_timers (delete h) s))
  | None => s
  end.

(** [await new Promise(resolve => setTimeout(resolve, ms))]: the backoff
    pause; its duration is logged in [slept]. *)
Definition sleep (ms : N) (s : State) : State :=
  {| config := config s; conversationHistory := conversationHistory s;
     pendingRequests := pendingRequests s; webviewProvider := webviewProvider s;
     timers := timers s; next_timer := S (next_timer s);
     promises := <[next_promise s := Resolved None]> (promises s);
     next_promise := S (next_promise s); outbox := outbox s;
     slept := slept s ++ [ms]; onChunk_calls := onChunk_calls s |}.

(** ** Correlating replies *)

(** JavaScript [x || d] on an optional string: [undefined] and the empty
    string are falsy. *)
Definition or_default (x : option string) (d : string) : string :=
  match x with
  | Some (String c r) => String c r
  | _ => d
  end.

(** The [resolve] and [reject] closures stored in a pending entry: clear the
    timeout, then settle the promise of the attempt. *)
Definition entry_resolve (e : PendingEntry) (value : option string) (s : State) : State :=
  settle (entry_promise e) (Resolved value) (clearTimeout (entry_timeout e) s).

Definition entry_reject (e : PendingEntry) (message : string) (s : State) : State :=
  settle (entry_promise e) (Rejected message) (clearTimeout (entry_timeout e) s).

(** [handleAPIResponse(response)] *)
Definition handleAPIResponse (response : PuterAPIResponse) (s : State) : State :=
  match pendingRequests s !! requestId response with
  | Some pending =>
      let s :=
        if success response
        then entry_resolve pending (data response) s
        else entry_reject pending (or_default (error response) "Unknown error") s in
      with_pending (delete (requestId response)) s
  | None => s
  end.

(** ** The provider's message switch *)

(** [sendMessage] and the [postMessage] calls of the provider are guarded by
    [this._view], which [resolveWebviewView] sets together with the
    service's [webviewProvider]. *)
Definition sendMessage (m : ToWebview) (s : State) : State :=
  if webviewProvider s then post m s else s.

Definition handleChatMessage (message : string) (mdl : option string) (s : State) : State :=
  if webviewProvider s
  then post (ProcessChat message mdl) (post (Loading true) s)
  else s.

(** [webviewView.webview.onDidReceiveMessage]: the [switch (data.type)].
    The three stream message types have no case. *)
Definition onDidReceiveMessage (m : FromWebview) (s : State) : State :=
  match m with
  | FwChat message mdl => handleChatMessage message mdl s
  | FwApiResponse response => handleAPIResponse response s
  | FwClearHistory cid => clearHistory (or_default cid "default") s
  | FwGetHistory cid =>
      sendMessage (HistoryResponse (getHistory (or_default cid "default") s)) s
  | FwStreamChunk _ _ => s
  | FwStreamEnd _ => s
  | FwStreamError _ _ => s
  end.

(** Dispatch a batch of incoming messages in arrival order. *)
Definition deliver (ms : list FromWebview) (s : State) : State :=
  fold_left (fun s m => onDidReceiveMessage m s) ms s.

(** ** The environment of a call *)

Record Editor := {
  fileName : string;
  languageId : string;
  selection : option (nat * nat)   (* start and end line when not empty *)
}.

Record Env := {
  now : nat -> N;              (* [Date.now()] at the n-th attempt *)
  random36 : nat -> string;    (* [Math.random().toString(36).substr(2, 9)] *)
  webview : ToWebview -> list FromWebview;
                               (* what the webview posts back, in order,
                                  before the request timeout would elapse *)
  workspaceFolders : option (list string);
                               (* [vscode.workspace.workspaceFolders]:
                                  undefined, or the names of the folders *)
  activeTextEditor : option Editor
}.

Definition nl : string := String "010"%char EmptyString.

Definition undefined_name : string :=
  "Cannot read properties of undefined (reading 'name')".

(** [getWorkspaceContext()]: the context, or the message of the
    [TypeError] that [workspaceFolders[0].name] raises on an empty list of
    folders. *)
Definition getWorkspaceContext (env : Env) : string + string :=
  match workspaceFolders env with
  | None => inl "No workspace open"
  | Some [] => inr undefined_name
  | Some (name :: _) =>
      let context := "Workspace: " +:+ name +:+ nl in
      match activeTextEditor env with
      | None => inl context
      | Some editor =>
          let context := context +:+ "Active File: " +:+ fileName editor +:+ nl in
          let context := context +:+ "Language: " +:+ languageId editor +:+ nl in
          match selection editor with
          | Some (start, stop) =>
              inl (context +:+ "Selected Lines: " +:+ pretty (start + 1)%nat +:+ "-"
                           +:+ pretty (stop + 1)%nat +:+ nl)
          | None => inl context
          end
      end
  end.

Record ConfigValues := {
  cv_model : string;
  cv_temperature : Q;
  cv_maxTokens : Z;
  cv_enableStreaming : bool;
  cv_enableAgentMode : bool;
  cv_agentAutoApply : bool
}.

(** [getConfig()]: each option with its default. *)
Definition getConfig (s : State) : ConfigValues :=
  {| cv_model := default "claude-sonnet-4-5" (cfg_defaultModel (config s));
     cv_temperature := default (Qmake 7 10) (cfg_temperature (config s));
     cv_maxTokens := default 2000%Z (cfg_maxTokens (config s));
     cv_enableStreaming := default true (cfg_enableStreaming (config s));
     cv_enableAgentMode := default false (cfg_enableAgentMode (config s));
     cv_agentAutoApply := default false (cfg_agentAutoApply (config s)) |}.

(** The prompt sent by [chat] and [chatWithStreaming]. *)
Definition fullPrompt (systemPrompt : option string) (context message : string) : string :=
  match systemPrompt with
  | Some (String c r) =>
      String c r +:+ nl +:+ nl +:+ "Context:" +:+ nl +:+ context +:+ nl +:+ nl
        +:+ "User: " +:+ message
  | _ => message
  end.

(** ** callPuterAPI *)

(** [String.prototype.includes] *)
Fixpoint includes (s sub : string) : bool :=
  String.prefix sub s ||
  match s with
  | EmptyString => false
  | String _ rest => includes rest sub
  end.

(** The errors [callPuterAPI] rethrows without retrying. *)
Definition non_retryable (message : string) : bool :=
  includes message "not initialized" ||
  includes message "Invalid model" ||
  includes message "Authentication failed".

Definition make_requestId (tag : string) (env : Env) (k : nat) : string :=
  tag +:+ pretty (now env k) +:+ "_" +:+ random36 env k.

(** The body of the promise executor of one attempt: arm the timeout, store
    the pending entry, post the request. *)
Definition start_request (rid method : string) (params : ChatParams) (s : State)
    : nat * nat * State :=
  let '(p, s) := new_promise s in
  let '(timeout, s) := setTimeout (TimeoutCb rid p) 60000 s in
  let s := with_pending (insert rid {| entry_timeout := timeout; entry_promise := p |}) s in
  let s := post (ApiRequest rid method params) s in
  (p, timeout, s).

(** One iteration up to the [await]: generate the id, start the request,
    let the webview's replies arrive, then let the timeout elapse if it is
    still armed.  Returns the attempt's promise and how it settled. *)
Definition run_attempt (env : Env) (method : string) (params : ChatParams)
    (attempt : nat) (s : State) : nat * PromiseState * State :=
  let requestId := make_requestId "req_" env attempt in
  let '(p, timeout, s) := start_request requestId method params s in
  let s := deliver (webview env (ApiRequest requestId method params)) s in
  let s := fire_timer timeout s in
  (p, promise_state p s, s).

Record Run := {
  completion : Completion (option string);
  attempts : list PromiseState;    (* how each attempt's promise settled *)
  final : State
}.

(** [Math.pow(2, attempt) * 1000] *)
Definition backoff (attempt : nat) : N := (2 ^ N.of_nat attempt * 1000)%N.

(** The [for] loop of [callPuterAPI]; [remaining] counts the iterations
    left, so the loop variable is [retries - remaining]. *)
Fixpoint attempt_loop (env : Env) (method : string) (params : ChatParams)
    (retries remaining : nat) (lastError : option string)
    (log : list PromiseState) (s : State) : Run :=
  match remaining with
  | O =>
      {| completion :=
           Failed ("Failed after " +:+ pretty retries +:+ " attempts: "
                     +:+ default "undefined" lastError);
         attempts := log; final := s |}
  | S remaining' =>
      let attempt := (retries - remaining)%nat in
      let '(p, outcome, s) := run_attempt env method params attempt s in
      match outcome with
      | Resolved result =>
          {| completion := Fulfilled result;
             attempts := log ++ [Resolved result]; final := s |}
      | Rejected message =>
          if non_retryable message
          then {| completion := Failed message;
                  attempts := log ++ [Rejected message]; final := s |}
          else
            let s := if decide (attempt < retries - 1)%nat
                     then sleep (backoff attempt) s else s in
            attempt_loop env method params retries remaining' (Some message)
              (log ++ [Rejected message]) s
      | Pending =>
          {| completion := Unsettled p;
             attempts := log ++ [Pending]; final := s |}
      end
  end.

Definition not_initialized : string := "Webview provider not initialized".

Definition callPuterAPI (env : Env) (method : string) (params : ChatParams)
    (retries : nat) (s : State) : Run :=
  if webviewProvider s
  then attempt_loop env method params retries retries None [] s
  else {| completion := Failed not_initialized; attempts := []; final := s |}.

(** [chat(message, systemPrompt)]: three attempts, errors wrapped.  The
    workspace context is computed before the [try], so its [TypeError] is
    not wrapped. *)
Definition chat (env : Env) (message : string) (systemPrompt : option string)
    (s : State) : Completion (option string) * State :=
  let cfg := getConfig s in
  match getWorkspaceContext env with
  | inr message => (Failed message, s)
  | inl context =>
      let r := callPuterAPI env "chat"
                 {| prompt := fullPrompt systemPrompt context message;
                    model := cv_model cfg;
                    temperature := cv_temperature cfg;
                    max_tokens := cv_maxTokens cfg |} 3 s in
      match completion r with
      | Failed message => (Failed ("Puter AI Error: " +:+ message), final r)
      | c => (c, final r)
      end
  end.

(** ** chatWithStreaming *)


Definition await_void (p : nat) (s : State) : Completion unit :=
  match promise_state p s with
  | Pending => Unsettled p
  | Resolved _ => Fulfilled tt
  | Rejected message => Failed message
  end.

Definition chatWithStreaming (env : Env) (message : string)
    (systemPrompt : option string) (s : State) : Completion unit * State :=
  let cfg := getConfig s in
  if negb (cv_enableStreaming cfg) then
    match chat env message systemPrompt s with
    | (Fulfilled response, s) => (Fulfilled tt, onChunk response s)
    | (Failed e, s) => (Failed e, s)
    | (Unsettled p, s) => (Unsettled p, s)
    end
  else if negb (webviewProvider s) then (Failed not_initialized, s)
  else
    match getWorkspaceContext env with
    | inr message => (Failed message, s)
    | inl context =>
        let requestId := make_requestId "stream_" env 0 in
        let request :=
          StreamRequest requestId
            {| prompt := fullPrompt systemPrompt context message;
               model := cv_model cfg;
               temperature := cv_temperature cfg;
               max_tokens := cv_maxTokens cfg |} in
        let '(p, s) := new_promise s in
        (* [listener requestId p] is built here and dropped *)
        let s := post request s in
        let s := deliver (webview env request) s in
        (await_void p s, s)
    end.

(** ** The webview side of a stream request *)

(** Shapes of a value produced by the SDK. *)
Inductive SdkValue :=
  | SdkString (text : string)
  | SdkMessage (content : list string)   (* [.message.content[i].text] *)
  | SdkOther.                            (* an object without message content *)

(** What [puter.ai.chat(prompt, { ..., stream: true })] does. *)
Inductive SdkStream :=
  | SdkThrows (err : string)
  | SdkIterable (chunks : list SdkValue) (failure : option string)
      (* yields [chunks], then finishes or throws [failure] *)
  | SdkPlain (response : SdkValue)
  | SdkNull.

Definition undefined_text : string :=
  "Cannot read properties of undefined (reading 'text')".
Definition null_message : string :=
  "Cannot read properties of null (reading 'message')".

(** Text of a chunk, or the message of the [TypeError] raised by
    [content[0].text] on an empty [content]. *)
Definition sdk_text (v : SdkValue) : string + string :=
  match v with
  | SdkString text => inl text
  | SdkMessage (text :: _) => inl text
  | SdkMessage [] => inr undefined_text
  | SdkOther => inl EmptyString
  end.

(** The [for await] loop: one [streamChunk] per chunk; an exception ends it
    with [streamError]. *)
Fixpoint stream_chunks (requestId : string) (chunks : list SdkValue)
    (failure : option string) : list FromWebview :=
  match chunks with
  | [] =>
      match failure with
      | None => [FwStreamEnd requestId]
      | Some err => [FwStreamError requestId err]
      end
  | chunk :: rest =>
      match sdk_text chunk with
      | inl chunkText =>
          FwStreamChunk requestId chunkText :: stream_chunks requestId rest failure
      | inr err => [FwStreamError requestId err]
      end
  end.

(** [handleStreamRequest(requestId, ...)]: the messages it posts. *)
Definition handleStreamRequest (requestId : string) (sdk : SdkStream) : list FromWebview :=
  match sdk with
  | SdkThrows err => [FwStreamError requestId err]
  | SdkIterable chunks failure => stream_chunks requestId chunks failure
  | SdkPlain response =>
      match sdk_text response with
      | inl responseText => [FwStreamChunk requestId responseText; FwStreamEnd requestId]
      | inr err => [FwStreamError requestId err]
      end
  | SdkNull => [FwStreamError requestId null_message]
  end.

(** Shape promised to the caller of a stream: chunks, then one terminal
    event, nothing after it. *)
Definition is_chunk (requestId : string) (m : FromWebview) : Prop :=
  exists chunk, m = FwStreamChunk requestId chunk.

Definition is_terminal (requestId : string) (m : FromWebview) : Prop :=
  m = FwStreamEnd requestId \/ exists err, m = FwStreamError requestId err.

Definition well_formed_stream (requestId : string) (ms : list FromWebview) : Prop :=
  exists chunks terminal,
    ms = chunks ++ [terminal] /\
    Forall (is_chunk requestId) chunks /\ is_terminal requestId terminal.

(** ** agentModifyCode *)

#[warnings="-register-all"]
Inductive JsonValue :=
  | JNull
  | JBool (b : bool)
  | JNumber (q : Q)
  | JString (s : string)
  | JArray (items : list JsonValue)
  | JObject (fields : list (string * JsonValue)).

Definition dq : string := String "034"%char EmptyString.
Definition fence : string := "```".

(** The suffix starting at the first opening brace. *)
Fixpoint from_first_open (s : string) : option string :=
  match s with
  | EmptyString => None
  | String c rest =>
      if Ascii.eqb c "{" then Some s else from_first_open rest
  end.

(** The longest prefix ending in a closing brace. *)
Fixpoint upto_last_close (s : string) : option string :=
  match s with
  | EmptyString => None
  | String c rest =>
      match upto_last_close rest with
      | Some block => Some (String c block)
      | None => if Ascii.eqb c "}" then Some (String c EmptyString) else None
      end
  end.

(** [response.match(/\{[\s\S]*\}/)]: leftmost opening brace, greedy up to
    the last closing brace; the matched text or [null]. *)
Definition match_braces (response : string) : option string :=
  from_first_open response ≫= upto_last_close.

Definition agent_prompt (instruction code language filePath : string) : string :=
  "You are a code modification agent. Modify the following " +:+ language
    +:+ " code according to the user's instruction." +:+ nl
    +:+ nl
    +:+ "FILE: " +:+ filePath +:+ nl
    +:+ "INSTRUCTION: " +:+ instruction +:+ nl
    +:+ nl
    +:+ "CURRENT CODE:" +:+ nl
    +:+ fence +:+ language +:+ nl
    +:+ code +:+ nl
    +:+ fence +:+ nl
    +:+ nl
    +:+ "Respond in JSON format:" +:+ nl
    +:+ "{" +:+ nl
    +:+ "    " +:+ dq +:+ "modifiedCode" +:+ dq +:+ ": " +:+ dq
    +:+ "the complete modified code" +:+ dq +:+ "," +:+ nl
    +:+ "    " +:+ dq +:+ "explanation" +:+ dq +:+ ": " +:+ dq
    +:+ "what changes were made" +:+ dq +:+ "," +:+ nl
    +:+ "    " +:+ dq +:+ "changesSummary" +:+ dq +:+ ": " +:+ dq
    +:+ "brief summary of changes" +:+ dq +:+ nl
    +:+ "}".

Definition agent_system_prompt : string :=
  "You are an expert code modification agent. Always respond with valid JSON.".

Definition no_changes (code : string) : JsonValue :=
  JObject [("modifiedCode", JString code);
           ("explanation", JString "Could not parse agent response");
           ("changesSummary", JString "No changes made")].

Definition undefined_match : string :=
  "TypeError: Cannot read properties of undefined (reading 'match')".

Section Agent.

(** [JSON.parse] of the runtime: the parsed value, or the text of the
    exception it throws. *)
Variable JSON_parse : string -> JsonValue + string.

(** The [try] block of [agentModifyCode]. *)
Definition parse_agent_response (code : string) (response : option string)
    : Completion JsonValue :=
  match response with
  | None => Failed ("Failed to parse agent response: " +:+ undefined_match)
  | Some text =>
      match match_braces text with
      | Some jsonMatch =>
          match JSON_parse jsonMatch with
          | inl value => Fulfilled value
          | inr err => Failed ("Failed to parse agent response: " +:+ err)
          end
      | None => Fulfilled (no_changes code)
      end
  end.

Definition agentModifyCode (env : Env) (instruction code language filePath : string)
    (s : State) : Completion JsonValue * State :=
  match chat env (agent_prompt instruction code language filePath)
             (Some agent_system_prompt) s with
  | (Fulfilled response, s) => (parse_agent_response code response, s)
  | (Failed e, s) => (Failed e, s)
  | (Unsettled p, s) => (Unsettled p, s)
  end.

End Agent.

(** ** Observations used in the statements *)

(** The [apiRequest] descriptors among the posted messages. *)
Definition api_requests (ms : list ToWebview) : list (string * string * ChatParams) :=
  omap (fun m => match m with
                 | ApiRequest rid method params => Some (rid, method, params)
                 | _ => None
                 end) ms.

(** The [streamRequest] descriptors among the posted messages. *)
Definition stream_requests (ms : list ToWebview) : list (string * ChatParams) :=
  omap (fun m => match m with
                 | StreamRequest rid params => Some (rid, params)
                 | _ => None
                 end) ms.

(** The descriptor of attempt [k]. *)
Definition request_of (env : Env) (method : string) (params : ChatParams) (k : nat)
    : string * string * ChatParams :=
  (make_requestId "req_" env k, method, params).

(** An attempt that failed with an error [callPuterAPI] retries. *)
Definition retryable_failure (outcome : PromiseState) : bool :=
  match outcome with
  | Rejected message => negb (non_retryable message)
  | _ => false
  end.

(** What a reply settles the promise of its request to. *)
Definition reply_outcome (response : PuterAPIResponse) : PromiseState :=
  if success response then Resolved (data response)
  else Rejected (or_default (error response) "Unknown error").

(** Every stored conversation respects the cap. *)
Definition capped (s : State) : Prop :=
  forall cid history,
    conversationHistory s !! cid = Some history ->
    length history <= maxHistoryLength.

(** No request id has been generated twice: pending entries, armed timeouts
    and pending promises correspond one to one, and the counters are ahead
    of every handle in use. *)
Record bridge_inv (s : State) : Prop := {
  inv_entry : forall rid e,
    pendingRequests s !! rid = Some e ->
    timers s !! entry_timeout e = Some (60000%N, TimeoutCb rid (entry_promise e)) /\
    promises s !! entry_promise e = Some Pending;
  inv_timer : forall h ms rid p,
    timers s !! h = Some (ms, TimeoutCb rid p) ->
    pendingRequests s !! rid = Some {| entry_timeout := h; entry_promise := p |};
  inv_promise_unique : forall rid1 rid2 e1 e2,
    pendingRequests s !! rid1 = Some e1 ->
    pendingRequests s !! rid2 = Some e2 ->
    entry_promise e1 = entry_promise e2 -> rid1 = rid2;
  inv_timer_fresh : forall h, next_timer s <= h -> timers s !! h = None;
  inv_promise_fresh : forall p, next_promise s <= p -> promises s !! p = None
}.

(** Entries and armed timers of [s'] are entries and armed timers of [s],
    and settled promises of [s] stay as they are. *)
Definition bridge_shrinks (s s' : State) : Prop :=
  (forall rid e, pendingRequests s' !! rid = Some e -> pendingRequests s !! rid = Some e) /\
  (forall h t, timers s' !! h = Some t -> timers s !! h = Some t) /\
  (forall p outcome,
     promises s !! p = Some outcome -> outcome <> Pending ->
     promises s' !! p = Some outcome).

(** Removing a request: its entry and timer go, its promise is settled. *)
Definition remove_request (rid : string) (e : PendingEntry) (outcome : PromiseState)
    (s : State) : State :=
  with_pending (delete rid)
    (with_promises (insert (entry_promise e) outcome)
       (with_timers (delete (entry_timeout e)) s)).

(** The reply text contains an opening brace with a closing brace somewhere
    after it. *)
Definition has_brace_block (text : string) : Prop :=
  exists a b c, text = a +:+ "{" +:+ b +:+ "}" +:+ c.

(** Reading of the non-streaming mode of [chatWithStreaming] taken from its
    description: run [chat]; on success hand the whole result to [onChunk]
    once and complete; on failure reject with the same error and call
    nothing. *)
Definition chatWithStreaming_disabled_spec (env : Env) (message : string)
    (systemPrompt : option string) (s : State) : Completion unit * State :=
  let '(result, s') := chat env message systemPrompt s in
  match result with
  | Fulfilled response =>
      (Fulfilled tt,
       {| config := config s'; conversationHistory := conversationHistory s';
          pendingRequests := pendingRequests s'; webviewProvider := webviewProvider s';
          timers := timers s'; next_timer := next_timer s'; promises := promises s';
          next_promise := next_promise s'; outbox := outbox s'; slept := slept s';
          onChunk_calls := onChunk_calls s' ++ [response] |})
  | Failed e => (Failed e, s')
  | Unsettled p => (Unsettled p, s')
  end.

(** The store only loses conversations: every id keeps its history or has
    none. *)
Definition history_shrinks (s s' : State) : Prop :=
  forall cid,
    conversationHistory s' !! cid = conversationHistory s !! cid \/
    conversationHistory s' !! cid = None.

(** What a non-streaming call leaves alone. *)
Definition bridge_frame (s s' : State) : Prop :=
  config s' = config s /\
  webviewProvider s' = webviewProvider s /\
  onChunk_calls s' = onChunk_calls s /\
  stream_requests (outbox s') = stream_requests (outbox s) /\
  history_shrinks s s'.

(** The operations on a service, for sequences of calls and events. *)
Inductive ServiceOp :=
  | OpAdd (conversationId : string) (message : ChatMessage)
  | OpClear (conversationId : string)
  | OpAttach
  | OpReceive (m : FromWebview)
  | OpTimer (h : nat)
  | OpChat (env : Env) (message : string) (systemPrompt : option string)
  | OpStream (env : Env) (message : string) (systemPrompt : option string).

Definition service_step (s : State) (op : ServiceOp) : State :=
  match op with
  | OpAdd cid m => addToHistory cid m s
  | OpClear cid => clearHistory cid s
  | OpAttach => setWebviewProvider s
  | OpReceive m => onDidReceiveMessage m s
  | OpTimer h => fire_timer h s
  | OpChat env message systemPrompt => snd (chat env message systemPrompt s)
  | OpStream env message systemPrompt => snd (chatWithStreaming env message systemPrompt s)
  end.

Definition service_run (ops : list ServiceOp) (s : State) : State :=
  fold_left service_step ops s.

(** The operation writes to conversation [cid]. *)
Definition writes_to (cid : string) (op : ServiceOp) : Prop :=
  exists m, op = OpAdd cid m.

(** The ids an operation generates are not in use when it starts. *)
Definition op_fresh (s : State) (op : ServiceOp) : Prop :=
  match op with
  | OpChat env _ _ | OpStream env _ _ =>
      forall k, k < 3 -> pendingRequests s !! make_requestId "req_" env k = None
  | _ => True
  end.

Fixpoint collision_free (ops : list ServiceOp) (s : State) : Prop :=
  match ops with
  | [] => True
  | op :: ops => op_fresh s op /\ collision_free ops (service_step s op)
  end.

(** Decimal digits, as produced by string interpolation of [Date.now()]. *)
Definition is_digit (c : ascii) : bool :=
  (48 <=? nat_of_ascii c)%nat && (nat_of_ascii c <=? 57)%nat.

Fixpoint all_digits (s : string) : bool :=
  match s with
  | EmptyString => true
  | String c rest => is_digit c && all_digits rest
  end.

(** ** A parser for the reply format the agent prompt asks for

    [JSON.parse] belongs to the runtime.  The examples run with this parser
    for the fragment the prompt requests: one object whose fields are
    strings. *)

Definition is_ws (c : ascii) : bool :=
  Ascii.eqb c " " || Ascii.eqb c "009" || Ascii.eqb c "010" || Ascii.eqb c "013".

Fixpoint skip_ws (s : string) : string :=
  match s with
  | String c rest => if is_ws c then skip_ws rest else s
  | EmptyString => EmptyString
  end.

(** Characters up to the closing quote, with the two-character escapes. *)
Fixpoint read_string (s : string) : option (string * string) :=
  match s with
  | EmptyString => None
  | String c rest =>
      if Ascii.eqb c "034" then Some (EmptyString, rest)
      else if Ascii.eqb c "\" then
        match rest with
        | String e rest' =>
            let decoded :=
              if Ascii.eqb e "n" then Some "010"%char
              else if Ascii.eqb e "t" then Some "009"%char
              else if Ascii.eqb e "r" then Some "013"%char
              else if Ascii.eqb e "034" || Ascii.eqb e "\" || Ascii.eqb e "/"
                   then Some e else None in
            match decoded, read_string rest' with
            | Some d, Some (text, after) => Some (String d text, after)
            | _, _ => None
            end
        | EmptyString => None
        end
      else
        match read_string rest with
        | Some (text, after) => Some (String c text, after)
        | None => None
        end
  end.

Definition syntax_error : string := "SyntaxError: Unexpected token in JSON".

Fixpoint read_fields (fuel : nat) (s : string) (acc : list (string * JsonValue))
    : JsonValue + string :=
  match fuel with
  | O => inr syntax_error
  | S fuel =>
      match skip_ws s with
      | String q rest =>
          if negb (Ascii.eqb q "034") then inr syntax_error else
          match read_string rest with
          | Some (key, rest) =>
              match skip_ws rest with
              | String colon rest =>
                  if negb (Ascii.eqb colon ":") then inr syntax_error else
                  match skip_ws rest with
                  | String q' rest =>
                      if negb (Ascii.eqb q' "034") then inr syntax_error else
                      match read_string rest with
                      | Some (value, rest) =>
                          let acc := acc ++ [(key, JString value)] in
                          match skip_ws rest with
                          | String sep rest =>
                              if Ascii.eqb sep "," then read_fields fuel rest acc
                              else if Ascii.eqb sep "}" then
                                match skip_ws rest with
                                | EmptyString => inl (JObject acc)
                                | _ => inr syntax_error
                                end
                              else inr syntax_error
                          | EmptyString => inr syntax_error
                          end
                      | None => inr syntax_error
                      end
                  | EmptyString => inr syntax_error
                  end
              | EmptyString => inr syntax_error
              end
          | None => inr syntax_error
          end
      | EmptyString => inr syntax_error
      end
  end.

Definition parse_flat_object (s : string) : JsonValue + string :=
  match skip_ws s with
  | String open rest =>
      if negb (Ascii.eqb open "{") then inr syntax_error else
      match skip_ws rest with
      | String close rest' =>
          if Ascii.eqb close "}" then
            match skip_ws rest' with
            | EmptyString => inl (JObject [])
            | _ => inr syntax_error
            end
          else read_fields (String.length s) rest []
      | EmptyString => inr syntax_error
      end
  | EmptyString => inr syntax_error
  end.

(** ** Sample configurations, environments and states *)

Definition sample_config : WorkspaceConfiguration :=
  {| cfg_defaultModel := Some "gpt-4o"; cfg_temperature := None;
     cfg_maxTokens := None; cfg_enableStreaming := None;
     cfg_enableAgentMode := None; cfg_agentAutoApply := None |}.

Definition no_streaming_config : WorkspaceConfiguration :=
  {| cfg_defaultModel := Some "gpt-4o"; cfg_temperature := None;
     cfg_maxTokens := None; cfg_enableStreaming := Some false;
     cfg_enableAgentMode := None; cfg_agentAutoApply := None |}.

(** A service whose webview has been resolved. *)
Definition attached (cfg : WorkspaceConfiguration) : State :=
  setWebviewProvider (new_service cfg).

Definition hi_params : ChatParams :=
  {| prompt := "hi"; model := "gpt-4o"; temperature := Qmake 7 10;
     max_tokens := 2000 |}.

(** An environment around a given webview behaviour: the clock advances by
    61 seconds per attempt. *)
Definition sample_env (behaviour : ToWebview -> list FromWebview) : Env :=
  {| now := fun k => (1700000000000 + 61000 * N.of_nat k)%N;
     random36 := fun k => "k3j9x" +:+ pretty k +:+ "qzp";
     webview := behaviour;
     workspaceFolders := None;
     activeTextEditor := None |}.

(** The webview never answers. *)
Definition silent (_ : ToWebview) : list FromWebview := [].

(** The webview answers every [apiRequest] at once with the given reply. *)
Definition replies (ok : bool) (payload : string) (m : ToWebview) : list FromWebview :=
  match m with
  | ApiRequest rid _ _ =>
      [FwApiResponse
         {| requestId := rid; success := ok;
            data := if ok then Some payload else None;
            error := if ok then None else Some payload |}]
  | _ => []
  end.

(** The webview runs [handleStreamRequest] on a stream request. *)
Definition streams (sdk : SdkStream) (m : ToWebview) : list FromWebview :=
  match m with
  | StreamRequest rid _ => handleStreamRequest rid sdk
  | _ => []
  end.

Definition sample_rid : string := make_requestId "req_" (sample_env silent) 0.

(** A service with one request in flight. *)
Definition one_pending : State :=
  snd (start_request sample_rid "chat" hi_params (attached sample_config)).

Definition hello_reply : PuterAPIResponse :=
  {| requestId := sample_rid; success := true; data := Some "Hello!"; error := None |}.

(** A stream of two chunks that ends normally. *)
Definition two_chunks : SdkStream :=
  SdkIterable [SdkString "Hel"; SdkString "lo"] None.

(** Replies of the model to an agent request. *)
Definition prose_reply : string := "I would rather not change this file.".
Definition broken_reply : string := "Here you go: {oops}".
Definition good_reply : string :=
  "Done. {" +:+ dq +:+ "modifiedCode" +:+ dq +:+ ": " +:+ dq +:+ "y = 1" +:+ dq
    +:+ ", " +:+ dq +:+ "explanation" +:+ dq +:+ ": " +:+ dq +:+ "renamed x" +:+ dq
    +:+ ", " +:+ dq +:+ "changesSummary" +:+ dq +:+ ": " +:+ dq +:+ "1 rename" +:+ dq
    +:+ "}".

Definition agent_call (reply : string) : Completion JsonValue * State :=
  agentModifyCode parse_flat_object (sample_env (replies true reply))
    "rename x to y" "x = 1" "python" "/work/a.py" (attached sample_config).

Definition agent_chat (reply : string) : Completion (option string) * State :=
  chat (sample_env (replies true reply))
    (agent_prompt "rename x to y" "x = 1" "python" "/work/a.py")
    (Some agent_system_prompt) (attached sample_config).

Definition sample_message (n : nat) : ChatMessage :=
  {| role := if Nat.even n then user else assistant;
     content := "message " +:+ pretty n;
     timestamp := N.of_nat (100 + n) |}.

(** * Further parts of the program *)
(** ** getConversationStats *)

Record ConversationStats := {
  messageCount : nat;
  userMessages : nat;
  aiMessages : nat
}.

Definition has_role (r : Role) (m : ChatMessage) : bool :=
  match r, role m with
  | user, user | assistant, assistant | system, system => true
  | _, _ => false
  end.

(** [getConversationStats(conversationId)] *)
Definition getConversationStats (conversationId : string) (s : State)
    : ConversationStats :=
  let history := getHistory conversationId s in
  {| messageCount := length history;
     userMessages := length (List.filter (has_role user) history);
     aiMessages := length (List.filter (has_role assistant) history) |}.

(** The operation cannot change what is stored for conversation [cid]:
    a store operation on another conversation, attaching the provider, a
    timer, or a webview message other than a clear of [cid]. *)
Definition leaves_conversation (cid : string) (op : ServiceOp) : Prop :=
  match op with
  | OpAdd c _ | OpClear c => c <> cid
  | OpAttach | OpTimer _ => True
  | OpReceive (FwClearHistory c) => or_default c "default" <> cid
  | OpReceive _ => True
  | OpChat _ _ _ | OpStream _ _ _ => False
  end.

(** Two requests in flight. *)
Definition two_pending : State :=
  snd (start_request "req_b" "chat" hi_params
         (snd (start_request "req_a" "chat" hi_params (attached sample_config)))).

Definition reply_to (rid : string) (ok : bool) (payload : string) : PuterAPIResponse :=
  {| requestId := rid; success := ok;
     data := if ok then Some payload else None;
     error := if ok then None else Some payload |}.

(** No request is in flight: no pending entry and no armed timer. *)
Definition idle (s : State) : Prop :=
  pendingRequests s = ∅ /\ timers s = ∅.

(** How the log of a call determines its result: the last attempt decides. *)
Definition decided_by (retries remaining : nat) (lastError : option string)
    (l : list PromiseState) (c : Completion (option string)) : Prop :=
  match last l with
  | Some (Resolved value) => c = Fulfilled value
  | Some (Rejected message) =>
      if non_retryable message then c = Failed message
      else length l = remaining /\
           c = Failed ("Failed after " +:+ pretty retries +:+ " attempts: " +:+ message)
  | Some Pending => exists p, c = Unsettled p
  | None =>
      c = Failed ("Failed after " +:+ pretty retries +:+ " attempts: "
                    +:+ default "undefined" lastError)
  end.

(** The webview leaves the first [n] requests of a call unanswered and
    answers every later one with the given reply. *)
Definition answers_from (env : Env) (n : nat) (ok : bool) (payload : string)
    (m : ToWebview) : list FromWebview :=
  match m with
  | ApiRequest rid _ _ =>
      if bool_decide (rid ∈ map (make_requestId "req_" env) (seq 0 n))
      then [] else replies ok payload m
  | _ => []
  end.

(** ** The webview side of an API request *)

(** What [await puter.ai.chat(prompt, options)] produced. *)
Inductive SdkResponse :=
  | RespString (text : string)
  | RespMessage (content : list string)   (* [.message.content[i].text] *)
  | RespObject (json : string)
      (* any other value that is not null; [json] is [JSON.stringify] of it *)
  | RespNull.

(** How the SDK call of [handleAPIRequest] goes. *)
Inductive SdkChat :=
  | ChatUnavailable                       (* [puter] or [puter.ai] is undefined *)
  | ChatRejects (message : option string) (* an error with this [.message] *)
  | ChatReturns (response : SdkResponse).

Definition unavailable_message : string :=
  "Puter.js AI module not available. Please reload the window.".

Definition auth_required_message : string :=
  String "240"%char (String "159"%char (String "148"%char (String "144"%char
    " Authentication required. Puter should open your browser for authentication. Please:")))
  +:+ nl +:+ "1. Complete the sign-in in your browser"
  +:+ nl +:+ "2. Come back to VSCode and reload the window (Ctrl+R or Cmd+R)"
  +:+ nl +:+ "3. Try sending your message again"
  +:+ nl +:+ nl
  +:+ "If no browser window opened, visit https://puter.com to sign in first.".

Definition rate_limit_message : string :=
  "Rate limit exceeded. Please wait a moment before trying again.".

Definition network_message : string :=
  "Network error. Please check your internet connection.".

(** [response.message && response.message.content] *)
Definition has_message_content (response : SdkResponse) : bool :=
  match response with
  | RespMessage _ => true
  | _ => false
  end.

(** [content[0].text], or the [TypeError] on an empty [content]. *)
Definition first_text (content : list string) : option string + string :=
  match content with
  | text :: _ => inl (Some text)
  | [] => inr undefined_text
  end.

(** The [if] chain that extracts [responseText]; [inr] is the message of a
    [TypeError] raised on the way. *)
Definition response_text (mdl : string) (response : SdkResponse)
    : option string + string :=
  let isClaudeModel := String.prefix "claude-" mdl in
  match response with
  | RespNull => inr null_message
  | _ =>
      if isClaudeModel && has_message_content response then
        match response with
        | RespMessage content => first_text content
        | _ => inl None
        end
      else
        match response with
        | RespString text => inl (Some text)
        | RespMessage content => first_text content
        | RespObject json => inl (Some json)
        | RespNull => inr null_message
        end
  end.

(** The [catch] block: the error text put in the reply. *)
Definition friendly_error (message : option string) : string :=
  match message with
  | Some (String c r) =>
      let m := String c r in
      if includes m "401" then auth_required_message
      else if includes m "429" then rate_limit_message
      else if includes m "network" then network_message
      else m
  | _ => "Unknown error occurred"
  end.

(** The [try] block up to the reply: the text, or the [.message] of the
    error that reaches the [catch]. *)
Definition sdk_outcome (params : ChatParams) (sdk : SdkChat)
    : option string + option string :=
  match sdk with
  | ChatUnavailable => inr (Some unavailable_message)
  | ChatRejects message => inr message
  | ChatReturns response =>
      match response_text (model params) response with
      | inl responseText => inl responseText
      | inr message => inr (Some message)
      end
  end.

(** [handleAPIRequest(requestId, method, params)]: the messages it posts. *)
Definition handleAPIRequest (requestId method : string) (params : ChatParams)
    (sdk : SdkChat) : list FromWebview :=
  match sdk_outcome params sdk with
  | inl responseText =>
      [FwApiResponse {| requestId := requestId; success := true;
                        data := responseText; error := None |}]
  | inr message =>
      [FwApiResponse {| requestId := requestId; success := false;
                        data := None; error := Some (friendly_error message) |}]
  end.

(** The webview's [message] listener, for the messages the service sends. *)
Definition webview_listener (sdk_chat : ChatParams -> SdkChat)
    (sdk_stream : ChatParams -> SdkStream) (m : ToWebview) : list FromWebview :=
  match m with
  | ApiRequest requestId method params =>
      handleAPIRequest requestId method params (sdk_chat params)
  | StreamRequest requestId params => handleStreamRequest requestId (sdk_stream params)
  | _ => []
  end.



(** ** Text helpers of the service *)

(** [s.split(sep)] for a separator of one character: never empty. *)
Fixpoint split_on (sep : ascii) (s : string) : list string :=
  match s with
  | EmptyString => [EmptyString]
  | String c rest =>
      let parts := split_on sep rest in
      if Ascii.eqb c sep then EmptyString :: parts
      else match parts with
           | first :: others => String c first :: others
           | [] => [String c EmptyString]
           end
  end.

(** [parts.join(sep)] *)
Fixpoint join (sep : string) (parts : list string) : string :=
  match parts with
  | [] => EmptyString
  | part :: rest =>
      match rest with
      | [] => part
      | _ => part +:+ sep +:+ join sep rest
      end
  end.

Fixpoint count_char (ch : ascii) (s : string) : nat :=
  match s with
  | EmptyString => 0
  | String c rest => (if Ascii.eqb c ch then 1 else 0) + count_char ch rest
  end.

Definition line_feed : ascii := "010"%char.

Section CodeContext.

(** [String.prototype.trim] of the runtime. *)
Variable trim : string -> string.

(** The filter of [analyzeCodeContext]. *)
Definition is_dependency_line (line : string) : bool :=
  String.prefix "import " (trim line) ||
  String.prefix "from " (trim line) ||
  String.prefix "using " (trim line) ||
  String.prefix "#include" (trim line).

(** [analyzeCodeContext(code, language)] *)
Definition analyzeCodeContext (code language : string) : string :=
  let lines := split_on line_feed code in
  let imports := List.filter is_dependency_line lines in
  let context := "Code Context (" +:+ language +:+ "):" +:+ nl in
  let context :=
    if (0 <? length imports)%nat
    then context +:+ "Dependencies: " +:+ join ", " (take 5 imports) +:+ nl
    else context in
  context +:+ "Lines of code: " +:+ pretty (length lines) +:+ nl.

End CodeContext.

(** What [vscode.workspace.findFiles] gave, as relative paths. *)
Inductive FindFiles :=
  | FilesFound (relativePaths : list string)
  | FindFails (message : string).

Section RelevantFiles.

(** [String.prototype.toLowerCase] of the runtime. *)
Variable toLowerCase : string -> string.

(** The condition under which a file is pushed to [relevantFiles]. *)
Definition is_relevant (query relativePath : string) : bool :=
  includes (toLowerCase relativePath) (toLowerCase query) ||
  existsb (fun word => includes (toLowerCase relativePath) word)
    (split_on " " (toLowerCase query)).

(** [getRelevantFilesContext(query)] *)
Definition getRelevantFilesContext (query : string) (files : FindFiles) : string :=
  match files with
  | FilesFound relativePaths =>
      let relevantFiles := List.filter (is_relevant query) relativePaths in
      if (length relevantFiles =? 0)%nat then "No relevant files found"
      else "Relevant files for " +:+ dq +:+ query +:+ dq +:+ ":" +:+ nl
             +:+ join nl (map (fun f => "- " +:+ f) (take 10 relevantFiles))
  | FindFails message => "Error searching files: " +:+ message
  end.

End RelevantFiles.

(** ** getNonce *)

Definition possible : string :=
  "ABCDEFGHIJKLMNOPQRSTUVWXYZabcdefghijklmnopqrstuvwxyz0123456789".

(** [s.charAt(i)]: the empty string out of range. *)
Definition charAt (s : string) (i : nat) : string :=
  match String.get i s with
  | Some c => String c EmptyString
  | None => EmptyString
  end.

(** [getNonce()]; [draws i] is the value of
    [Math.floor(Math.random() * possible.length)] in iteration [i]. *)
Definition getNonce (draws : nat -> nat) : string :=
  fold_left (fun text i => text +:+ charAt possible (draws i)) (seq 0 32) EmptyString.

Definition is_alphanumeric (c : ascii) : bool :=
  let n := nat_of_ascii c in
  ((48 <=? n) && (n <=? 57) || (65 <=? n) && (n <=? 90) || (97 <=? n) && (n <=? 122))%nat.

Fixpoint all_alphanumeric (s : string) : bool :=
  match s with
  | EmptyString => true
  | String c rest => is_alphanumeric c && all_alphanumeric rest
  end.

(** ** The prompt builders *)

Definition fenced (code language : string) : string :=
  fence +:+ language +:+ nl +:+ code +:+ nl +:+ fence.

Definition explainCode_prompt (code language : string) : string :=
  "Explain the following " +:+ language +:+ " code in detail. Include:" +:+ nl
    +:+ "1. What the code does" +:+ nl
    +:+ "2. How it works" +:+ nl
    +:+ "3. Any potential issues or improvements" +:+ nl
    +:+ nl
    +:+ "Code:" +:+ nl
    +:+ fenced code language.

Definition explainCode (env : Env) (code language : string) (s : State)
    : Completion (option string) * State :=
  chat env (explainCode_prompt code language)
    (Some "You are an expert programmer who explains code clearly and concisely.") s.

Definition generateCode_prompt (description language : string) : string :=
  "Generate " +:+ language +:+ " code for the following requirement:" +:+ nl
    +:+ description +:+ nl
    +:+ nl
    +:+ "Provide only the code without explanations. Make it clean, efficient, and well-structured.".

Definition generateCode (env : Env) (description language : string) (s : State)
    : Completion (option string) * State :=
  chat env (generateCode_prompt description language)
    (Some ("You are an expert " +:+ language
             +:+ " programmer. Generate clean, production-ready code.")) s.

Definition refactorCode_prompt (code language : string) : string :=
  "Refactor the following " +:+ language +:+ " code to improve:" +:+ nl
    +:+ "- Readability" +:+ nl
    +:+ "- Performance" +:+ nl
    +:+ "- Best practices" +:+ nl
    +:+ "- Code structure" +:+ nl
    +:+ nl
    +:+ "Original code:" +:+ nl
    +:+ fenced code language +:+ nl
    +:+ nl
    +:+ "Provide only the refactored code without explanations.".

Definition refactorCode (env : Env) (code language : string) (s : State)
    : Completion (option string) * State :=
  chat env (refactorCode_prompt code language)
    (Some ("You are an expert " +:+ language
             +:+ " programmer specializing in code refactoring.")) s.

Definition addComments_prompt (code language : string) : string :=
  "Add meaningful comments to the following " +:+ language +:+ " code. Include:" +:+ nl
    +:+ "- Function/class descriptions" +:+ nl
    +:+ "- Parameter explanations" +:+ nl
    +:+ "- Complex logic explanations" +:+ nl
    +:+ "- Return value descriptions" +:+ nl
    +:+ nl
    +:+ "Code:" +:+ nl
    +:+ fenced code language +:+ nl
    +:+ nl
    +:+ "Provide the code with comments added.".

Definition addComments (env : Env) (code language : string) (s : State)
    : Completion (option string) * State :=
  chat env (addComments_prompt code language)
    (Some "You are an expert programmer who writes clear, helpful documentation.") s.

Definition fixErrors_prompt (code language : string) : string :=
  "Analyze and fix any errors, bugs, or issues in the following " +:+ language
    +:+ " code:" +:+ nl
    +:+ nl
    +:+ fenced code language +:+ nl
    +:+ nl
    +:+ "Provide the corrected code without explanations.".

Definition fixErrors (env : Env) (code language : string) (s : State)
    : Completion (option string) * State :=
  chat env (fixErrors_prompt code language)
    (Some ("You are an expert debugger and " +:+ language +:+ " programmer.")) s.

Definition generateTests_prompt (code language : string) : string :=
  "Generate comprehensive unit tests for the following " +:+ language +:+ " code:" +:+ nl
    +:+ nl
    +:+ fenced code language +:+ nl
    +:+ nl
    +:+ "Include:" +:+ nl
    +:+ "- Test for normal cases" +:+ nl
    +:+ "- Test for edge cases" +:+ nl
    +:+ "- Test for error handling" +:+ nl
    +:+ "Use appropriate testing framework for " +:+ language +:+ ".".

Definition generateTests (env : Env) (code language : string) (s : State)
    : Completion (option string) * State :=
  chat env (generateTests_prompt code language)
    (Some ("You are an expert in " +:+ language +:+ " and test-driven development.")) s.

(** [generateCodeWithContext(description, language)]; [documentText] is
    [editor.document.getText()] of the active editor. *)
Definition generateCodeWithContext (trim : string -> string) (env : Env)
    (documentText description language : string) (s : State)
    : Completion (option string) * State :=
  let additionalContext :=
    match activeTextEditor env with
    | Some _ =>
        nl +:+ nl +:+ "Existing code context:" +:+ nl
          +:+ analyzeCodeContext trim documentText language
    | None => EmptyString
    end in
  generateCode env (description +:+ additionalContext) language s.

(** The requests posted between two states. *)
Definition posted_between (s s' : State) : list (string * string * ChatParams) :=
  drop (length (api_requests (outbox s))) (api_requests (outbox s')).

(** A request of method 'chat' whose prompt contains [text] verbatim. *)
Definition carries (text : string) (request : string * string * ChatParams) : Prop :=
  request.1.2 = "chat" /\ includes (prompt request.2) text = true.

(** ** The editor commands *)

(** Calls to the editor's user interface, in the order they are made. *)
Inductive UiCall :=
  | ShowErrorMessage (text : string)
  | ShowWarningMessage (text : string)
  | ShowInformationMessage (text : string)
  | WithProgress (title : string)
  | EditReplaceSelection (value : option string)
  | EditInsertAtCursor (value : option string)
  | OpenTextDocument (content : option string) (language : string).

(** The frame shared by the commands that work on the selection:
    no editor, no selection, else the service call under a progress
    notification, with its [try] and [catch]. *)
Definition selection_command
    (title : string)
    (service_call : Env -> string -> string -> State -> Completion (option string) * State)
    (on_success : string -> string -> option string -> list UiCall)
    (env : Env) (selectedText : string) (s : State) : list UiCall * State :=
  match activeTextEditor env with
  | None => ([ShowErrorMessage "No active editor found"], s)
  | Some editor =>
      match selectedText with
      | EmptyString => ([ShowWarningMessage "Please select some code first"], s)
      | _ =>
          let language := languageId editor in
          match service_call env selectedText language s with
          | (Fulfilled result, s') =>
              (WithProgress title :: on_success selectedText language result, s')
          | (Failed message, s') =>
              ([WithProgress title; ShowErrorMessage ("Error: " +:+ message)], s')
          | (Unsettled _, s') => ([WithProgress title], s')
          end
      end
  end.

(** JavaScript string interpolation of a possibly undefined text. *)
Definition interpolate (value : option string) : string := default "undefined" value.

Definition command_explainCode : Env -> string -> State -> list UiCall * State :=
  selection_command "Explaining code..." explainCode
    (fun selectedText language explanation =>
       [OpenTextDocument
          (Some ("# Code Explanation" +:+ nl +:+ nl
                   +:+ "## Original Code (" +:+ language +:+ "):" +:+ nl
                   +:+ fenced selectedText language +:+ nl +:+ nl
                   +:+ "## Explanation:" +:+ nl +:+ interpolate explanation))
          "markdown"]).

Definition command_refactorCode : Env -> string -> State -> list UiCall * State :=
  selection_command "Refactoring code..." refactorCode
    (fun _ _ refactoredCode =>
       [EditReplaceSelection refactoredCode;
        ShowInformationMessage "Code refactored successfully!"]).

Definition command_addComments : Env -> string -> State -> list UiCall * State :=
  selection_command "Adding comments..." addComments
    (fun _ _ commentedCode =>
       [EditReplaceSelection commentedCode;
        ShowInformationMessage "Comments added successfully!"]).

Definition command_fixErrors : Env -> string -> State -> list UiCall * State :=
  selection_command "Fixing errors..." fixErrors
    (fun _ _ fixedCode =>
       [EditReplaceSelection fixedCode;
        ShowInformationMessage "Code fixed successfully!"]).

Definition command_generateTests : Env -> string -> State -> list UiCall * State :=
  selection_command "Generating tests..." generateTests
    (fun _ language tests =>
       [OpenTextDocument tests language;
        ShowInformationMessage "Tests generated successfully!"]).

(** The [puter-ai.generateCode] command; [description] is what the input
    box returned. *)
Definition command_generateCode (env : Env) (description : option string) (s : State)
    : list UiCall * State :=
  match description with
  | Some (String c r) =>
      let description := String c r in
      let language :=
        match activeTextEditor env with
        | Some editor => or_default (Some (languageId editor)) "javascript"
        | None => "javascript"
        end in
      match generateCode env description language s with
      | (Fulfilled code, s') =>
          (WithProgress "Generating code..."
             :: match activeTextEditor env with
                | Some _ => [EditInsertAtCursor code]
                | None => [OpenTextDocument code language]
                end, s')
      | (Failed message, s') =>
          ([WithProgress "Generating code..."; ShowErrorMessage ("Error: " +:+ message)], s')
      | (Unsettled _, s') => ([WithProgress "Generating code..."], s')
      end
  | _ => ([], s)
  end.

(** An editor on a Python file with some text selected. *)
Definition python_editor : Editor :=
  {| fileName := "/work/a.py"; languageId := "python"; selection := Some (0, 0) |}.

Definition editing (behaviour : ToWebview -> list FromWebview) : Env :=
  {| now := now (sample_env behaviour); random36 := random36 (sample_env behaviour);
     webview := behaviour; workspaceFolders := Some ["work"];
     activeTextEditor := Some python_editor |}.

Definition sample_code : string :=
  "import os" +:+ nl +:+ "  from sys import path" +:+ nl +:+ nl +:+ "print(1)".

(** The call posts at most three requests, and each of them is a 'chat'
    request whose prompt contains every one of [texts] verbatim. *)
Definition forwards (call : State -> Completion (option string) * State)
    (texts : list string) (s : State) : Prop :=
  let posted := posted_between s (snd (call s)) in
  length posted <= 3 /\
  Forall (fun request => Forall (fun text => carries text request) texts) posted.

(** What a command on the selection does, given the UI calls it makes
    after a successful service call. *)
Definition command_outcome
    (command : Env -> string -> State -> list UiCall * State)
    (service_call : Env -> string -> string -> State -> Completion (option string) * State)
    (title : string) (success_calls : string -> option string -> list UiCall)
    (env : Env) (selectedText : string) (s : State) : Prop :=
  let '(calls, s') := command env selectedText s in
  match activeTextEditor env with
  | None => calls = [ShowErrorMessage "No active editor found"] /\ s' = s
  | Some editor =>
      if decide (selectedText = EmptyString)
      then calls = [ShowWarningMessage "Please select some code first"] /\ s' = s
      else
        (exists reply,
           service_call env selectedText (languageId editor) s = (Fulfilled reply, s') /\
           calls = WithProgress title :: success_calls (languageId editor) reply) \/
        (exists message,
           service_call env selectedText (languageId editor) s = (Failed message, s') /\
           calls = [WithProgress title; ShowErrorMessage ("Error: " +:+ message)] /\
           ((exists reason, message = "Puter AI Error: " +:+ reason) \/
            (workspaceFolders env = Some [] /\ message = undefined_name /\ s' = s)))
  end.


(** Nothing has been recorded: the store is empty and every
    [historyResponse] sent so far carried the empty history. *)
Definition empty_history_response (m : ToWebview) : Prop :=
  match m with
  | HistoryResponse history => history = []
  | _ => True
  end.

Definition nothing_recorded (s : State) : Prop :=
  conversationHistory s = ∅ /\ Forall empty_history_response (outbox s).

(** The operation is not a call of [addToHistory]. *)
Definition not_an_append (op : ServiceOp) : Prop :=
  match op with
  | OpAdd _ _ => False
  | _ => True
  end.

(** Goals about the parts of the state a step leaves alone. *)
Ltac frame_tac :=
  repeat split; simpl; try reflexivity;
  try (match goal with |- history_shrinks _ _ => intros ?; left; reflexivity end).

(** * Theorems *)

(** ** What each step leaves alone *)

Lemma history_shrinks_refl s : history_shrinks s s.
Proof. intros cid. by left. Qed.

Lemma history_shrinks_trans s1 s2 s3 :
  history_shrinks s1 s2 -> history_shrinks s2 s3 -> history_shrinks s1 s3.
Proof.
  intros H12 H23 cid. destruct (H23 cid) as [-> | ->]; [apply H12 | by right].
Qed.

Lemma history_shrinks_same s s' :
  conversationHistory s' = conversationHistory s -> history_shrinks s s'.
Proof. intros Heq cid. rewrite Heq. by left. Qed.

Lemma bridge_frame_refl s : bridge_frame s s.
Proof. frame_tac. Qed.

Lemma bridge_frame_trans s1 s2 s3 :
  bridge_frame s1 s2 -> bridge_frame s2 s3 -> bridge_frame s1 s3.
Proof.
  intros (Ha & Hb & Hc & Hd & He) (Ha' & Hb' & Hc' & Hd' & He').
  repeat split; try congruence. by eapply history_shrinks_trans.
Qed.

Lemma settle_frame p o s :
  bridge_frame s (settle p o s) /\ slept (settle p o s) = slept s /\
  outbox (settle p o s) = outbox s.
Proof.
  unfold settle. destruct (promises s !! p) as [[]|]; frame_tac.
Qed.

Lemma fire_timer_frame h s :
  bridge_frame s (fire_timer h s) /\ slept (fire_timer h s) = slept s /\
  outbox (fire_timer h s) = outbox s.
Proof.
  unfold fire_timer. destruct (timers s !! h) as [ [ms [rid p] ] | ].
  - destruct (settle_frame p (Rejected timeout_message)
                (with_pending (delete rid) (with_timers (delete h) s)))
      as (Hf & Hs & Ho).
    split; [|by rewrite Hs, Ho].
    eapply bridge_frame_trans; [|exact Hf]. frame_tac.
  - frame_tac.
Qed.

Lemma handleAPIResponse_frame r s :
  bridge_frame s (handleAPIResponse r s) /\
  slept (handleAPIResponse r s) = slept s /\
  outbox (handleAPIResponse r s) = outbox s.
Proof.
  unfold handleAPIResponse. destruct (pendingRequests s !! requestId r) as [e|].
  - unfold entry_resolve, entry_reject.
    destruct (success r).
    + destruct (settle_frame (entry_promise e) (Resolved (data r))
                  (clearTimeout (entry_timeout e) s)) as (Hf & Hs & Ho).
      split; [|by simpl; rewrite Hs, Ho].
      eapply bridge_frame_trans; [|eapply bridge_frame_trans; [exact Hf|]];
        frame_tac.
    + destruct (settle_frame (entry_promise e)
                  (Rejected (or_default (error r) "Unknown error"))
                  (clearTimeout (entry_timeout e) s)) as (Hf & Hs & Ho).
      split; [|by simpl; rewrite Hs, Ho].
      eapply bridge_frame_trans; [|eapply bridge_frame_trans; [exact Hf|]];
        frame_tac.
  - frame_tac.
Qed.

Lemma api_requests_app ms ms' :
  api_requests (ms ++ ms') = api_requests ms ++ api_requests ms'.
Proof. unfold api_requests. apply omap_app. Qed.

Lemma stream_requests_app ms ms' :
  stream_requests (ms ++ ms') = stream_requests ms ++ stream_requests ms'.
Proof. unfold stream_requests. apply omap_app. Qed.

Lemma history_shrinks_clearHistory cid s : history_shrinks s (clearHistory cid s).
Proof.
  intros cid'. unfold clearHistory. simpl.
  destruct (decide (cid = cid')) as [-> | Hne].
  - right. apply lookup_delete_eq.
  - left. by apply lookup_delete_ne.
Qed.

Lemma onDidReceiveMessage_frame m s :
  bridge_frame s (onDidReceiveMessage m s) /\
  slept (onDidReceiveMessage m s) = slept s /\
  api_requests (outbox (onDidReceiveMessage m s)) = api_requests (outbox s).
Proof.
  destruct m; simpl.
  - unfold handleChatMessage. destruct (webviewProvider s) eqn:E; simpl.
    + frame_tac.
      * rewrite <- app_assoc, stream_requests_app. simpl. by rewrite app_nil_r.
      * rewrite <- app_assoc, api_requests_app. simpl. by rewrite app_nil_r.
    + frame_tac.
  - destruct (handleAPIResponse_frame response s) as (Hf & Hs & Ho).
    by rewrite Ho.
  - repeat split; auto using history_shrinks_clearHistory.
  - unfold sendMessage. destruct (webviewProvider s) eqn:E; simpl.
    + frame_tac.
      * rewrite stream_requests_app. simpl. by rewrite app_nil_r.
      * rewrite api_requests_app. simpl. by rewrite app_nil_r.
    + frame_tac.
  - frame_tac.
  - frame_tac.
  - frame_tac.
Qed.

Lemma deliver_frame ms s :
  bridge_frame s (deliver ms s) /\
  slept (deliver ms s) = slept s /\
  api_requests (outbox (deliver ms s)) = api_requests (outbox s).
Proof.
  revert s. induction ms as [|m ms IH]; intros s.
  - frame_tac.
  - change (deliver (m :: ms) s) with (deliver ms (onDidReceiveMessage m s)).
    destruct (IH (onDidReceiveMessage m s)) as (Hf & Hs & Ho).
    destruct (onDidReceiveMessage_frame m s) as (Hf' & Hs' & Ho').
    split; [by eapply bridge_frame_trans|]. split; congruence.
Qed.

Lemma start_request_frame rid method params s :
  let s' := snd (start_request rid method params s) in
  bridge_frame s s' /\ slept s' = slept s /\
  api_requests (outbox s') = api_requests (outbox s) ++ [(rid, method, params)].
Proof.
  simpl. frame_tac.
  - rewrite stream_requests_app. simpl. by rewrite app_nil_r.
  - by rewrite api_requests_app.
Qed.

Lemma run_attempt_frame env method params k s :
  let s' := snd (run_attempt env method params k s) in
  bridge_frame s s' /\ slept s' = slept s /\
  api_requests (outbox s') = api_requests (outbox s) ++ [request_of env method params k].
Proof.
  unfold run_attempt, request_of.
  set (rid := make_requestId "req_" env k).
  destruct (start_request rid method params s) as [[p h] s1] eqn:E.
  pose proof (start_request_frame rid method params s) as Hst.
  rewrite E in Hst. simpl in Hst. destruct Hst as (Hf1 & Hs1 & Ho1).
  set (s2 := deliver (webview env (ApiRequest rid method params)) s1).
  destruct (deliver_frame (webview env (ApiRequest rid method params)) s1)
    as (Hf2 & Hs2 & Ho2). fold s2 in Hf2, Hs2, Ho2.
  destruct (fire_timer_frame h s2) as (Hf3 & Hs3 & Ho3).
  simpl. split; [|split].
  - eapply bridge_frame_trans; [exact Hf1|]. by eapply bridge_frame_trans.
  - congruence.
  - rewrite Ho3. congruence.
Qed.

Lemma sleep_frame ms s :
  bridge_frame s (sleep ms s) /\ slept (sleep ms s) = slept s ++ [ms] /\
  outbox (sleep ms s) = outbox s.
Proof. frame_tac. Qed.

(** ** Conversation store *)

Lemma getHistory_addToHistory cid m s :
  getHistory cid (addToHistory cid m s) =
  let history := getHistory cid s ++ [m] in
  if decide (maxHistoryLength < length history) then tail history else history.
Proof.
  unfold getHistory, addToHistory. simpl. by rewrite lookup_insert_eq.
Qed.

Lemma getHistory_addToHistory_ne cid cid' m s :
  cid <> cid' -> getHistory cid' (addToHistory cid m s) = getHistory cid' s.
Proof.
  intros Hne. unfold getHistory, addToHistory. simpl. by rewrite lookup_insert_ne.
Qed.

Lemma getHistory_clearHistory cid s : getHistory cid (clearHistory cid s) = [].
Proof.
  unfold getHistory, clearHistory. simpl. by rewrite lookup_delete_eq.
Qed.

Lemma clearHistory_unknown cid s :
  conversationHistory s !! cid = None -> clearHistory cid s = s.
Proof.
  intros Hnone. unfold clearHistory, with_history.
  rewrite delete_id by done. by destruct s.
Qed.

Lemma capped_getHistory cid s : capped s -> length (getHistory cid s) <= maxHistoryLength.
Proof.
  intros Hcap. unfold getHistory.
  destruct (conversationHistory s !! cid) as [h|] eqn:E; simpl.
  - by apply (Hcap cid).
  - unfold maxHistoryLength. lia.
Qed.

Lemma capped_new_service cfg : capped (new_service cfg).
Proof. intros cid h. simpl. by rewrite lookup_empty. Qed.

Lemma capped_addToHistory cid m s : capped s -> capped (addToHistory cid m s).
Proof.
  intros Hcap cid' h. unfold addToHistory. simpl.
  destruct (decide (cid = cid')) as [-> | Hne].
  - rewrite lookup_insert_eq. intros [= <-].
    pose proof (capped_getHistory cid' s Hcap) as Hlen. unfold getHistory in Hlen.
    case_decide as Hd.
    + rewrite length_tl, length_app. simpl. lia.
    + lia.
  - rewrite lookup_insert_ne by done. apply Hcap.
Qed.

Lemma capped_clearHistory cid s : capped s -> capped (clearHistory cid s).
Proof.
  intros Hcap cid' h. unfold clearHistory. simpl.
  intros Hl. apply lookup_delete_Some in Hl as [_ Hl]. by apply (Hcap cid').
Qed.

(** Appending to a capped conversation keeps the most recent messages. *)
Lemma getHistory_append_all cid ms s :
  length (getHistory cid s) <= maxHistoryLength ->
  getHistory cid (append_all cid ms s) =
  drop (length (getHistory cid s ++ ms) - maxHistoryLength) (getHistory cid s ++ ms).
Proof.
  revert s. induction ms as [|m ms IH]; intros s Hlen.
  - simpl. rewrite app_nil_r.
    replace (length (getHistory cid s) - maxHistoryLength) with 0 by lia. done.
  - change (append_all cid (m :: ms) s) with (append_all cid ms (addToHistory cid m s)).
    assert (length (getHistory cid (addToHistory cid m s)) <= maxHistoryLength) as Hlen'.
    { rewrite getHistory_addToHistory. cbv zeta.
      case_decide as Hd; [rewrite length_tl|]; rewrite length_app in *; simpl in *; lia. }
    rewrite (IH _ Hlen'). rewrite getHistory_addToHistory. cbv zeta.
    case_decide as Hd.
    + destruct (getHistory cid s) as [|x old] eqn:E.
      { rewrite length_app in Hd. simpl in Hd. unfold maxHistoryLength in Hd. lia. }
      rewrite length_app in Hd. simpl in Hd, Hlen.
      change (tail ((x :: old) ++ [m])) with (old ++ [m]).
      rewrite <- !app_assoc.
      change ((x :: old) ++ m :: ms) with (x :: old ++ [m] ++ ms).
      change (length (x :: old ++ [m] ++ ms)) with (S (length (old ++ [m] ++ ms))).
      replace (S (length (old ++ [m] ++ ms)) - maxHistoryLength)
        with (S (length (old ++ [m] ++ ms) - maxHistoryLength)).
      * reflexivity.
      * rewrite !length_app. simpl. unfold maxHistoryLength in *. lia.
    + by rewrite <- app_assoc.
Qed.

(** ** The retry loop *)

Section Loop.

Variable env : Env.
Variable method : string.
Variable params : ChatParams.
Variable retries : nat.

Lemma attempt_loop_frame remaining lastError log s :
  bridge_frame s (final (attempt_loop env method params retries remaining lastError log s)).
Proof.
  revert lastError log s. induction remaining as [|n IH]; intros lastError log s.
  - apply bridge_frame_refl.
  - cbn [attempt_loop].
    pose proof (run_attempt_frame env method params (retries - S n) s) as Hrun.
    destruct (run_attempt env method params (retries - S n) s) as [[p outcome] s1].
    simpl in Hrun. destruct Hrun as (Hf & _ & _).
    destruct outcome as [|v|msg]; simpl; [done|done|].
    destruct (non_retryable msg); simpl; [done|].
    eapply bridge_frame_trans; [exact Hf|].
    eapply bridge_frame_trans; [|apply IH].
    case_decide; [apply sleep_frame | apply bridge_frame_refl].
Qed.

(** The log only grows, by at most one entry per iteration. *)
Lemma attempt_loop_log remaining lastError log s :
  exists l,
    attempts (attempt_loop env method params retries remaining lastError log s) = log ++ l /\
    length l <= remaining.
Proof.
  revert lastError log s. induction remaining as [|n IH]; intros lastError log s.
  - exists []. simpl. by rewrite app_nil_r.
  - cbn [attempt_loop].
    destruct (run_attempt env method params (retries - S n) s) as [[p outcome] s1].
    destruct outcome as [|v|msg]; simpl.
    + exists [Pending]. simpl. split; [done|lia].
    + exists [Resolved v]. simpl. split; [done|lia].
    + destruct (non_retryable msg); simpl.
      * exists [Rejected msg]. simpl. split; [done|lia].
      * match goal with
        | |- context [attempt_loop _ _ _ _ _ ?e ?l ?st] =>
            destruct (IH e l st) as (l' & Hl' & Hlen)
        end.
        exists (Rejected msg :: l'). rewrite Hl', <- app_assoc. simpl. split; [done|lia].
Qed.

(** When every attempt fails with an error that is retried, the loop runs
    to exhaustion. *)
Lemma attempt_loop_exhausted remaining lastError log s :
  remaining <= retries ->
  let r := attempt_loop env method params retries remaining lastError log s in
  Forall (fun o => retryable_failure o = true) (drop (length log) (attempts r)) ->
  exists l,
    attempts r = log ++ l /\ length l = remaining /\
    api_requests (outbox (final r)) =
      api_requests (outbox s)
        ++ map (request_of env method params) (seq (retries - remaining) remaining) /\
    slept (final r) =
      slept s ++ map backoff (seq (retries - remaining) (remaining - 1)) /\
    completion r =
      Failed ("Failed after " +:+ pretty retries +:+ " attempts: "
                +:+ default "undefined"
                      (match last l with
                       | Some (Rejected m) => Some m
                       | _ => lastError
                       end)).
Proof.
  revert lastError log s. induction remaining as [|n IH]; intros lastError log s Hle r Hall.
  - exists []. subst r. simpl. rewrite !app_nil_r. done.
  - subst r. cbn [attempt_loop] in *.
    pose proof (run_attempt_frame env method params (retries - S n) s) as Hrun.
    destruct (run_attempt env method params (retries - S n) s) as [[p outcome] s1].
    simpl in Hrun. destruct Hrun as (_ & Hslept & Hout).
    destruct outcome as [|v|msg]; simpl in Hall.
    + rewrite drop_app_length in Hall. by inversion Hall.
    + rewrite drop_app_length in Hall. by inversion Hall.
    + destruct (non_retryable msg) eqn:Hnr; simpl in Hall.
      { rewrite drop_app_length in Hall. inversion Hall as [|? ? Hx]; subst.
        simpl in Hx. by rewrite Hnr in Hx. }
      set (s2 := if decide (retries - S n < retries - 1)
                 then sleep (backoff (retries - S n)) s1 else s1) in *.
      destruct (attempt_loop_log n (Some msg) (log ++ [Rejected msg]) s2)
        as (l' & Hl' & _).
      specialize (IH (Some msg) (log ++ [Rejected msg]) s2 ltac:(lia)).
      cbv zeta in IH. rewrite Hl' in IH, Hall.
      rewrite drop_app_length in IH.
      rewrite <- app_assoc, drop_app_length in Hall. simpl in Hall.
      inversion Hall as [|? ? _ Hall']; subst.
      destruct (IH Hall') as (l & Hl & Hlen & Hreq & Hsl & Hc).
      apply app_inv_head in Hl. subst l'.
      exists (Rejected msg :: l). rewrite Hl', <- app_assoc. simpl.
      split; [done|]. split; [by rewrite Hlen|].
      split; [|split].
      * rewrite Hreq. subst s2. 
        replace (outbox (if decide (retries - S n < retries - 1)
                         then sleep (backoff (retries - S n)) s1 else s1))
          with (outbox s1) by (by case_decide).
        rewrite Hout, <- app_assoc. simpl.
        by replace (retries - n) with (S (retries - S n)) by lia.
      * rewrite Hsl. subst s2. destruct n as [|n].
        -- case_decide; [lia|]. simpl. by rewrite Hslept, app_nil_r.
        -- case_decide; [|lia]. simpl. rewrite Hslept, <- app_assoc. simpl.
           replace (n - 0) with n by lia.
           by replace (retries - S n) with (S (retries - S (S n))) by lia.
      * rewrite Hc. do 3 f_equal.
        destruct l as [|o l]; [done|].
        change (last (Rejected msg :: o :: l)) with (last (o :: l)).
        destruct (last (o :: l)) as [x|] eqn:Hlast;
          [|by apply last_None in Hlast].
        assert (retryable_failure x = true) as Hx.
        { rewrite Forall_forall in Hall'. apply Hall'.
          by eapply last_Some_elem_of. }
        by destruct x.
Qed.

(** When an attempt fails with an error that is not retried, it is the
    last one and its error is the result. *)
Lemma attempt_loop_rethrows remaining lastError log s k msg :
  remaining <= retries ->
  let r := attempt_loop env method params retries remaining lastError log s in
  attempts r !! (length log + k) = Some (Rejected msg) ->
  non_retryable msg = true ->
  completion r = Failed msg /\
  length (attempts r) = length log + S k /\
  api_requests (outbox (final r)) =
    api_requests (outbox s)
      ++ map (request_of env method params) (seq (retries - remaining) (S k)) /\
  slept (final r) = slept s ++ map backoff (seq (retries - remaining) k).
Proof.
  revert lastError log s k.
  induction remaining as [|n IH]; intros lastError log s k Hle r Hk Hnr.
  - subst r. simpl in Hk. rewrite lookup_ge_None_2 in Hk by lia. done.
  - subst r. cbn [attempt_loop] in *.
    pose proof (run_attempt_frame env method params (retries - S n) s) as Hrun.
    destruct (run_attempt env method params (retries - S n) s) as [[p outcome] s1].
    simpl in Hrun. destruct Hrun as (_ & Hslept & Hout).
    destruct outcome as [|v|m]; simpl in Hk.
    + rewrite lookup_app_r in Hk by lia.
      replace (length log + k - length log) with k in Hk by lia.
      destruct k; simpl in Hk; done.
    + rewrite lookup_app_r in Hk by lia.
      replace (length log + k - length log) with k in Hk by lia.
      destruct k; simpl in Hk; done.
    + destruct (non_retryable m) eqn:Hm; simpl in *.
      * rewrite lookup_app_r in Hk by lia.
        replace (length log + k - length log) with k in Hk by lia.
        destruct k as [|k]; simpl in Hk; [|done].
        injection Hk as ->. rewrite length_app. simpl.
        rewrite Hout, Hslept, app_nil_r. repeat split; try done; lia.
      * set (s2 := if decide (retries - S n < retries - 1)
                   then sleep (backoff (retries - S n)) s1 else s1) in *.
        destruct (attempt_loop_log n (Some m) (log ++ [Rejected m]) s2)
          as (l' & Hl' & Hlen').
        destruct k as [|k].
        { rewrite Hl', <- app_assoc in Hk. rewrite lookup_app_r in Hk by lia.
          replace (length log + 0 - length log) with 0 in Hk by lia.
          simpl in Hk. injection Hk as ->. congruence. }
        destruct n as [|n].
        { assert (l' = []) as -> by (destruct l'; simpl in *; [done|lia]).
          rewrite Hl', app_nil_r in Hk.
          rewrite lookup_ge_None_2 in Hk; [done|]. rewrite length_app. simpl. lia. }
        specialize (IH (Some m) (log ++ [Rejected m]) s2 k ltac:(lia)).
        cbv zeta in IH. rewrite length_app in IH.
        change (length [Rejected m]) with 1 in IH.
        replace (length log + 1 + k) with (length log + S k) in IH by lia.
        destruct (IH Hk Hnr) as (Hc & Hlen & Hreq & Hsl).
        split; [done|]. split; [lia|]. split.
        -- rewrite Hreq. subst s2. case_decide; [|lia]. simpl.
           rewrite Hout, <- app_assoc. simpl.
           by replace (retries - S n) with (S (retries - S (S n))) by lia.
        -- rewrite Hsl. subst s2. case_decide; [|lia]. simpl.
           rewrite Hslept, <- app_assoc. simpl.
           by replace (retries - S n) with (S (retries - S (S n))) by lia.
Qed.

End Loop.

(** The loop, one iteration unfolded. *)
Lemma attempt_loop_step env method params retries n lastError log s :
  attempt_loop env method params retries (S n) lastError log s =
    let '(p, outcome, s') := run_attempt env method params (retries - S n) s in
    match outcome with
    | Resolved result =>
        {| completion := Fulfilled result;
           attempts := log ++ [Resolved result]; final := s' |}
    | Rejected message =>
        if non_retryable message
        then {| completion := Failed message;
                attempts := log ++ [Rejected message]; final := s' |}
        else
          attempt_loop env method params retries n (Some message)
            (log ++ [Rejected message])
            (if decide (retries - S n < retries - 1)
             then sleep (backoff (retries - S n)) s' else s')
    | Pending =>
        {| completion := Unsettled p; attempts := log ++ [Pending]; final := s' |}
    end.
Proof. reflexivity. Qed.

(** One turn of the loop when every attempt fails with an error that is
    retried: the attempt is rejected, the loop pauses unless the attempt was
    the last one, and goes on. *)
Lemma attempt_loop_retry_step env method params retries n lastError log s :
  let r := attempt_loop env method params retries (S n) lastError log s in
  Forall (fun o => retryable_failure o = true) (drop (length log) (attempts r)) ->
  exists p msg s',
    run_attempt env method params (retries - S n) s = (p, Rejected msg, s') /\
    non_retryable msg = false /\
    r = attempt_loop env method params retries n (Some msg) (log ++ [Rejected msg])
          (if decide (retries - S n < retries - 1)
           then sleep (backoff (retries - S n)) s' else s') /\
    Forall (fun o => retryable_failure o = true)
      (drop (length (log ++ [Rejected msg])) (attempts r)).
Proof.
  intros r Hall. subst r. rewrite attempt_loop_step in *.
  destruct (run_attempt env method params (retries - S n) s) as [[p outcome] s'].
  destruct outcome as [|v|msg]; cbn [attempts] in Hall.
  - rewrite drop_app_length in Hall. by inversion Hall.
  - rewrite drop_app_length in Hall. by inversion Hall.
  - destruct (non_retryable msg) eqn:Hnr; cbn [attempts] in Hall.
    + rewrite drop_app_length in Hall. inversion Hall as [|? ? Hx]; subst.
      simpl in Hx. by rewrite Hnr in Hx.
    + exists p, msg, s'. repeat split; try done.
      match goal with
      | |- context [attempt_loop ?e ?m ?pa ?rt ?k ?le ?lg ?st] =>
          destruct (attempt_loop_log e m pa rt k le lg st) as (l & Hl & _);
          rewrite Hl in *
      end.
      rewrite drop_app_length.
      rewrite <- app_assoc, drop_app_length in Hall. by inversion Hall.
Qed.

(** ** Request ids *)

Lemma pretty_N_go_digits x s :
  all_digits s = true -> all_digits (pretty_N_go x s) = true.
Proof.
  revert s. induction (N.lt_wf_0 x) as [x _ IH]; intros s Hs.
  destruct (decide (x = 0%N)) as [-> | Hx].
  - by rewrite pretty_N_go_0.
  - rewrite pretty_N_go_step by lia. apply IH.
    + apply N.div_lt; lia.
    + simpl. rewrite Hs, andb_true_r.
      unfold pretty_N_char. by repeat case_match.
Qed.

Lemma pretty_N_digits (x : N) : all_digits (pretty x) = true.
Proof.
  unfold pretty, pretty_N. case_decide; [done|]. by apply pretty_N_go_digits.
Qed.

Lemma append_cons c (a b : string) : String c a +:+ b = String c (a +:+ b).
Proof. reflexivity. Qed.

Lemma append_nil (b : string) : EmptyString +:+ b = b.
Proof. reflexivity. Qed.

Lemma digits_then_underscore d1 d2 r1 r2 :
  all_digits d1 = true -> all_digits d2 = true ->
  d1 +:+ "_" +:+ r1 = d2 +:+ "_" +:+ r2 -> d1 = d2 /\ r1 = r2.
Proof.
  revert d2. induction d1 as [|c d1 IH]; intros [|c' d2] H1 H2 Heq;
    rewrite ?append_cons, ?append_nil in Heq; simpl in H1, H2.
  - by injection Heq as ->.
  - injection Heq as <- _. done.
  - injection Heq as -> _. done.
  - injection Heq as -> Heq.
    apply andb_true_iff in H1 as [_ H1]. apply andb_true_iff in H2 as [_ H2].
    destruct (IH d2 H1 H2 Heq) as [-> ->]. done.
Qed.

Lemma append_inv_head (t a b : string) : t +:+ a = t +:+ b -> a = b.
Proof.
  induction t as [|c t IH]; rewrite ?append_cons, ?append_nil; [done|].
  intros [= H]. by apply IH.
Qed.

(** Two generated ids coincide only when the clock reading and the random
    suffix both coincide. *)
Lemma make_requestId_inj tag env i j :
  make_requestId tag env i = make_requestId tag env j ->
  now env i = now env j /\ random36 env i = random36 env j.
Proof.
  unfold make_requestId. intros Heq. apply append_inv_head in Heq.
  apply digits_then_underscore in Heq as [Hn Hr]; auto using pretty_N_digits.
  split; [|done]. by apply (inj pretty).
Qed.

(** ** One attempt *)

(** A reply carrying the id of the attempt settles its promise, disarms the
    timeout and removes the entry. *)
Lemma run_attempt_reply env method params k s response :
  let rid := make_requestId "req_" env k in
  webview env (ApiRequest rid method params) = [FwApiResponse response] ->
  requestId response = rid ->
  let '(p, outcome, s') := run_attempt env method params k s in
  p = next_promise s /\ outcome = reply_outcome response /\
  pendingRequests s' !! rid = None /\
  timers s' !! next_timer s = None /\
  promises s' !! p = Some (reply_outcome response).
Proof.
  intros rid Hweb Hrid. unfold run_attempt. fold rid. rewrite Hweb.
  unfold start_request, new_promise, setTimeout. simpl.
  unfold handleAPIResponse. simpl. rewrite Hrid, lookup_insert_eq.
  unfold reply_outcome, entry_resolve, entry_reject, settle, clearTimeout.
  destruct (success response); simpl; rewrite lookup_insert_eq; simpl;
    unfold fire_timer, promise_state; simpl;
    rewrite !lookup_delete_eq, ?lookup_insert_eq; simpl;
    rewrite ?lookup_insert_eq, ?lookup_delete_eq; done.
Qed.

(** With no reply the timeout elapses: the entry is removed and the promise
    is rejected with the timeout error. *)
Lemma run_attempt_silent env method params k s :
  let rid := make_requestId "req_" env k in
  webview env (ApiRequest rid method params) = [] ->
  let '(p, outcome, s') := run_attempt env method params k s in
  p = next_promise s /\ outcome = Rejected timeout_message /\
  pendingRequests s' !! rid = None /\
  timers s' !! next_timer s = None.
Proof.
  intros rid Hweb. unfold run_attempt. fold rid. rewrite Hweb.
  unfold start_request, new_promise, setTimeout. simpl.
  unfold fire_timer. simpl. rewrite lookup_insert_eq.
  unfold settle, promise_state. simpl. rewrite lookup_insert_eq. simpl.
  rewrite !lookup_insert_eq, !lookup_delete_eq. done.
Qed.

(** ** callPuterAPI and chat *)

Lemma getWorkspaceContext_fails env failure :
  getWorkspaceContext env = inr failure ->
  workspaceFolders env = Some [] /\ failure = undefined_name.
Proof.
  unfold getWorkspaceContext.
  destruct (workspaceFolders env) as [ [|name folders] | ].
  - intros Heq. injection Heq as <-. done.
  - destruct (activeTextEditor env) as [editor|]; [|discriminate].
    destruct (selection editor) as [ [start stop] | ]; discriminate.
  - discriminate.
Qed.

Lemma callPuterAPI_frame env method params retries s :
  bridge_frame s (final (callPuterAPI env method params retries s)).
Proof.
  unfold callPuterAPI. destruct (webviewProvider s).
  - apply attempt_loop_frame.
  - apply bridge_frame_refl.
Qed.

Lemma chat_frame env message systemPrompt s :
  bridge_frame s (snd (chat env message systemPrompt s)).
Proof.
  unfold chat.
  destruct (getWorkspaceContext env) as [context|failure]; [|apply bridge_frame_refl].
  match goal with
  | |- context [callPuterAPI ?e ?m ?p ?n ?st] =>
      pose proof (callPuterAPI_frame e m p n st) as Hf;
      destruct (completion (callPuterAPI e m p n st))
  end; exact Hf.
Qed.

(** ** Claims about the non-streaming call *)

(** C6.  Without an attached webview provider, [callPuterAPI] fails at once
    with the "not initialized" error and leaves the whole state as it was:
    no pending entry, no timer, no posted message.  The same holds for
    [chatWithStreaming] when streaming is enabled.  The error is one the
    retry policy never retries. *)
Theorem C6_not_initialized env method params retries message systemPrompt s :
  webviewProvider s = false ->
  callPuterAPI env method params retries s =
    {| completion := Failed "Webview provider not initialized";
       attempts := []; final := s |} /\
  (cv_enableStreaming (getConfig s) = true ->
   chatWithStreaming env message systemPrompt s =
     (Failed "Webview provider not initialized", s)) /\
  includes "Webview provider not initialized" "not initialized" = true /\
  non_retryable "Webview provider not initialized" = true.
Proof.
  intros Hprov. split; [|split; [|split]].
  - unfold callPuterAPI. by rewrite Hprov.
  - intros Hstream. unfold chatWithStreaming. by rewrite Hstream, Hprov.
  - reflexivity.
  - reflexivity.
Qed.

Lemma C6_not_initialized_witness :
  webviewProvider (new_service sample_config) = false /\
  callPuterAPI (sample_env silent) "chat" hi_params 3 (new_service sample_config) =
    {| completion := Failed "Webview provider not initialized";
       attempts := []; final := new_service sample_config |} /\
  (cv_enableStreaming (getConfig (new_service sample_config)) = true ->
   chatWithStreaming (sample_env silent) "hi" None (new_service sample_config) =
     (Failed "Webview provider not initialized", new_service sample_config)) /\
  includes "Webview provider not initialized" "not initialized" = true /\
  non_retryable "Webview provider not initialized" = true.
Proof.
  assert (webviewProvider (new_service sample_config) = false) as Hnone
    by (vm_compute; reflexivity).
  split; [exact Hnone|].
  exact (C6_not_initialized (sample_env silent) "chat" hi_params 3 "hi" None
           (new_service sample_config) Hnone).
Defined.

(** C2.  When every attempt of a call fails with an error that is retried,
    the call runs attempt 0, pauses 1000 ms, runs attempt 1, pauses 2000 ms,
    runs attempt 2 and stops without a further pause: exactly 3 attempts and
    exactly 3 posted request descriptors, one per attempt and each with the
    id generated at that attempt.  It fails with "Failed after 3 attempts: "
    followed by the message of the last failure.  Ids generated at different
    clock readings or with different random suffixes are different. *)
Theorem C2_retries_exhausted env method params s :
  webviewProvider s = true ->
  let r := callPuterAPI env method params 3 s in
  Forall (fun outcome => retryable_failure outcome = true) (attempts r) ->
  (exists p0 p1 p2 m0 m1 m2 s0 s1 s2,
     run_attempt env method params 0 s = (p0, Rejected m0, s0) /\
     run_attempt env method params 1 (sleep 1000 s0) = (p1, Rejected m1, s1) /\
     run_attempt env method params 2 (sleep 2000 s1) = (p2, Rejected m2, s2) /\
     final r = s2 /\
     attempts r = [Rejected m0; Rejected m1; Rejected m2] /\
     completion r = Failed ("Failed after 3 attempts: " +:+ m2)) /\
  api_requests (outbox (final r)) =
    api_requests (outbox s)
      ++ [(make_requestId "req_" env 0, method, params);
          (make_requestId "req_" env 1, method, params);
          (make_requestId "req_" env 2, method, params)] /\
  slept (final r) = slept s ++ [1000%N; 2000%N] /\
  (forall i j,
     (now env i, random36 env i) <> (now env j, random36 env j) ->
     make_requestId "req_" env i <> make_requestId "req_" env j).
Proof.
  intros Hprov r Hall. subst r. unfold callPuterAPI in *. rewrite Hprov in *.
  destruct (attempt_loop_exhausted env method params 3 3 None [] s ltac:(lia) Hall)
    as (l & _ & _ & Hreq & Hsl & _).
  change (3 - 3) with 0 in Hreq, Hsl.
  split; [|split; [exact Hreq|split; [exact Hsl|]]].
  - clear Hreq Hsl l.
    destruct (attempt_loop_retry_step env method params 3 2 None [] s Hall)
      as (p0 & m0 & s0 & Hrun0 & _ & Hr0 & Hall0).
    rewrite Hr0 in *. clear Hr0.
    change (3 - 3) with 0 in *. change (3 - 1) with 2 in *.
    rewrite decide_True in * by lia. change (backoff 0) with 1000%N in *.
    destruct (attempt_loop_retry_step env method params 3 1 (Some m0) _ _ Hall0)
      as (p1 & m1 & s1 & Hrun1 & _ & Hr1 & Hall1).
    rewrite Hr1 in *. clear Hr1.
    change (3 - 2) with 1 in *. change (3 - 1) with 2 in *.
    rewrite decide_True in * by lia. change (backoff 1) with 2000%N in *.
    destruct (attempt_loop_retry_step env method params 3 0 (Some m1) _ _ Hall1)
      as (p2 & m2 & s2 & Hrun2 & _ & Hr2 & _).
    rewrite Hr2. clear Hr2.
    change (3 - 1) with 2 in *. rewrite decide_False by lia.
    exists p0, p1, p2, m0, m1, m2, s0, s1, s2.
    repeat split; try done.
  - intros i j Hne Heq. apply make_requestId_inj in Heq as [Hn Hr].
    apply Hne. by rewrite Hn, Hr.
Qed.

Lemma C2_retries_exhausted_witness :
  let r := callPuterAPI (sample_env silent) "chat" hi_params 3 (attached sample_config) in
  (webviewProvider (attached sample_config) = true /\
   Forall (fun outcome => retryable_failure outcome = true) (attempts r)) /\
  (exists p0 p1 p2 m0 m1 m2 s0 s1 s2,
     run_attempt (sample_env silent) "chat" hi_params 0 (attached sample_config) =
       (p0, Rejected m0, s0) /\
     run_attempt (sample_env silent) "chat" hi_params 1 (sleep 1000 s0) =
       (p1, Rejected m1, s1) /\
     run_attempt (sample_env silent) "chat" hi_params 2 (sleep 2000 s1) =
       (p2, Rejected m2, s2) /\
     final r = s2 /\
     attempts r = [Rejected m0; Rejected m1; Rejected m2] /\
     completion r = Failed ("Failed after 3 attempts: " +:+ m2)) /\
  api_requests (outbox (final r)) =
    api_requests (outbox (attached sample_config))
      ++ [(make_requestId "req_" (sample_env silent) 0, "chat", hi_params);
          (make_requestId "req_" (sample_env silent) 1, "chat", hi_params);
          (make_requestId "req_" (sample_env silent) 2, "chat", hi_params)] /\
  slept (final r) = slept (attached sample_config) ++ [1000%N; 2000%N] /\
  (forall i j,
     (now (sample_env silent) i, random36 (sample_env silent) i)
       <> (now (sample_env silent) j, random36 (sample_env silent) j) ->
     make_requestId "req_" (sample_env silent) i
       <> make_requestId "req_" (sample_env silent) j).
Proof.
  assert (webviewProvider (attached sample_config) = true) as Hprov
    by (vm_compute; reflexivity).
  assert (Forall (fun outcome => retryable_failure outcome = true)
            (attempts (callPuterAPI (sample_env silent) "chat" hi_params 3
                         (attached sample_config)))) as Hall
    by (vm_compute; repeat constructor).
  split; [split; [exact Hprov | exact Hall]|].
  exact (C2_retries_exhausted (sample_env silent) "chat" hi_params
           (attached sample_config) Hprov Hall).
Defined.

(** C5.  When an attempt fails with an error whose message contains
    "not initialized", "Invalid model" or "Authentication failed", that
    error is the result of the call as it is, the attempt is the last one,
    and no pause follows it.  When it is the first attempt, the call ends in
    the state that attempt leaves: exactly one posted descriptor and no
    pause at all. *)
Theorem C5_non_retryable_rethrown env method params s k msg :
  webviewProvider s = true ->
  let r := callPuterAPI env method params 3 s in
  attempts r !! k = Some (Rejected msg) ->
  non_retryable msg = true ->
  completion r = Failed msg /\
  length (attempts r) = S k /\
  api_requests (outbox (final r)) =
    api_requests (outbox s) ++ map (request_of env method params) (seq 0 (S k)) /\
  slept (final r) = slept s ++ map backoff (seq 0 k) /\
  (k = 0 ->
   (exists p, run_attempt env method params 0 s = (p, Rejected msg, final r)) /\
   api_requests (outbox (final r)) =
     api_requests (outbox s) ++ [(make_requestId "req_" env 0, method, params)] /\
   slept (final r) = slept s).
Proof.
  intros Hprov r Hk Hnr. subst r. unfold callPuterAPI in *. rewrite Hprov in *.
  destruct (attempt_loop_rethrows env method params 3 3 None [] s k msg
              ltac:(lia) Hk Hnr) as (Hc & Hlen & Hreq & Hsl).
  change (3 - 3) with 0 in Hreq, Hsl. change (length [] + S k) with (S k) in Hlen.
  split; [exact Hc|]. split; [exact Hlen|]. split; [exact Hreq|]. split; [exact Hsl|].
  intros ->. split; [|split; [exact Hreq|]].
  - clear Hc Hlen Hreq Hsl. rewrite attempt_loop_step in *. change (3 - 3) with 0 in *.
    destruct (run_attempt env method params 0 s) as [[p outcome] s'].
    destruct outcome as [|v|m]; [by simpl in Hk..|].
    destruct (non_retryable m) eqn:Hm.
    + simpl in Hk. injection Hk as ->. by exists p.
    + match type of Hk with
      | context [attempt_loop ?e ?me ?pa ?rt ?n ?le ?lg ?st] =>
          destruct (attempt_loop_log e me pa rt n le lg st) as (l & Hl & _);
          rewrite Hl in Hk
      end.
      simpl in Hk. injection Hk as ->. congruence.
  - rewrite Hsl. change (map backoff (seq 0 0)) with (@nil N). by rewrite app_nil_r.
Qed.

Lemma C5_non_retryable_rethrown_witness :
  let env := sample_env (replies false "Invalid model: gpt-9") in
  let r := callPuterAPI env "chat" hi_params 3 (attached sample_config) in
  (webviewProvider (attached sample_config) = true /\
   attempts r !! 0 = Some (Rejected "Invalid model: gpt-9") /\
   non_retryable "Invalid model: gpt-9" = true) /\
  completion r = Failed "Invalid model: gpt-9" /\
  length (attempts r) = 1 /\
  api_requests (outbox (final r)) =
    api_requests (outbox (attached sample_config))
      ++ map (request_of env "chat" hi_params) (seq 0 1) /\
  slept (final r) = slept (attached sample_config) ++ map backoff (seq 0 0) /\
  (0 = 0 ->
   (exists p, run_attempt env "chat" hi_params 0 (attached sample_config) =
                (p, Rejected "Invalid model: gpt-9", final r)) /\
   api_requests (outbox (final r)) =
     api_requests (outbox (attached sample_config))
       ++ [(make_requestId "req_" env 0, "chat", hi_params)] /\
   slept (final r) = slept (attached sample_config)).
Proof.
  assert (webviewProvider (attached sample_config) = true) as Hprov
    by (vm_compute; reflexivity).
  assert (attempts (callPuterAPI (sample_env (replies false "Invalid model: gpt-9"))
                      "chat" hi_params 3 (attached sample_config)) !! 0
          = Some (Rejected "Invalid model: gpt-9")) as Hfirst
    by (vm_compute; reflexivity).
  assert (non_retryable "Invalid model: gpt-9" = true) as Hnr
    by (vm_compute; reflexivity).
  split; [split; [exact Hprov | split; [exact Hfirst | exact Hnr]]|].
  exact (C5_non_retryable_rethrown (sample_env (replies false "Invalid model: gpt-9"))
           "chat" hi_params (attached sample_config) 0 "Invalid model: gpt-9"
           Hprov Hfirst Hnr).
Defined.


(** ** The pending-request table *)

Lemma handleAPIResponse_no_entry response s :
  pendingRequests s !! requestId response = None ->
  handleAPIResponse response s = s.
Proof. intros Hnone. unfold handleAPIResponse. by rewrite Hnone. Qed.

Lemma fire_timer_disarmed h s : timers s !! h = None -> fire_timer h s = s.
Proof. intros Hnone. unfold fire_timer. by rewrite Hnone. Qed.

Lemma settle_pending p outcome s :
  promises s !! p = Some Pending ->
  settle p outcome s = with_promises (insert p outcome) s.
Proof. intros Hp. unfold settle. by rewrite Hp. Qed.

Lemma settle_settled p outcome outcome' s :
  promises s !! p = Some outcome -> outcome <> Pending ->
  settle p outcome' s = s.
Proof. intros Hp Hne. unfold settle. rewrite Hp. by destruct outcome. Qed.

Lemma reply_outcome_settled response : reply_outcome response <> Pending.
Proof. unfold reply_outcome. by destruct (success response). Qed.

Lemma handleAPIResponse_entry response e s :
  pendingRequests s !! requestId response = Some e ->
  handleAPIResponse response s =
    with_pending (delete (requestId response))
      (settle (entry_promise e) (reply_outcome response)
         (clearTimeout (entry_timeout e) s)).
Proof.
  intros He. unfold handleAPIResponse, reply_outcome, entry_resolve, entry_reject.
  rewrite He. by destruct (success response).
Qed.

(** C7.  [callPuterAPI("chat", {prompt: "hi", model: "gpt-4o", temperature:
    0.7, max_tokens: 2000})] with a webview that answers the request with
    [{requestId, success: true, data: "Hello!"}] resolves to "Hello!" on the
    first attempt.  The attempt arms a 60000 ms timeout, stores the pending
    entry and leaves its promise pending.  Handling the reply
    ([handleAPIResponse], run on the state the attempt has set up) is what
    disarms that timeout, and only that one, removes the entry and resolves
    the promise: in the state it returns, which is the state of the attempt
    once the webview's message has been dispatched and before any timer
    could elapse, the handle is no longer armed, so the timeout elapsing
    there changes nothing.  That state is the state the call ends in. *)
Theorem C7_hello_scenario env s :
  let rid := make_requestId "req_" env 0 in
  let reply := {| requestId := rid; success := true;
                  data := Some "Hello!"; error := None |} in
  webviewProvider s = true ->
  webview env (ApiRequest rid "chat" hi_params) = [FwApiResponse reply] ->
  let r := callPuterAPI env "chat" hi_params 3 s in
  let started := snd (start_request rid "chat" hi_params s) in
  let correlated := handleAPIResponse reply started in
  completion r = Fulfilled (Some "Hello!") /\
  attempts r = [Resolved (Some "Hello!")] /\
  api_requests (outbox (final r)) =
    api_requests (outbox s) ++ [(rid, "chat", hi_params)] /\
  slept (final r) = slept s /\
  timers started !! next_timer s =
    Some (60000%N, TimeoutCb rid (next_promise s)) /\
  pendingRequests started !! rid =
    Some {| entry_timeout := next_timer s; entry_promise := next_promise s |} /\
  promises started !! next_promise s = Some Pending /\
  timers correlated !! next_timer s = None /\
  timers correlated = delete (next_timer s) (timers started) /\
  pendingRequests correlated !! rid = None /\
  promises correlated !! next_promise s = Some (Resolved (Some "Hello!")) /\
  deliver (webview env (ApiRequest rid "chat" hi_params)) started = correlated /\
  fire_timer (next_timer s) correlated = correlated /\
  final r = correlated /\
  timers (final r) !! next_timer s = None /\
  pendingRequests (final r) !! rid = None.
Proof.
  intros rid reply Hprov Hweb r started correlated.
  assert (pendingRequests started !! rid =
            Some {| entry_timeout := next_timer s; entry_promise := next_promise s |})
    as Hentry by (subst started; simpl; by rewrite lookup_insert_eq).
  assert (timers started !! next_timer s =
            Some (60000%N, TimeoutCb rid (next_promise s)))
    as Htimer by (subst started; simpl; by rewrite lookup_insert_eq).
  assert (promises started !! next_promise s = Some Pending)
    as Hprom by (subst started; simpl; by rewrite lookup_insert_eq).
  assert (correlated =
            with_pending (delete rid)
              (with_promises (insert (next_promise s) (Resolved (Some "Hello!")))
                 (with_timers (delete (next_timer s)) started))) as Hcor.
  { subst correlated. rewrite (handleAPIResponse_entry reply _ started Hentry).
    unfold reply_outcome. cbn [success data reply entry_promise entry_timeout].
    rewrite settle_pending; [reflexivity|]. exact Hprom. }
  assert (timers correlated !! next_timer s = None) as Hcancelled
    by (rewrite Hcor; simpl; by rewrite lookup_delete_eq).
  assert (pendingRequests correlated !! rid = None) as Hgone
    by (rewrite Hcor; simpl; by rewrite lookup_delete_eq).
  assert (promises correlated !! next_promise s = Some (Resolved (Some "Hello!")))
    as Hres by (rewrite Hcor; simpl; by rewrite lookup_insert_eq).
  assert (start_request rid "chat" hi_params s
          = (next_promise s, next_timer s, started)) as Hstart by reflexivity.
  assert (final r = correlated) as Hfinal.
  { subst r. unfold callPuterAPI. rewrite Hprov, attempt_loop_step.
    change (3 - 3) with 0. unfold run_attempt. fold rid. rewrite Hweb.
    rewrite Hstart.
    change (deliver [FwApiResponse reply] started) with correlated.
    rewrite (fire_timer_disarmed _ _ Hcancelled).
    unfold promise_state. rewrite Hres. reflexivity. }
  assert (completion r = Fulfilled (Some "Hello!") /\
          attempts r = [Resolved (Some "Hello!")]) as [Hc Ha].
  { subst r. unfold callPuterAPI. rewrite Hprov, attempt_loop_step.
    change (3 - 3) with 0. unfold run_attempt. fold rid. rewrite Hweb.
    rewrite Hstart.
    change (deliver [FwApiResponse reply] started) with correlated.
    rewrite (fire_timer_disarmed _ _ Hcancelled).
    unfold promise_state. rewrite Hres. split; reflexivity. }
  split; [exact Hc|]. split; [exact Ha|].
  split; [rewrite Hfinal, Hcor; subst started; simpl; by rewrite api_requests_app|].
  split; [rewrite Hfinal, Hcor; reflexivity|].
  split; [exact Htimer|]. split; [exact Hentry|]. split; [exact Hprom|].
  split; [exact Hcancelled|]. split; [by rewrite Hcor|]. split; [exact Hgone|].
  split; [exact Hres|].
  split; [by rewrite Hweb|].
  split; [by apply fire_timer_disarmed|].
  split; [exact Hfinal|].
  split; [by rewrite Hfinal | by rewrite Hfinal].
Qed.

Lemma C7_hello_scenario_witness :
  let env := sample_env (replies true "Hello!") in
  let s := attached sample_config in
  let rid := make_requestId "req_" env 0 in
  let reply := {| requestId := rid; success := true;
                  data := Some "Hello!"; error := None |} in
  let r := callPuterAPI env "chat" hi_params 3 s in
  let started := snd (start_request rid "chat" hi_params s) in
  let correlated := handleAPIResponse reply started in
  (webviewProvider s = true /\
   webview env (ApiRequest rid "chat" hi_params) = [FwApiResponse reply]) /\
  completion r = Fulfilled (Some "Hello!") /\
  attempts r = [Resolved (Some "Hello!")] /\
  api_requests (outbox (final r)) =
    api_requests (outbox s) ++ [(rid, "chat", hi_params)] /\
  slept (final r) = slept s /\
  timers started !! next_timer s =
    Some (60000%N, TimeoutCb rid (next_promise s)) /\
  pendingRequests started !! rid =
    Some {| entry_timeout := next_timer s; entry_promise := next_promise s |} /\
  promises started !! next_promise s = Some Pending /\
  timers correlated !! next_timer s = None /\
  timers correlated = delete (next_timer s) (timers started) /\
  pendingRequests correlated !! rid = None /\
  promises correlated !! next_promise s = Some (Resolved (Some "Hello!")) /\
  deliver (webview env (ApiRequest rid "chat" hi_params)) started = correlated /\
  fire_timer (next_timer s) correlated = correlated /\
  final r = correlated /\
  timers (final r) !! next_timer s = None /\
  pendingRequests (final r) !! rid = None.
Proof.
  assert (webviewProvider (attached sample_config) = true) as Hprov
    by (vm_compute; reflexivity).
  assert (webview (sample_env (replies true "Hello!"))
            (ApiRequest (make_requestId "req_" (sample_env (replies true "Hello!")) 0)
               "chat" hi_params) =
          [FwApiResponse
             {| requestId := make_requestId "req_" (sample_env (replies true "Hello!")) 0;
                success := true; data := Some "Hello!"; error := None |}]) as Hweb
    by (vm_compute; reflexivity).
  split; [split; [exact Hprov | exact Hweb]|].
  exact (C7_hello_scenario (sample_env (replies true "Hello!")) (attached sample_config)
           Hprov Hweb).
Defined.

(** C1.  For a pending request with its armed timeout, the reply and the
    timeout exclude each other.  The reply path clears the timeout, settles
    the promise and then deletes the entry; the timeout path deletes the
    entry and then rejects.  Whichever runs first removes the entry, disarms
    the timer and settles the promise once and for all: afterwards the other
    event, a repeated reply and any further settlement leave the state
    unchanged.  A reply whose id has no pending entry changes nothing. *)
Theorem C1_settle_expire_exclusive s rid e response :
  pendingRequests s !! rid = Some e ->
  timers s !! entry_timeout e = Some (60000%N, TimeoutCb rid (entry_promise e)) ->
  promises s !! entry_promise e = Some Pending ->
  requestId response = rid ->
  let h := entry_timeout e in
  let p := entry_promise e in
  let s1 := handleAPIResponse response s in
  let s2 := fire_timer h s in
  s1 = with_pending (delete rid)
         (settle p (reply_outcome response) (clearTimeout h s)) /\
  s2 = settle p (Rejected timeout_message)
         (with_pending (delete rid) (with_timers (delete h) s)) /\
  (pendingRequests s1 !! rid = None /\
   timers s1 !! h = None /\
   promises s1 !! p = Some (reply_outcome response) /\
   fire_timer h s1 = s1 /\
   (forall again, requestId again = rid -> handleAPIResponse again s1 = s1) /\
   (forall outcome, settle p outcome s1 = s1)) /\
  (pendingRequests s2 !! rid = None /\
   timers s2 !! h = None /\
   promises s2 !! p = Some (Rejected timeout_message) /\
   (forall late, requestId late = rid -> handleAPIResponse late s2 = s2) /\
   fire_timer h s2 = s2 /\
   (forall outcome, settle p outcome s2 = s2)) /\
  (forall s' unmatched,
     pendingRequests s' !! requestId unmatched = None ->
     handleAPIResponse unmatched s' = s').
Proof.
  intros Hentry Htimer Hpromise Hrid h p s1 s2. subst h p.
  set (h := entry_timeout e) in *. set (p := entry_promise e) in *.
  assert (s1 = with_pending (delete rid)
                 (settle p (reply_outcome response) (clearTimeout h s))) as Hs1.
  { subst s1 rid. by apply handleAPIResponse_entry. }
  assert (s2 = settle p (Rejected timeout_message)
                 (with_pending (delete rid) (with_timers (delete h) s))) as Hs2.
  { subst s2. unfold fire_timer. by rewrite Htimer. }
  split; [exact Hs1|]. split; [exact Hs2|].
  rewrite settle_pending in Hs1 by done. rewrite settle_pending in Hs2 by done.
  assert (pendingRequests s1 !! rid = None) as Hp1
    by (rewrite Hs1; simpl; apply lookup_delete_eq).
  assert (timers s1 !! h = None) as Ht1
    by (rewrite Hs1; simpl; apply lookup_delete_eq).
  assert (promises s1 !! p = Some (reply_outcome response)) as Hq1
    by (rewrite Hs1; simpl; apply lookup_insert_eq).
  assert (pendingRequests s2 !! rid = None) as Hp2
    by (rewrite Hs2; simpl; apply lookup_delete_eq).
  assert (timers s2 !! h = None) as Ht2
    by (rewrite Hs2; simpl; apply lookup_delete_eq).
  assert (promises s2 !! p = Some (Rejected timeout_message)) as Hq2
    by (rewrite Hs2; simpl; apply lookup_insert_eq).
  split; [|split].
  - repeat split; try done.
    + by apply fire_timer_disarmed.
    + intros again <-. by apply handleAPIResponse_no_entry.
    + intros outcome. eapply settle_settled; [exact Hq1|].
      apply reply_outcome_settled.
  - repeat split; try done.
    + intros late <-. by apply handleAPIResponse_no_entry.
    + by apply fire_timer_disarmed.
    + intros outcome. eapply settle_settled; [exact Hq2|]. done.
  - intros s' unmatched. apply handleAPIResponse_no_entry.
Qed.

Lemma C1_settle_expire_exclusive_witness :
  let s := one_pending in
  let e := {| entry_timeout := 0; entry_promise := 0 |} in
  let s1 := handleAPIResponse hello_reply s in
  let s2 := fire_timer 0 s in
  (pendingRequests s !! sample_rid = Some e /\
   timers s !! entry_timeout e = Some (60000%N, TimeoutCb sample_rid (entry_promise e)) /\
   promises s !! entry_promise e = Some Pending /\
   requestId hello_reply = sample_rid) /\
  s1 = with_pending (delete sample_rid)
         (settle 0 (reply_outcome hello_reply) (clearTimeout 0 s)) /\
  s2 = settle 0 (Rejected timeout_message)
         (with_pending (delete sample_rid) (with_timers (delete 0) s)) /\
  (pendingRequests s1 !! sample_rid = None /\
   timers s1 !! 0 = None /\
   promises s1 !! 0 = Some (reply_outcome hello_reply) /\
   fire_timer 0 s1 = s1 /\
   (forall again, requestId again = sample_rid -> handleAPIResponse again s1 = s1) /\
   (forall outcome, settle 0 outcome s1 = s1)) /\
  (pendingRequests s2 !! sample_rid = None /\
   timers s2 !! 0 = None /\
   promises s2 !! 0 = Some (Rejected timeout_message) /\
   (forall late, requestId late = sample_rid -> handleAPIResponse late s2 = s2) /\
   fire_timer 0 s2 = s2 /\
   (forall outcome, settle 0 outcome s2 = s2)) /\
  (forall s' unmatched,
     pendingRequests s' !! requestId unmatched = None ->
     handleAPIResponse unmatched s' = s').
Proof.
  assert (pendingRequests one_pending !! sample_rid =
            Some {| entry_timeout := 0; entry_promise := 0 |}) as Hentry
    by (vm_compute; reflexivity).
  assert (timers one_pending !! 0 = Some (60000%N, TimeoutCb sample_rid 0)) as Htimer
    by (vm_compute; reflexivity).
  assert (promises one_pending !! 0 = Some Pending) as Hpromise
    by (vm_compute; reflexivity).
  assert (requestId hello_reply = sample_rid) as Hrid by reflexivity.
  split; [repeat split; assumption|].
  exact (C1_settle_expire_exclusive one_pending sample_rid
           {| entry_timeout := 0; entry_promise := 0 |} hello_reply
           Hentry Htimer Hpromise Hrid).
Defined.

(** ** Streaming *)

(** The webview side keeps the protocol: [handleStreamRequest] posts chunks
    and then exactly one of [streamEnd] and [streamError], whatever the SDK
    does. *)
Lemma stream_chunks_well_formed rid chunks failure :
  well_formed_stream rid (stream_chunks rid chunks failure).
Proof.
  induction chunks as [|chunk rest IH]; simpl.
  - destruct failure as [err|].
    + exists [], (FwStreamError rid err). repeat split; [constructor|].
      right. by exists err.
    + exists [], (FwStreamEnd rid). repeat split; [constructor|]. by left.
  - destruct (sdk_text chunk) as [text|err].
    + destruct IH as (cs & t & -> & Hcs & Ht).
      exists (FwStreamChunk rid text :: cs), t. repeat split; [|done].
      constructor; [by exists text | done].
    + exists [], (FwStreamError rid err). repeat split; [constructor|].
      right. by exists err.
Qed.

Lemma handleStreamRequest_well_formed rid sdk :
  well_formed_stream rid (handleStreamRequest rid sdk).
Proof.
  destruct sdk as [err|chunks failure|response|]; simpl.
  - exists [], (FwStreamError rid err). repeat split; [constructor|].
    right. by exists err.
  - apply stream_chunks_well_formed.
  - destruct (sdk_text response) as [text|err].
    + exists [FwStreamChunk rid text], (FwStreamEnd rid).
      repeat split; [|by left]. constructor; [by exists text | constructor].
    + exists [], (FwStreamError rid err). repeat split; [constructor|].
      right. by exists err.
  - exists [], (FwStreamError rid null_message). repeat split; [constructor|].
    right. by exists null_message.
Qed.

(** The provider's switch ignores stream messages. *)
Lemma onDidReceiveMessage_stream rid m s :
  is_chunk rid m \/ is_terminal rid m -> onDidReceiveMessage m s = s.
Proof. intros [[c ->] | [-> | [err ->]]]; reflexivity. Qed.

Lemma deliver_well_formed_stream rid ms s :
  well_formed_stream rid ms -> deliver ms s = s.
Proof.
  intros (cs & t & -> & Hcs & Ht). unfold deliver. rewrite fold_left_app. simpl.
  assert (fold_left (fun s m => onDidReceiveMessage m s) cs s = s) as ->.
  { induction Hcs as [|c cs Hc _ IH]; simpl; [done|].
    rewrite (onDidReceiveMessage_stream rid c s) by auto. exact IH. }
  apply (onDidReceiveMessage_stream rid). by right.
Qed.

(** With streaming enabled and a webview that follows the protocol, the
    promise returned by [chatWithStreaming] is never settled and [onChunk]
    is never called. *)
Lemma chatWithStreaming_never_settles env message systemPrompt s :
  cv_enableStreaming (getConfig s) = true ->
  webviewProvider s = true ->
  workspaceFolders env <> Some [] ->
  (forall rid params,
     well_formed_stream rid (webview env (StreamRequest rid params))) ->
  let '(result, s') := chatWithStreaming env message systemPrompt s in
  result = Unsettled (next_promise s) /\
  promises s' !! next_promise s = Some Pending /\
  onChunk_calls s' = onChunk_calls s.
Proof.
  intros Hstream Hprov Hfolders Hweb. unfold chatWithStreaming.
  rewrite Hstream, Hprov. simpl.
  destruct (getWorkspaceContext env) as [context|failure] eqn:Hctx;
    [|by apply getWorkspaceContext_fails in Hctx as [Hempty _] ].
  simpl.
  erewrite deliver_well_formed_stream by apply Hweb.
  unfold await_void, promise_state. simpl. rewrite lookup_insert_eq. done.
Qed.


(** C3, at a concrete stream.  The webview answers the stream request with
    two chunks and an end signal, as the protocol requires, but the promise
    returned by [chatWithStreaming] stays pending and no chunk reaches
    [onChunk]: the listener is never subscribed and the provider's switch
    has no case for stream messages. *)
Theorem C3_stream_never_reaches_caller :
  let env := sample_env (streams two_chunks) in
  let rid := make_requestId "stream_" env 0 in
  let run := chatWithStreaming env "hi" None (attached sample_config) in
  handleStreamRequest rid two_chunks =
    [FwStreamChunk rid "Hel"; FwStreamChunk rid "lo"; FwStreamEnd rid] /\
  stream_requests (outbox (snd run)) =
    [(rid, {| prompt := "hi"; model := "gpt-4o"; temperature := Qmake 7 10;
              max_tokens := 2000 |})] /\
  fst run = Unsettled 0 /\
  promises (snd run) !! 0 = Some Pending /\
  onChunk_calls (snd run) = [].
Proof. repeat split; vm_compute; reflexivity. Qed.

(** ** Sequences of operations and the store *)

Lemma chatWithStreaming_history env message systemPrompt s :
  history_shrinks s (snd (chatWithStreaming env message systemPrompt s)).
Proof.
  unfold chatWithStreaming. destruct (negb (cv_enableStreaming (getConfig s))).
  - pose proof (chat_frame env message systemPrompt s) as (_ & _ & _ & _ & Hh).
    destruct (chat env message systemPrompt s) as [[r|e|p] s']; exact Hh.
  - destruct (negb (webviewProvider s)); [apply history_shrinks_refl|].
    destruct (getWorkspaceContext env) as [context|failure];
      [|apply history_shrinks_refl].
    simpl.
    match goal with
    | |- history_shrinks _ (deliver ?ms ?st) =>
        destruct (deliver_frame ms st) as ((_ & _ & _ & _ & Hh) & _)
    end.
    eapply history_shrinks_trans; [|exact Hh]. by apply history_shrinks_same.
Qed.

Lemma capped_shrinks s s' : capped s -> history_shrinks s s' -> capped s'.
Proof.
  intros Hcap Hsh cid h Hl. destruct (Hsh cid) as [Heq | Heq].
  - apply (Hcap cid). by rewrite <- Heq.
  - by rewrite Heq in Hl.
Qed.

(** Every operation other than [addToHistory] leaves each conversation as
    it is or removes it. *)
Lemma service_step_shrinks s op :
  (forall cid m, op <> OpAdd cid m) -> history_shrinks s (service_step s op).
Proof.
  intros Hop. destruct op as [cid m|cid| |m|h|env message sp|env message sp]; simpl.
  - by destruct (Hop cid m).
  - apply history_shrinks_clearHistory.
  - by apply history_shrinks_same.
  - apply onDidReceiveMessage_frame.
  - apply fire_timer_frame.
  - apply chat_frame.
  - apply chatWithStreaming_history.
Qed.

Lemma capped_service_step s op : capped s -> capped (service_step s op).
Proof.
  intros Hcap. destruct op as [cid m|cid| |m|h|env message sp|env message sp];
    try (eapply capped_shrinks; [exact Hcap|]; by apply service_step_shrinks).
  by apply capped_addToHistory.
Qed.

Lemma capped_service_run ops s : capped s -> capped (service_run ops s).
Proof.
  revert s. induction ops as [|op ops IH]; intros s Hcap; [done|].
  apply IH. by apply capped_service_step.
Qed.

(** A conversation nobody wrote to does not exist. *)
Lemma unwritten_service_run cid ops s :
  conversationHistory s !! cid = None ->
  Forall (fun op => ~ writes_to cid op) ops ->
  conversationHistory (service_run ops s) !! cid = None.
Proof.
  revert s. induction ops as [|op ops IH]; intros s Hnone Hops; [done|].
  inversion Hops as [|? ? Hop Hops']; subst. apply IH; [|done].
  destruct op as [cid' m|cid'| |m|h|env message sp|env message sp].
  - simpl. unfold addToHistory. simpl. rewrite lookup_insert_ne; [done|].
    intros ->. apply Hop. by exists m.
  - by destruct (service_step_shrinks s (OpClear cid') ltac:(done) cid) as [-> | ->].
  - by destruct (service_step_shrinks s OpAttach ltac:(done) cid) as [-> | ->].
  - by destruct (service_step_shrinks s (OpReceive m) ltac:(done) cid) as [-> | ->].
  - by destruct (service_step_shrinks s (OpTimer h) ltac:(done) cid) as [-> | ->].
  - by destruct (service_step_shrinks s (OpChat env message sp) ltac:(done) cid)
      as [-> | ->].
  - by destruct (service_step_shrinks s (OpStream env message sp) ltac:(done) cid)
      as [-> | ->].
Qed.

(** C4.  Whatever happened to the service before, appending more than 50
    messages to a conversation leaves exactly the last 50 of them, in the
    order they were appended.  An append to a full conversation drops its
    oldest message and puts the new one last.  No sequence of operations
    makes a stored conversation longer than 50. *)
Theorem C4_history_fifo_cap cfg ops cid ms :
  50 < length ms ->
  let s := service_run ops (new_service cfg) in
  getHistory cid (append_all cid ms s) = drop (length ms - 50) ms /\
  length (getHistory cid (append_all cid ms s)) = 50 /\
  (forall m,
     length (getHistory cid s) = 50 ->
     getHistory cid (addToHistory cid m s) = tail (getHistory cid s) ++ [m]) /\
  (forall ops' cid',
     length (getHistory cid' (service_run ops' (new_service cfg))) <= 50).
Proof.
  intros Hlen s.
  assert (capped s) as Hcap by apply capped_service_run, capped_new_service.
  pose proof (capped_getHistory cid s Hcap) as Hold.
  assert (getHistory cid (append_all cid ms s) = drop (length ms - 50) ms) as Hget.
  { rewrite getHistory_append_all by done. rewrite length_app.
    rewrite drop_app_ge by (unfold maxHistoryLength; lia).
    f_equal. unfold maxHistoryLength. lia. }
  split; [exact Hget|]. split; [|split].
  - rewrite Hget, length_drop. lia.
  - intros m Hfull. rewrite getHistory_addToHistory. cbv zeta.
    rewrite decide_True; [|rewrite length_app; simpl; unfold maxHistoryLength; lia].
    destruct (getHistory cid s); [done|reflexivity].
  - intros ops' cid'. apply capped_getHistory, capped_service_run, capped_new_service.
Qed.

Lemma C4_history_fifo_cap_witness :
  let ms := map sample_message (seq 0 53) in
  let s := service_run [OpAdd "default" (sample_message 99); OpAttach]
             (new_service sample_config) in
  50 < length ms /\
  getHistory "default" (append_all "default" ms s) = drop (length ms - 50) ms /\
  length (getHistory "default" (append_all "default" ms s)) = 50 /\
  (forall m,
     length (getHistory "default" s) = 50 ->
     getHistory "default" (addToHistory "default" m s) =
       tail (getHistory "default" s) ++ [m]) /\
  (forall ops' cid',
     length (getHistory cid' (service_run ops' (new_service sample_config))) <= 50).
Proof.
  assert (50 < length (map sample_message (seq 0 53))) as Hlen
    by (vm_compute; lia).
  split; [exact Hlen|].
  exact (C4_history_fifo_cap sample_config
           [OpAdd "default" (sample_message 99); OpAttach] "default"
           (map sample_message (seq 0 53)) Hlen).
Defined.

(** C9.  After [clearHistory] the conversation reads as empty, whatever it
    held.  Reading a conversation that does not exist gives the empty list,
    and clearing it leaves the service unchanged; this is the case for every
    id no operation has written to. *)
Theorem C9_clear_and_unknown s cid :
  getHistory cid (clearHistory cid s) = [] /\
  (conversationHistory s !! cid = None ->
   getHistory cid s = [] /\ clearHistory cid s = s) /\
  (forall cfg ops,
     Forall (fun op => ~ writes_to cid op) ops ->
     getHistory cid (service_run ops (new_service cfg)) = [] /\
     clearHistory cid (service_run ops (new_service cfg)) =
       service_run ops (new_service cfg)).
Proof.
  split; [apply getHistory_clearHistory|]. split.
  - intros Hnone. split; [|by apply clearHistory_unknown].
    unfold getHistory. by rewrite Hnone.
  - intros cfg ops Hops.
    assert (conversationHistory (service_run ops (new_service cfg)) !! cid = None)
      as Hnone by (apply unwritten_service_run; [apply lookup_empty | done]).
    split; [|by apply clearHistory_unknown].
    unfold getHistory. by rewrite Hnone.
Qed.

Lemma C9_clear_and_unknown_witness :
  let s := addToHistory "default" (sample_message 0) (new_service sample_config) in
  conversationHistory s !! "other" = None /\
  getHistory "other" s = [] /\ clearHistory "other" s = s.
Proof.
  assert (conversationHistory
            (addToHistory "default" (sample_message 0) (new_service sample_config))
            !! "other" = None) as Hnone by (vm_compute; reflexivity).
  split; [exact Hnone|].
  pose proof (C9_clear_and_unknown
                (addToHistory "default" (sample_message 0) (new_service sample_config))
                "other") as Hclaim.
  destruct Hclaim as (_ & Hunknown & _). exact (Hunknown Hnone).
Defined.

(** ** Streaming disabled *)

(** C10.  With [enableStreaming] false, [chatWithStreaming] is the
    non-streaming [chat] followed by one [onChunk] call: it behaves as its
    description says, the one chunk is the result of [chat], a failure of
    [chat] is passed on with no chunk, no stream request is posted, and the
    rest of the state is what [chat] leaves. *)
Theorem C10_streaming_disabled env message systemPrompt s :
  cv_enableStreaming (getConfig s) = false ->
  chatWithStreaming env message systemPrompt s =
    chatWithStreaming_disabled_spec env message systemPrompt s /\
  let '(result, s') := chat env message systemPrompt s in
  let '(finished, s'') := chatWithStreaming env message systemPrompt s in
  onChunk_calls s'' =
    onChunk_calls s ++ match result with Fulfilled response => [response] | _ => [] end /\
  finished =
    match result with
    | Fulfilled _ => Fulfilled tt
    | Failed e => Failed e
    | Unsettled p => Unsettled p
    end /\
  stream_requests (outbox s'') = stream_requests (outbox s) /\
  outbox s'' = outbox s' /\
  pendingRequests s'' = pendingRequests s' /\
  timers s'' = timers s' /\
  promises s'' = promises s' /\
  conversationHistory s'' = conversationHistory s'.
Proof.
  intros Hoff. unfold chatWithStreaming, chatWithStreaming_disabled_spec.
  rewrite Hoff. simpl.
  pose proof (chat_frame env message systemPrompt s) as (_ & _ & Hchunks & Hsr & _).
  destruct (chat env message systemPrompt s) as [[response|e|p] s']; simpl in *.
  - repeat split; try done. by rewrite Hchunks.
  - repeat split; try done. by rewrite Hchunks, app_nil_r.
  - repeat split; try done. by rewrite Hchunks, app_nil_r.
Qed.

Lemma C10_streaming_disabled_witness :
  cv_enableStreaming (getConfig (attached no_streaming_config)) = false /\
  chatWithStreaming (sample_env (replies true "Hello!")) "hi" None
      (attached no_streaming_config) =
    chatWithStreaming_disabled_spec (sample_env (replies true "Hello!")) "hi" None
      (attached no_streaming_config) /\
  fst (chat (sample_env (replies true "Hello!")) "hi" None
         (attached no_streaming_config)) = Fulfilled (Some "Hello!") /\
  fst (chatWithStreaming (sample_env (replies true "Hello!")) "hi" None
         (attached no_streaming_config)) = Fulfilled tt /\
  onChunk_calls
    (snd (chatWithStreaming (sample_env (replies true "Hello!")) "hi" None
            (attached no_streaming_config))) = [Some "Hello!"].
Proof.
  assert (cv_enableStreaming (getConfig (attached no_streaming_config)) = false)
    as Hoff by (vm_compute; reflexivity).
  split; [exact Hoff|].
  split; [|repeat split; vm_compute; reflexivity].
  pose proof (C10_streaming_disabled (sample_env (replies true "Hello!")) "hi" None
                (attached no_streaming_config) Hoff) as Hclaim.
  destruct Hclaim as [Hspec _]. exact Hspec.
Defined.

(** ** agentModifyCode *)

Lemma append_assoc (a b c : string) : (a +:+ b) +:+ c = a +:+ b +:+ c.
Proof. induction a as [|x a IH]; [done|]. rewrite !append_cons. by f_equal. Qed.

(** Any closing brace makes [upto_last_close] succeed. *)
Lemma upto_last_close_app x c :
  is_Some (upto_last_close (x +:+ String "}" c)).
Proof.
  induction x as [|ch x IH].
  - rewrite append_nil. simpl. destruct (upto_last_close c); by eexists.
  - rewrite append_cons. simpl. destruct IH as [b ->]. by eexists.
Qed.

(** The result of [upto_last_close] is a prefix that ends in a closing
    brace. *)
Lemma upto_last_close_Some s block :
  upto_last_close s = Some block ->
  exists b c, block = b +:+ "}" /\ s = block +:+ c.
Proof.
  revert block. induction s as [|ch s IH]; intros block; simpl; [done|].
  destruct (upto_last_close s) as [blk|] eqn:E.
  - intros [= <-]. destruct (IH blk eq_refl) as (b & c & -> & Hs).
    exists (String ch b), c. rewrite !append_cons. split; [done|]. by f_equal.
  - destruct (Ascii.eqb_spec ch "}") as [-> | Hne]; [|done].
    intros [= <-]. exists EmptyString, s. by rewrite append_nil, append_cons, append_nil.
Qed.

Lemma from_first_open_Some s t :
  from_first_open s = Some t ->
  exists a t', s = a +:+ t /\ t = String "{" t'.
Proof.
  revert t. induction s as [|ch s IH]; intros t; simpl; [done|].
  destruct (Ascii.eqb_spec ch "{") as [-> | Hne].
  - intros [= <-]. exists EmptyString, s. by rewrite append_nil.
  - intros Ht. destruct (IH t Ht) as (a & t' & -> & ->).
    exists (String ch a), t'. by rewrite append_cons.
Qed.

Lemma from_first_open_app a r :
  exists a', from_first_open (a +:+ String "{" r) = Some (a' +:+ String "{" r).
Proof.
  induction a as [|ch a IH].
  - exists EmptyString. by rewrite !append_nil.
  - rewrite append_cons. simpl. destruct (Ascii.eqb_spec ch "{") as [-> | Hne].
    + exists (String "{" a). by rewrite append_cons.
    + exact IH.
Qed.

(** The regular expression matches exactly when the text has an opening
    brace followed, anywhere later, by a closing brace. *)
Lemma match_braces_None text :
  match_braces text = None <-> ~ has_brace_block text.
Proof.
  unfold match_braces, has_brace_block. split.
  - intros Hnone (a & b & c & ->).
    destruct (from_first_open_app a (b +:+ "}" +:+ c)) as [a' Ha'].
    change ("{" +:+ b +:+ "}" +:+ c) with (String "{" (b +:+ "}" +:+ c)) in Hnone.
    rewrite Ha' in Hnone. simpl in Hnone.
    change (String "{" (b +:+ "}" +:+ c)) with ("{" +:+ b +:+ String "}" c) in Hnone.
    rewrite <- !append_assoc in Hnone.
    destruct (upto_last_close_app ((a' +:+ "{") +:+ b) c) as [blk Hblk].
    by rewrite Hblk in Hnone.
  - intros Hno. destruct (from_first_open text) as [t|] eqn:Ht; [|done]. simpl.
    destruct (upto_last_close t) as [block|] eqn:Hb; [|done].
    destruct Hno.
    destruct (from_first_open_Some _ _ Ht) as (a & t' & -> & ->).
    destruct (upto_last_close_Some _ _ Hb) as (b & c & -> & Hs).
    destruct b as [|ch b].
    + rewrite append_nil in Hs. by rewrite append_cons in Hs.
    + rewrite !append_cons in Hs. injection Hs as <- Hs.
      exists a, b, c. rewrite Hs. by rewrite append_assoc.
Qed.

(** The matched text starts with an opening brace, ends with a closing
    brace and is part of the reply. *)
Lemma match_braces_Some text block :
  match_braces text = Some block ->
  exists a b c, block = "{" +:+ b +:+ "}" /\ text = a +:+ block +:+ c.
Proof.
  unfold match_braces. destruct (from_first_open text) as [t|] eqn:Ht; [|done].
  simpl. intros Hb.
  destruct (from_first_open_Some _ _ Ht) as (a & t' & -> & ->).
  destruct (upto_last_close_Some _ _ Hb) as (b & c & -> & Hs).
  destruct b as [|ch b].
  - rewrite append_nil in Hs. by rewrite append_cons in Hs.
  - rewrite !append_cons in Hs. injection Hs as <- Hs.
    exists a, b, c. split; [done|]. rewrite append_cons, Hs.
    by rewrite append_cons, append_assoc.
Qed.

(** C8.  Once [chat] has returned a reply text: when the text has no
    opening brace followed by a closing brace, [agentModifyCode] succeeds
    with the original code as [modifiedCode] and "No changes made" as
    [changesSummary]; when it has such a block and [JSON.parse] throws on
    it, [agentModifyCode] fails with "Failed to parse agent response: "
    followed by the exception.  This holds for every behaviour of
    [JSON.parse]. *)
Theorem C8_agent_reply_policies JSON_parse env instruction code language filePath s
    text s' :
  chat env (agent_prompt instruction code language filePath)
       (Some agent_system_prompt) s = (Fulfilled (Some text), s') ->
  (~ has_brace_block text ->
   agentModifyCode JSON_parse env instruction code language filePath s =
     (Fulfilled
        (JObject [("modifiedCode", JString code);
                  ("explanation", JString "Could not parse agent response");
                  ("changesSummary", JString "No changes made")]), s')) /\
  (forall block err,
     match_braces text = Some block ->
     JSON_parse block = inr err ->
     has_brace_block text /\
     agentModifyCode JSON_parse env instruction code language filePath s =
       (Failed ("Failed to parse agent response: " +:+ err), s')).
Proof.
  intros Hchat. unfold agentModifyCode. rewrite Hchat. simpl. split.
  - intros Hno. apply match_braces_None in Hno. by rewrite Hno.
  - intros block err Hblock Herr. split.
    + destruct (decide (match_braces text = None)) as [Hn | Hn]; [congruence|].
      destruct (match_braces_Some _ _ Hblock) as (a & b & c & -> & ->).
      exists a, b, c. by rewrite !append_assoc.
    + by rewrite Hblock, Herr.
Qed.

Lemma C8_agent_reply_policies_witness :
  (chat (sample_env (replies true prose_reply))
        (agent_prompt "rename x to y" "x = 1" "python" "/work/a.py")
        (Some agent_system_prompt) (attached sample_config) =
     (Fulfilled (Some prose_reply), snd (agent_chat prose_reply)) /\
   ~ has_brace_block prose_reply /\
   agentModifyCode parse_flat_object (sample_env (replies true prose_reply))
       "rename x to y" "x = 1" "python" "/work/a.py" (attached sample_config) =
     (Fulfilled
        (JObject [("modifiedCode", JString "x = 1");
                  ("explanation", JString "Could not parse agent response");
                  ("changesSummary", JString "No changes made")]),
      snd (agent_chat prose_reply))) /\
  (chat (sample_env (replies true broken_reply))
        (agent_prompt "rename x to y" "x = 1" "python" "/work/a.py")
        (Some agent_system_prompt) (attached sample_config) =
     (Fulfilled (Some broken_reply), snd (agent_chat broken_reply)) /\
   match_braces broken_reply = Some "{oops}" /\
   parse_flat_object "{oops}" = inr syntax_error /\
   has_brace_block broken_reply /\
   agentModifyCode parse_flat_object (sample_env (replies true broken_reply))
       "rename x to y" "x = 1" "python" "/work/a.py" (attached sample_config) =
     (Failed ("Failed to parse agent response: " +:+ syntax_error),
      snd (agent_chat broken_reply))).
Proof.
  assert (chat (sample_env (replies true prose_reply))
               (agent_prompt "rename x to y" "x = 1" "python" "/work/a.py")
               (Some agent_system_prompt) (attached sample_config)
          = (Fulfilled (Some prose_reply), snd (agent_chat prose_reply))) as Hprose
    by (vm_compute; reflexivity).
  assert (chat (sample_env (replies true broken_reply))
               (agent_prompt "rename x to y" "x = 1" "python" "/work/a.py")
               (Some agent_system_prompt) (attached sample_config)
          = (Fulfilled (Some broken_reply), snd (agent_chat broken_reply))) as Hbroken
    by (vm_compute; reflexivity).
  assert (~ has_brace_block prose_reply) as Hnone
    by (apply match_braces_None; vm_compute; reflexivity).
  assert (match_braces broken_reply = Some "{oops}") as Hsome
    by (vm_compute; reflexivity).
  assert (parse_flat_object "{oops}" = inr syntax_error) as Hparse
    by (vm_compute; reflexivity).
  pose proof (C8_agent_reply_policies parse_flat_object
                (sample_env (replies true prose_reply))
                "rename x to y" "x = 1" "python" "/work/a.py"
                (attached sample_config) prose_reply
                (snd (agent_chat prose_reply)) Hprose) as Hfirst.
  pose proof (C8_agent_reply_policies parse_flat_object
                (sample_env (replies true broken_reply))
                "rename x to y" "x = 1" "python" "/work/a.py"
                (attached sample_config) broken_reply
                (snd (agent_chat broken_reply)) Hbroken) as Hsecond.
  destruct Hfirst as [Hfallback _]. destruct Hsecond as [_ Hthrow].
  destruct (Hthrow _ _ Hsome Hparse) as [Hblock Hfail].
  split.
  - split; [exact Hprose|]. split; [exact Hnone|]. exact (Hfallback Hnone).
  - split; [exact Hbroken|]. split; [exact Hsome|]. split; [exact Hparse|].
    split; [exact Hblock | exact Hfail].
Defined.

(** A reply in the requested format is parsed and returned. *)
Example agent_call_good_reply :
  fst (agent_call good_reply) =
    Fulfilled
      (JObject [("modifiedCode", JString "y = 1");
                ("explanation", JString "renamed x");
                ("changesSummary", JString "1 rename")]).
Proof. vm_compute. reflexivity. Qed.

(** ** The bridge invariant *)

Lemma bridge_inv_new_service cfg : bridge_inv (new_service cfg).
Proof. constructor; simpl; intros; by rewrite ?lookup_empty in *. Qed.

(** The invariant reads only the table, the timers, the promises and the
    two counters. *)
Lemma bridge_inv_ext s s' :
  pendingRequests s' = pendingRequests s -> timers s' = timers s ->
  promises s' = promises s -> next_timer s' = next_timer s ->
  next_promise s' = next_promise s -> bridge_inv s -> bridge_inv s'.
Proof.
  intros Hp Ht Hq Hnt Hnp [H1 H2 H4 H3 H5].
  constructor; rewrite ?Hp, ?Ht, ?Hq, ?Hnt, ?Hnp; assumption.
Qed.

Lemma bridge_shrinks_refl s : bridge_shrinks s s.
Proof. repeat split; auto. Qed.

Lemma bridge_shrinks_ext s s' :
  pendingRequests s' = pendingRequests s -> timers s' = timers s ->
  promises s' = promises s -> bridge_shrinks s s'.
Proof. intros Hp Ht Hq. unfold bridge_shrinks. rewrite Hp, Ht, Hq. auto. Qed.

Lemma bridge_shrinks_trans s1 s2 s3 :
  bridge_shrinks s1 s2 -> bridge_shrinks s2 s3 -> bridge_shrinks s1 s3.
Proof. intros (A & B & C) (A' & B' & C'). repeat split; eauto. Qed.

Lemma bridge_inv_remove_request s rid e outcome :
  bridge_inv s -> pendingRequests s !! rid = Some e -> outcome <> Pending ->
  bridge_inv (remove_request rid e outcome s) /\
  bridge_shrinks s (remove_request rid e outcome s).
Proof.
  intros [H1 H2 H4 H3 H5] He Hout.
  destruct (H1 rid e He) as [Htimer Hprom].
  split.
  - constructor; simpl.
    + intros rid' e' He'. apply lookup_delete_Some in He' as [Hne He'].
      destruct (H1 rid' e' He') as [Ht' Hp'].
      rewrite lookup_delete_ne, lookup_insert_ne; [done| |].
      * intros Heq. apply Hne. symmetry. by apply (H4 rid' rid e' e).
      * intros Heq. rewrite <- Heq in Ht'. rewrite Htimer in Ht'. congruence.
    + intros h ms rid' p' Ht'. apply lookup_delete_Some in Ht' as [Hne Ht'].
      pose proof (H2 h ms rid' p' Ht') as He'.
      rewrite lookup_delete_ne; [done|].
      intros <-. rewrite He in He'. injection He' as ->. by apply Hne.
    + intros rid1 rid2 e1 e2 He1 He2.
      apply lookup_delete_Some in He1 as [_ He1].
      apply lookup_delete_Some in He2 as [_ He2]. by apply H4.
    + intros h Hh. apply lookup_delete_None. right. by apply H3.
    + intros p Hp. rewrite lookup_insert_ne; [by apply H5|].
      intros <-. rewrite H5 in Hprom by done. done.
  - repeat split; simpl.
    + intros rid' e' He'. by apply lookup_delete_Some in He' as [_ He'].
    + intros h t Ht. by apply lookup_delete_Some in Ht as [_ Ht].
    + intros p o Hp Ho. rewrite lookup_insert_ne; [done|].
      intros <-. rewrite Hprom in Hp. congruence.
Qed.

Lemma handleAPIResponse_remove s response e :
  bridge_inv s -> pendingRequests s !! requestId response = Some e ->
  handleAPIResponse response s =
    remove_request (requestId response) e (reply_outcome response) s.
Proof.
  intros Hinv He. rewrite (handleAPIResponse_entry _ e) by done.
  destruct (inv_entry s Hinv _ _ He) as [_ Hprom].
  rewrite settle_pending by done. reflexivity.
Qed.

Lemma fire_timer_remove s h ms rid p :
  bridge_inv s -> timers s !! h = Some (ms, TimeoutCb rid p) ->
  fire_timer h s =
    remove_request rid {| entry_timeout := h; entry_promise := p |}
      (Rejected timeout_message) s.
Proof.
  intros Hinv Ht. unfold fire_timer. rewrite Ht.
  pose proof (inv_timer s Hinv _ _ _ _ Ht) as He.
  destruct (inv_entry s Hinv _ _ He) as [_ Hprom]. simpl in Hprom.
  rewrite settle_pending by done. reflexivity.
Qed.

Lemma bridge_inv_handleAPIResponse response s :
  bridge_inv s ->
  bridge_inv (handleAPIResponse response s) /\
  bridge_shrinks s (handleAPIResponse response s).
Proof.
  intros Hinv. destruct (pendingRequests s !! requestId response) as [e|] eqn:He.
  - rewrite (handleAPIResponse_remove s response e) by done.
    apply bridge_inv_remove_request; auto using reply_outcome_settled.
  - rewrite handleAPIResponse_no_entry by done.
    split; [done | apply bridge_shrinks_refl].
Qed.

Lemma bridge_inv_fire_timer h s :
  bridge_inv s ->
  bridge_inv (fire_timer h s) /\ bridge_shrinks s (fire_timer h s).
Proof.
  intros Hinv. destruct (timers s !! h) as [[ms [rid p]]|] eqn:Ht.
  - rewrite (fire_timer_remove s h ms rid p) by done.
    apply bridge_inv_remove_request; [done| |done].
    by apply (inv_timer s Hinv h ms).
  - rewrite fire_timer_disarmed by done.
    split; [done | apply bridge_shrinks_refl].
Qed.

Lemma bridge_inv_onDidReceiveMessage m s :
  bridge_inv s ->
  bridge_inv (onDidReceiveMessage m s) /\ bridge_shrinks s (onDidReceiveMessage m s).
Proof.
  intros Hinv. destruct m; simpl; try (split; [done | apply bridge_shrinks_refl]).
  - unfold handleChatMessage. destruct (webviewProvider s).
    + split; [by eapply bridge_inv_ext; [..|exact Hinv] | by apply bridge_shrinks_ext].
    + split; [done | apply bridge_shrinks_refl].
  - by apply bridge_inv_handleAPIResponse.
  - split; [by eapply bridge_inv_ext; [..|exact Hinv] | by apply bridge_shrinks_ext].
  - unfold sendMessage. destruct (webviewProvider s).
    + split; [by eapply bridge_inv_ext; [..|exact Hinv] | by apply bridge_shrinks_ext].
    + split; [done | apply bridge_shrinks_refl].
Qed.

Lemma bridge_inv_deliver ms s :
  bridge_inv s -> bridge_inv (deliver ms s) /\ bridge_shrinks s (deliver ms s).
Proof.
  revert s. induction ms as [|m ms IH]; intros s Hinv.
  - split; [done | apply bridge_shrinks_refl].
  - change (deliver (m :: ms) s) with (deliver ms (onDidReceiveMessage m s)).
    destruct (bridge_inv_onDidReceiveMessage m s Hinv) as [Hinv1 Hsh1].
    destruct (IH _ Hinv1) as [Hinv2 Hsh2].
    split; [done | by eapply bridge_shrinks_trans].
Qed.

Lemma bridge_inv_start_request rid method params s :
  bridge_inv s -> pendingRequests s !! rid = None ->
  bridge_inv (snd (start_request rid method params s)).
Proof.
  intros [H1 H2 H4 H3 H5] Hfresh. constructor; simpl.
  - intros rid' e' He'. apply lookup_insert_Some in He' as [[<- <-] | [Hne He']]; simpl.
    + by rewrite !lookup_insert_eq.
    + destruct (H1 rid' e' He') as [Ht' Hp'].
      rewrite !lookup_insert_ne; [done| |].
      * intros Heq. rewrite <- Heq, H5 in Hp'; [done|lia].
      * intros Heq. rewrite <- Heq, H3 in Ht'; [done|lia].
  - intros h ms rid' p' Ht'.
    apply lookup_insert_Some in Ht' as [[<- [= <- <- <-]] | [Hne Ht']].
    + by rewrite lookup_insert_eq.
    + pose proof (H2 h ms rid' p' Ht') as He'.
      rewrite lookup_insert_ne; [done|]. intros <-. congruence.
  - intros rid1 rid2 e1 e2 He1 He2 Heq.
    apply lookup_insert_Some in He1 as [[<- <-] | [Hne1 He1]];
      apply lookup_insert_Some in He2 as [[<- <-] | [Hne2 He2]]; simpl in *.
    + done.
    + destruct (H1 _ _ He2) as [_ Hp]. rewrite <- Heq, H5 in Hp; [done|lia].
    + destruct (H1 _ _ He1) as [_ Hp]. rewrite Heq, H5 in Hp; [done|lia].
    + by apply (H4 rid1 rid2 e1 e2).
  - intros h Hh. rewrite lookup_insert_ne by lia. apply H3. lia.
  - intros p Hp. rewrite lookup_insert_ne by lia. apply H5. lia.
Qed.

Lemma bridge_inv_sleep ms s : bridge_inv s -> bridge_inv (sleep ms s).
Proof.
  intros [H1 H2 H4 H3 H5]. constructor; simpl; auto.
  - intros rid e He. destruct (H1 rid e He) as [Ht Hp]. split; [done|].
    rewrite lookup_insert_ne; [done|]. intros Heq.
    rewrite <- Heq, H5 in Hp; [done|lia].
  - intros h Hh. apply H3. lia.
  - intros p Hp. rewrite lookup_insert_ne by lia. apply H5. lia.
Qed.

(** What one incoming message does to a pending request: the entry stays,
    or it is removed and its promise is settled. *)
Lemma onDidReceiveMessage_entry_fate m s rid e :
  bridge_inv s -> pendingRequests s !! rid = Some e ->
  pendingRequests (onDidReceiveMessage m s) !! rid = Some e \/
  (pendingRequests (onDidReceiveMessage m s) !! rid = None /\
   exists outcome,
     promises (onDidReceiveMessage m s) !! entry_promise e = Some outcome /\
     outcome <> Pending).
Proof.
  intros Hinv He. destruct m; simpl; try by left.
  - unfold handleChatMessage. destruct (webviewProvider s); by left.
  - destruct (pendingRequests s !! requestId response) as [e0|] eqn:E0.
    + rewrite (handleAPIResponse_remove s response e0) by done.
      destruct (decide (requestId response = rid)) as [Heq | Hne].
      * right. rewrite Heq in *. assert (e0 = e) as -> by congruence. simpl.
        split; [apply lookup_delete_eq|].
        exists (reply_outcome response).
        split; [apply lookup_insert_eq | apply reply_outcome_settled].
      * left. simpl. by rewrite lookup_delete_ne.
    + rewrite handleAPIResponse_no_entry by done. by left.
  - unfold sendMessage. destruct (webviewProvider s); by left.
Qed.

Lemma deliver_entry_fate ms s rid e :
  bridge_inv s -> pendingRequests s !! rid = Some e ->
  pendingRequests (deliver ms s) !! rid = Some e \/
  (pendingRequests (deliver ms s) !! rid = None /\
   exists outcome,
     promises (deliver ms s) !! entry_promise e = Some outcome /\ outcome <> Pending).
Proof.
  revert s. induction ms as [|m ms IH]; intros s Hinv He; [by left|].
  change (deliver (m :: ms) s) with (deliver ms (onDidReceiveMessage m s)).
  destruct (bridge_inv_onDidReceiveMessage m s Hinv) as [Hinv1 _].
  destruct (onDidReceiveMessage_entry_fate m s rid e Hinv He)
    as [He1 | (Hnone & outcome & Hp & Hout)].
  - by apply IH.
  - right. destruct (bridge_inv_deliver ms _ Hinv1) as [_ (Hsub & _ & Hkeep)].
    split.
    + destruct (pendingRequests (deliver ms (onDidReceiveMessage m s)) !! rid)
        as [e'|] eqn:E; [|done].
      apply Hsub in E. congruence.
    + exists outcome. split; [by apply Hkeep | done].
Qed.

Lemma start_request_eq rid method params s :
  start_request rid method params s =
    (next_promise s, next_timer s, snd (start_request rid method params s)).
Proof. reflexivity. Qed.

(** Without an id collision an attempt always settles: its promise is
    resolved or rejected, never left pending, and its entry is gone. *)
Lemma run_attempt_settles env method params k s :
  bridge_inv s ->
  pendingRequests s !! make_requestId "req_" env k = None ->
  let '(p, outcome, s') := run_attempt env method params k s in
  outcome <> Pending /\ bridge_inv s' /\
  (forall rid e, pendingRequests s' !! rid = Some e -> pendingRequests s !! rid = Some e).
Proof.
  intros Hinv Hfresh. unfold run_attempt.
  set (rid := make_requestId "req_" env k) in *.
  pose proof (bridge_inv_start_request rid method params s Hinv Hfresh) as Hinv1.
  rewrite start_request_eq.
  set (s1 := snd (start_request rid method params s)) in *.
  set (ms := webview env (ApiRequest rid method params)).
  set (e := {| entry_timeout := next_timer s; entry_promise := next_promise s |}).
  assert (pendingRequests s1 !! rid = Some e) as He1
    by (subst s1; simpl; apply lookup_insert_eq).
  assert (timers s1 !! next_timer s = Some (60000%N, TimeoutCb rid (next_promise s)))
    as Ht1 by (subst s1; simpl; apply lookup_insert_eq).
  assert (forall rid', rid' <> rid ->
            pendingRequests s1 !! rid' = pendingRequests s !! rid') as Hother
    by (intros rid' Hne; subst s1; simpl; by rewrite lookup_insert_ne).
  clearbody s1.
  destruct (bridge_inv_deliver ms s1 Hinv1) as [Hinv2 (Hsub2 & Htim2 & _)].
  destruct (bridge_inv_fire_timer (next_timer s) (deliver ms s1) Hinv2)
    as [Hinv3 (Hsub3 & _ & _)].
  assert (promise_state (next_promise s) (fire_timer (next_timer s) (deliver ms s1))
            <> Pending /\
          pendingRequests (fire_timer (next_timer s) (deliver ms s1)) !! rid = None)
    as [Hsettled Hgone].
  { destruct (deliver_entry_fate ms s1 rid e Hinv1 He1)
      as [He2 | (Hnone & outcome & Hp & Hout)].
    - destruct (inv_entry _ Hinv2 _ _ He2) as [Ht2 _]. simpl in Ht2.
      rewrite (fire_timer_remove _ _ _ _ _ Hinv2 Ht2).
      unfold promise_state. simpl. rewrite lookup_insert_eq, lookup_delete_eq. done.
    - assert (timers (deliver ms s1) !! next_timer s = None) as Hoff.
      { destruct (timers (deliver ms s1) !! next_timer s) as [t|] eqn:Et; [|done].
        pose proof (Htim2 _ _ Et) as Et1. rewrite Ht1 in Et1. injection Et1 as <-.
        apply (inv_timer _ Hinv2) in Et. congruence. }
      rewrite fire_timer_disarmed by done.
      unfold promise_state. simpl in Hp. rewrite Hp. done. }
  split; [exact Hsettled|]. split; [exact Hinv3|].
  intros rid' e' He'. destruct (decide (rid' = rid)) as [-> | Hne].
  { rewrite Hgone in He'. discriminate He'. }
  apply Hsub3, Hsub2 in He'. by rewrite Hother in He'.
Qed.

Lemma attempt_loop_settles env method params retries remaining lastError log s :
  remaining <= retries ->
  bridge_inv s ->
  (forall k, retries - remaining <= k < retries ->
             pendingRequests s !! make_requestId "req_" env k = None) ->
  let r := attempt_loop env method params retries remaining lastError log s in
  bridge_inv (final r) /\
  (forall p, completion r <> Unsettled p) /\
  (forall rid e, pendingRequests (final r) !! rid = Some e ->
                 pendingRequests s !! rid = Some e).
Proof.
  revert lastError log s.
  induction remaining as [|n IH]; intros lastError log s Hle Hinv Hfresh r; subst r.
  - simpl. auto.
  - cbn [attempt_loop].
    pose proof (run_attempt_settles env method params (retries - S n) s Hinv
                  ltac:(apply Hfresh; lia)) as Hrun.
    destruct (run_attempt env method params (retries - S n) s) as [[p outcome] s1].
    destruct Hrun as (Hout & Hinv1 & Hsub1).
    destruct outcome as [|v|msg]; [done|simpl; auto|].
    destruct (non_retryable msg); [simpl; auto|].
    set (s2 := if decide (retries - S n < retries - 1)
               then sleep (backoff (retries - S n)) s1 else s1).
    assert (bridge_inv s2) as Hinv2
      by (subst s2; case_decide; [by apply bridge_inv_sleep | done]).
    assert (pendingRequests s2 = pendingRequests s1) as Hsame
      by (subst s2; by case_decide).
    destruct (IH (Some msg) (log ++ [Rejected msg]) s2 ltac:(lia) Hinv2)
      as (Hinv3 & Hc & Hsub3).
    { intros k Hk. rewrite Hsame.
      destruct (pendingRequests s1 !! make_requestId "req_" env k) as [e|] eqn:E; [|done].
      apply Hsub1 in E. rewrite Hfresh in E; [done|lia]. }
    split; [exact Hinv3|]. split; [exact Hc|].
    intros rid e He. apply Hsub1. rewrite <- Hsame. by apply Hsub3.
Qed.

(** From a state without id collisions, [callPuterAPI] never leaves its
    caller waiting forever, and it keeps the invariant. *)
Lemma callPuterAPI_settles env method params s :
  bridge_inv s ->
  (forall k, k < 3 -> pendingRequests s !! make_requestId "req_" env k = None) ->
  let r := callPuterAPI env method params 3 s in
  bridge_inv (final r) /\
  ((exists value, completion r = Fulfilled value) \/
   (exists message, completion r = Failed message)).
Proof.
  intros Hinv Hfresh r. subst r. unfold callPuterAPI.
  destruct (webviewProvider s).
  - destruct (attempt_loop_settles env method params 3 3 None [] s ltac:(lia) Hinv)
      as (Hinv' & Hc & _).
    { intros k Hk. apply Hfresh. lia. }
    split; [done|].
    destruct (completion (attempt_loop env method params 3 3 None [] s)) as [v|m|p].
    + left. eauto.
    + right. eauto.
    + by destruct (Hc p).
  - split; [done|]. right. simpl. eauto.
Qed.

Lemma bridge_inv_chat env message systemPrompt s :
  bridge_inv s ->
  (forall k, k < 3 -> pendingRequests s !! make_requestId "req_" env k = None) ->
  bridge_inv (snd (chat env message systemPrompt s)).
Proof.
  intros Hinv Hfresh. unfold chat.
  destruct (getWorkspaceContext env) as [context|failure]; [|done].
  match goal with
  | |- context [callPuterAPI ?e ?m ?p 3 ?st] =>
      pose proof (callPuterAPI_settles e m p st Hinv Hfresh) as Hs;
      destruct (completion (callPuterAPI e m p 3 st))
  end; simpl in *; by destruct Hs as [? _].
Qed.

Lemma bridge_inv_chatWithStreaming env message systemPrompt s :
  bridge_inv s ->
  (forall k, k < 3 -> pendingRequests s !! make_requestId "req_" env k = None) ->
  bridge_inv (snd (chatWithStreaming env message systemPrompt s)).
Proof.
  intros Hinv Hfresh. unfold chatWithStreaming.
  destruct (negb (cv_enableStreaming (getConfig s))).
  - pose proof (bridge_inv_chat env message systemPrompt s Hinv Hfresh) as Hc.
    destruct (chat env message systemPrompt s) as [[r|e|p] s']; simpl in *; [|done..].
    by eapply bridge_inv_ext; [..|exact Hc].
  - destruct (negb (webviewProvider s)); [done|].
    destruct (getWorkspaceContext env) as [context|failure]; [|done]. simpl.
    apply bridge_inv_deliver.
    destruct Hinv as [H1 H2 H3 H4 H5]. constructor; simpl; auto.
    + intros rid e He. destruct (H1 rid e He) as [Ht Hp]. split; [done|].
      rewrite lookup_insert_ne; [done|]. intros Heq.
      rewrite <- Heq, H5 in Hp; [done|lia].
    + intros p Hp. rewrite lookup_insert_ne by lia. apply H5. lia.
Qed.

(** The invariant holds in every state reached without an id collision. *)
Lemma bridge_inv_service_run ops s :
  bridge_inv s -> collision_free ops s -> bridge_inv (service_run ops s).
Proof.
  revert s. induction ops as [|op ops IH]; intros s Hinv Hfree; [done|].
  destruct Hfree as [Hop Hfree]. apply IH; [|done].
  destruct op as [cid m|cid| |m|h|env message sp|env message sp]; simpl in *.
  - by eapply bridge_inv_ext; [..|exact Hinv].
  - by eapply bridge_inv_ext; [..|exact Hinv].
  - by eapply bridge_inv_ext; [..|exact Hinv].
  - by apply bridge_inv_onDidReceiveMessage.
  - by apply bridge_inv_fire_timer.
  - by apply bridge_inv_chat.
  - by apply bridge_inv_chatWithStreaming.
Qed.

(** With several requests in flight every pending entry still has its own
    armed 60 second timeout and a pending promise, the situation the
    exclusion of reply and timeout is stated for: here two requests are
    started one after the other and a reply is handled. *)
Lemma in_flight_entry_is_armed s rid1 rid2 method params response rid e :
  bridge_inv s ->
  pendingRequests s !! rid1 = None -> pendingRequests s !! rid2 = None ->
  rid1 <> rid2 ->
  let s1 := snd (start_request rid1 method params s) in
  let s2 := snd (start_request rid2 method params s1) in
  let s3 := handleAPIResponse response s2 in
  pendingRequests s2 !! rid1 =
    Some {| entry_timeout := next_timer s; entry_promise := next_promise s |} /\
  pendingRequests s2 !! rid2 =
    Some {| entry_timeout := S (next_timer s); entry_promise := S (next_promise s) |} /\
  (pendingRequests s3 !! rid = Some e ->
   timers s3 !! entry_timeout e = Some (60000%N, TimeoutCb rid (entry_promise e)) /\
   promises s3 !! entry_promise e = Some Pending).
Proof.
  intros Hinv H1 H2 Hne s1 s2 s3.
  assert (bridge_inv s1) as Hinv1 by (by apply bridge_inv_start_request).
  assert (pendingRequests s1 !! rid2 = None) as H2'
    by (subst s1; simpl; by rewrite lookup_insert_ne).
  assert (bridge_inv s2) as Hinv2 by (by apply bridge_inv_start_request).
  split; [subst s2 s1; simpl; by rewrite lookup_insert_ne, lookup_insert_eq|].
  split; [subst s2 s1; simpl; by rewrite lookup_insert_eq|].
  intros He.
  destruct (bridge_inv_handleAPIResponse response s2 Hinv2) as [Hinv3 _].
  exact (inv_entry _ Hinv3 rid e He).
Qed.

(** ** Scenarios stated on the webview's behaviour *)

(** A webview that never answers makes every attempt time out. *)
Lemma attempt_loop_silent env method params retries remaining lastError log s :
  (forall request, webview env request = []) ->
  attempts (attempt_loop env method params retries remaining lastError log s) =
    log ++ replicate remaining (Rejected timeout_message).
Proof.
  intros Hsilent. revert lastError log s.
  induction remaining as [|n IH]; intros lastError log s.
  - simpl. by rewrite app_nil_r.
  - cbn [attempt_loop].
    pose proof (run_attempt_silent env method params (retries - S n) s
                  (Hsilent _)) as Hrun.
    destruct (run_attempt env method params (retries - S n) s) as [[p outcome] s1].
    destruct Hrun as (_ & -> & _).
    change (non_retryable timeout_message) with false. cbv iota.
    rewrite IH, <- app_assoc. reflexivity.
Qed.

Lemma callPuterAPI_three_timeouts env method params s :
  webviewProvider s = true ->
  (forall request, webview env request = []) ->
  let r := callPuterAPI env method params 3 s in
  attempts r = replicate 3 (Rejected timeout_message) /\
  completion r = Failed ("Failed after 3 attempts: " +:+ timeout_message) /\
  slept (final r) = slept s ++ [1000%N; 2000%N] /\
  api_requests (outbox (final r)) =
    api_requests (outbox s) ++ map (request_of env method params) (seq 0 3).
Proof.
  intros Hprov Hsilent r. subst r. unfold callPuterAPI. rewrite Hprov.
  pose proof (attempt_loop_silent env method params 3 3 None [] s Hsilent) as Hlog.
  rewrite app_nil_l in Hlog.
  destruct (attempt_loop_exhausted env method params 3 3 None [] s ltac:(lia))
    as (l & Hl & Hlen & Hreq & Hsl & Hc).
  { rewrite Hlog. repeat constructor. }
  rewrite app_nil_l in Hl. rewrite Hlog in Hl. subst l.
  split; [exact Hlog|]. split; [exact Hc|]. split; [exact Hsl | exact Hreq].
Qed.

(** A failure reported by the webview on the first attempt is the first
    entry of the log. *)
Lemma callPuterAPI_first_failure env method params s err :
  webviewProvider s = true ->
  webview env (ApiRequest (make_requestId "req_" env 0) method params) =
    [FwApiResponse {| requestId := make_requestId "req_" env 0; success := false;
                      data := None; error := Some err |}] ->
  attempts (callPuterAPI env method params 3 s) !! 0 =
    Some (Rejected (or_default (Some err) "Unknown error")).
Proof.
  intros Hprov Hweb. unfold callPuterAPI. rewrite Hprov.
  rewrite attempt_loop_step. change (3 - 3) with 0.
  pose proof (run_attempt_reply env method params 0 s _ Hweb eq_refl) as Hrun.
  destruct (run_attempt env method params 0 s) as [[p outcome] s1].
  destruct Hrun as (_ & -> & _). unfold reply_outcome. cbn [success error].
  destruct (non_retryable (or_default (Some err) "Unknown error")); [reflexivity|].
  match goal with
  | |- attempts (attempt_loop ?e ?m ?pa ?n ?k ?le ?lg ?st) !! 0 = _ =>
      destruct (attempt_loop_log e m pa n k le lg st) as (l & -> & _)
  end.
  reflexivity.
Qed.

(** * Further properties of the code *)

(** ** The conversation store and its statistics *)

Lemma filter_roles_length (history : list ChatMessage) :
  length history =
    length (List.filter (has_role user) history)
    + length (List.filter (has_role assistant) history)
    + length (List.filter (has_role system) history).
Proof.
  induction history as [|m history IH]; [done|].
  cbn [List.filter].
  assert (has_role user m = match role m with user => true | _ => false end)
    as -> by (unfold has_role; by destruct (role m)).
  assert (has_role assistant m = match role m with assistant => true | _ => false end)
    as -> by (unfold has_role; by destruct (role m)).
  assert (has_role system m = match role m with system => true | _ => false end)
    as -> by (unfold has_role; by destruct (role m)).
  destruct (role m); cbn [length]; lia.
Qed.

(** In every state the service can reach, the statistics of a conversation
    add up: the count is the number of user, assistant and system messages,
    so user and assistant messages together never exceed it, and it never
    exceeds 50.  A conversation nobody wrote to has all counts 0. *)
Theorem stats_add_up cfg ops cid :
  let s := service_run ops (new_service cfg) in
  let stats := getConversationStats cid s in
  messageCount stats =
    userMessages stats + aiMessages stats
    + length (List.filter (has_role system) (getHistory cid s)) /\
  userMessages stats + aiMessages stats <= messageCount stats /\
  messageCount stats <= 50 /\
  (Forall (fun op => ~ writes_to cid op) ops ->
   stats = {| messageCount := 0; userMessages := 0; aiMessages := 0 |}).
Proof.
  intros s stats. subst stats. unfold getConversationStats. cbn [messageCount userMessages aiMessages].
  pose proof (filter_roles_length (getHistory cid s)) as Hsum.
  split; [exact Hsum|]. split; [lia|]. split.
  - apply capped_getHistory. subst s. apply capped_service_run, capped_new_service.
  - intros Hops. unfold getHistory. subst s.
    rewrite unwritten_service_run; [done| apply lookup_empty | done].
Qed.

Lemma stats_add_up_witness :
  Forall (fun op => ~ writes_to "other" op) [OpAdd "default" (sample_message 0)] /\
  getConversationStats "other"
    (service_run [OpAdd "default" (sample_message 0)] (new_service sample_config)) =
    {| messageCount := 0; userMessages := 0; aiMessages := 0 |}.
Proof.
  assert (Forall (fun op => ~ writes_to "other" op) [OpAdd "default" (sample_message 0)])
    as Hops.
  { repeat constructor. intros [m Hm]. discriminate Hm. }
  split; [exact Hops|].
  pose proof (stats_add_up sample_config [OpAdd "default" (sample_message 0)] "other")
    as Hclaim.
  destruct Hclaim as (_ & _ & _ & Hzero). exact (Hzero Hops).
Defined.

(** Below the cap an append adds one to the count and to the counter of the
    message's role; at the cap the count stays 50. *)
Theorem stats_after_add cid m s :
  let before := getConversationStats cid s in
  let after := getConversationStats cid (addToHistory cid m s) in
  (messageCount before < 50 ->
   messageCount after = S (messageCount before) /\
   userMessages after = userMessages before + (if has_role user m then 1 else 0) /\
   aiMessages after = aiMessages before + (if has_role assistant m then 1 else 0)) /\
  (messageCount before = 50 -> messageCount after = 50).
Proof.
  intros before after. subst before after. unfold getConversationStats.
  cbn [messageCount userMessages aiMessages].
  rewrite getHistory_addToHistory. cbv zeta. split.
  - intros Hlt. rewrite decide_False by (rewrite length_app; simpl; unfold maxHistoryLength; lia).
    rewrite !List.filter_app, !length_app. cbn [List.filter].
    split; [simpl; lia|]. split.
    + by destruct (has_role user m).
    + by destruct (has_role assistant m).
  - intros Hfull.
    rewrite decide_True by (rewrite length_app; simpl; unfold maxHistoryLength; lia).
    rewrite length_tl, length_app. simpl. lia.
Qed.

Lemma stats_after_add_witness :
  let before := getConversationStats "default" (new_service sample_config) in
  let after :=
    getConversationStats "default"
      (addToHistory "default" (sample_message 0) (new_service sample_config)) in
  messageCount before < 50 /\
  messageCount after = S (messageCount before) /\
  userMessages after = userMessages before + 1.
Proof.
  assert (messageCount (getConversationStats "default" (new_service sample_config)) < 50)
    as Hlt by (vm_compute; lia).
  split; [exact Hlt|].
  pose proof (stats_after_add "default" (sample_message 0) (new_service sample_config))
    as Hclaim.
  destruct Hclaim as [Hbelow _]. destruct (Hbelow Hlt) as (Hcount & Huser & _).
  split; [exact Hcount | exact Huser].
Defined.

(** In every reachable state, appending any number of messages leaves the
    last 50 of the old history followed by the new messages. *)
Theorem history_after_appends cfg ops cid ms :
  let s := service_run ops (new_service cfg) in
  let all := getHistory cid s ++ ms in
  getHistory cid (append_all cid ms s) = drop (length all - 50) all /\
  (length all <= 50 -> getHistory cid (append_all cid ms s) = all).
Proof.
  intros s all. subst all.
  assert (getHistory cid (append_all cid ms s)
          = drop (length (getHistory cid s ++ ms) - 50) (getHistory cid s ++ ms)) as Hget.
  { apply getHistory_append_all, capped_getHistory.
    subst s. apply capped_service_run, capped_new_service. }
  split; [exact Hget|]. intros Hle. rewrite Hget.
  by replace (length (getHistory cid s ++ ms) - 50) with 0 by lia.
Qed.

(** Operations on other conversations, and events that are not a clear of
    this conversation, leave its history as it is. *)
Theorem history_untouched_by_others cid ops s :
  Forall (leaves_conversation cid) ops ->
  getHistory cid (service_run ops s) = getHistory cid s.
Proof.
  revert s. induction ops as [|op ops IH]; intros s Hops; [done|].
  inversion Hops as [|? ? Hop Hops']; subst.
  change (service_run (op :: ops) s) with (service_run ops (service_step s op)).
  rewrite IH by done.
  destruct op as [c m|c| |m|h|env message sp|env message sp]; simpl in *.
  - by apply getHistory_addToHistory_ne.
  - unfold getHistory, clearHistory. simpl. by rewrite lookup_delete_ne.
  - done.
  - destruct m; simpl; try done.
    + unfold handleChatMessage. by destruct (webviewProvider s).
    + destruct (handleAPIResponse_frame response s) as ((_ & _ & _ & _ & Hh) & _).
      unfold handleAPIResponse. destruct (pendingRequests s !! requestId response); [|done].
      unfold entry_resolve, entry_reject, settle, clearTimeout, getHistory.
      destruct (success response); simpl;
        destruct (promises s !! entry_promise p) as [[]|]; done.
    + unfold getHistory, clearHistory. simpl. by rewrite lookup_delete_ne.
    + unfold sendMessage. by destruct (webviewProvider s).
  - unfold fire_timer, getHistory. destruct (timers s !! h) as [ [ms [rid p] ] | ]; [|done].
    unfold settle. simpl. destruct (promises s !! p) as [[]|]; done.
  - done.
  - done.
Qed.

Lemma history_untouched_by_others_witness :
  Forall (leaves_conversation "default")
    [OpAdd "other" (sample_message 1); OpClear "other";
     OpReceive (FwClearHistory (Some "other")); OpAttach] /\
  getHistory "default"
    (service_run [OpAdd "other" (sample_message 1); OpClear "other";
                  OpReceive (FwClearHistory (Some "other")); OpAttach]
       (addToHistory "default" (sample_message 0) (new_service sample_config))) =
  getHistory "default"
    (addToHistory "default" (sample_message 0) (new_service sample_config)).
Proof.
  assert (Forall (leaves_conversation "default")
            [OpAdd "other" (sample_message 1); OpClear "other";
             OpReceive (FwClearHistory (Some "other")); OpAttach]) as Hops
    by (repeat constructor; simpl; discriminate).
  split; [exact Hops|].
  exact (history_untouched_by_others "default" _ _ Hops).
Defined.

(** ** The retry loop in general *)

(** Whatever the webview does, the log of the loop has at most one entry
    per iteration, every entry but the last is a failure that is retried,
    the last entry decides the result, one request was posted per entry and
    one backoff slept between consecutive entries. *)
Lemma attempt_loop_shape env method params retries remaining lastError log s :
  remaining <= retries ->
  let r := attempt_loop env method params retries remaining lastError log s in
  exists l,
    attempts r = log ++ l /\ length l <= remaining /\
    (0 < remaining -> 0 < length l) /\
    Forall (fun o => retryable_failure o = true) (take (length l - 1) l) /\
    decided_by retries remaining lastError l (completion r) /\
    api_requests (outbox (final r)) =
      api_requests (outbox s)
        ++ map (request_of env method params) (seq (retries - remaining) (length l)) /\
    slept (final r) =
      slept s ++ map backoff (seq (retries - remaining) (length l - 1)).
Proof.
  revert lastError log s. induction remaining as [|n IH]; intros lastError log s Hle r.
  - exists []. subst r. simpl. rewrite !app_nil_r.
    repeat split; try done; try lia; try constructor.
  - subst r. rewrite attempt_loop_step.
    pose proof (run_attempt_frame env method params (retries - S n) s) as Hrun.
    destruct (run_attempt env method params (retries - S n) s) as [[p outcome] s1].
    simpl in Hrun. destruct Hrun as (_ & Hslept & Hout).
    destruct outcome as [|v|msg].
    + exists [Pending]. cbn [attempts completion final length].
      rewrite Hout, Hslept. simpl. rewrite app_nil_r.
      repeat split; try done; try lia; try constructor; by exists p.
    + exists [Resolved v]. cbn [attempts completion final length].
      rewrite Hout, Hslept. simpl. rewrite app_nil_r.
      repeat split; try done; try lia; constructor.
    + destruct (non_retryable msg) eqn:Hnr.
      * exists [Rejected msg]. cbn [attempts completion final length].
        rewrite Hout, Hslept. simpl. rewrite app_nil_r.
        repeat split; try done; try lia; try constructor.
        unfold decided_by. simpl. by rewrite Hnr.
      * set (s2 := if decide (retries - S n < retries - 1)
                   then sleep (backoff (retries - S n)) s1 else s1).
        destruct (IH (Some msg) (log ++ [Rejected msg]) s2 ltac:(lia))
          as (l & Hl & Hlen & Hpos & Hall & Hdec & Hreq & Hsl).
        exists (Rejected msg :: l). rewrite Hl, <- app_assoc.
        split; [done|]. split; [simpl; lia|]. split; [simpl; lia|].
        assert (outbox s2 = outbox s1) as Hs2o by (subst s2; by case_decide).
        split; [|split; [|split] ].
        -- destruct l as [|o l]; [constructor|].
           replace (length (Rejected msg :: o :: l) - 1) with (S (length (o :: l) - 1))
             by (simpl; lia).
           rewrite firstn_cons. constructor; [simpl; by rewrite Hnr | exact Hall].
        -- unfold decided_by in *. destruct l as [|o l].
           ++ simpl. rewrite Hnr. simpl in Hdec.
              destruct n as [|n]; [|specialize (Hpos ltac:(lia)); simpl in Hpos; lia].
              done.
           ++ change (last (Rejected msg :: o :: l)) with (last (o :: l)).
              destruct (last (o :: l)) as [ [|v|m] | ] eqn:Hlast; try done;
                [|by apply last_None in Hlast].
              destruct (non_retryable m); [done|].
              destruct Hdec as [Hn Hc]. split; [simpl in *; lia | done].
        -- rewrite Hreq, Hs2o, Hout, <- app_assoc. simpl.
           by replace (retries - n) with (S (retries - S n)) by lia.
        -- rewrite Hsl. subst s2. destruct n as [|n].
           ++ assert (l = []) as -> by (destruct l; simpl in *; [done|lia]).
              case_decide; [lia|]. simpl. by rewrite Hslept, !app_nil_r.
           ++ specialize (Hpos ltac:(lia)).
              case_decide; [|lia]. simpl. rewrite Hslept, <- app_assoc. simpl.
              replace (length l - 0) with (length l) by lia.
              destruct (length l) as [|len] eqn:Hlen'; [lia|]. simpl.
              replace (len - 0) with len by lia.
              by replace (retries - S n) with (S (retries - S (S n))) by lia.
Qed.

Lemma callPuterAPI_bounded_effort_aux env method params s :
  let r := callPuterAPI env method params 3 s in
  let n := length (attempts r) in
  n <= 3 /\
  (n = 0 <-> webviewProvider s = false) /\
  api_requests (outbox (final r)) =
    api_requests (outbox s) ++ map (request_of env method params) (seq 0 n) /\
  slept (final r) = slept s ++ take (n - 1) [1000%N; 2000%N].
Proof.
  intros r n. subst n r. unfold callPuterAPI.
  destruct (webviewProvider s) eqn:Hprov.
  - destruct (attempt_loop_shape env method params 3 3 None [] s ltac:(lia))
      as (l & Hl & Hlen & Hpos & _ & _ & Hreq & Hsl).
    rewrite app_nil_l in Hl. rewrite Hl, Hreq, Hsl.
    specialize (Hpos ltac:(lia)).
    split; [done|]. split; [split; [lia|done]|]. split; [done|]. f_equal.
    destruct (length l) as [|[|[|[|k] ] ] ]; try done; lia.
  - simpl. rewrite !app_nil_r. repeat split; try done; lia.
Qed.

(** One call never posts more than three requests and never pauses more
    than twice: with [n] the number of attempts made, it posted the [n]
    descriptors of attempts 0 .. n-1 in order and slept the first [n - 1]
    backoffs (1 s, then 2 s); [n] is 0 exactly when no webview provider is
    attached. *)
Theorem callPuterAPI_bounded_effort env method params s :
  let r := callPuterAPI env method params 3 s in
  let n := length (attempts r) in
  n <= 3 /\
  (n = 0 <-> webviewProvider s = false) /\
  api_requests (outbox (final r)) =
    api_requests (outbox s) ++ map (request_of env method params) (seq 0 n) /\
  slept (final r) = slept s ++ take (n - 1) [1000%N; 2000%N].
Proof. exact (callPuterAPI_bounded_effort_aux env method params s). Qed.

(** A success ends the call: if attempt [k] was resolved with [value], the
    call returns [value], attempt [k] is the last one, every earlier attempt
    failed with an error that is retried, [k + 1] requests were posted and
    [k] backoffs slept. *)
Theorem callPuterAPI_success_at env method params s k value :
  let r := callPuterAPI env method params 3 s in
  attempts r !! k = Some (Resolved value) ->
  completion r = Fulfilled value /\
  length (attempts r) = S k /\
  Forall (fun o => retryable_failure o = true) (take k (attempts r)) /\
  api_requests (outbox (final r)) =
    api_requests (outbox s) ++ map (request_of env method params) (seq 0 (S k)) /\
  slept (final r) = slept s ++ map backoff (seq 0 k).
Proof.
  intros r Hk. subst r. unfold callPuterAPI in *.
  destruct (webviewProvider s); [|done].
  destruct (attempt_loop_shape env method params 3 3 None [] s ltac:(lia))
    as (l & Hl & Hlen & Hpos & Hall & Hdec & Hreq & Hsl).
  rewrite app_nil_l in Hl. rewrite Hl in *. clear Hl.
  assert (length l = S k) as Hlk.
  { apply lookup_lt_Some in Hk as Hlt.
    destruct (decide (k < length l - 1)) as [Hin|Hout]; [|lia].
    rewrite Forall_forall in Hall.
    assert (retryable_failure (Resolved value) = true); [|done].
    apply Hall. apply elem_of_take. exists k. split; [done|lia]. }
  assert (last l = Some (Resolved value)) as Hlast.
  { rewrite last_lookup, Hlk. exact Hk. }
  unfold decided_by in Hdec. rewrite Hlast in Hdec.
  split; [exact Hdec|]. split; [exact Hlk|].
  replace (length l - 1) with k in Hall by lia.
  split; [exact Hall|]. split; [by rewrite Hreq, Hlk|].
  rewrite Hsl. by replace (length l - 1) with k by lia.
Qed.

Lemma callPuterAPI_success_at_witness :
  let env := sample_env (answers_from (sample_env silent) 1 true "Hello!") in
  let r := callPuterAPI env "chat" hi_params 3 (attached sample_config) in
  attempts r !! 1 = Some (Resolved (Some "Hello!")) /\
  completion r = Fulfilled (Some "Hello!").
Proof.
  intros env r.
  assert (attempts r !! 1 = Some (Resolved (Some "Hello!"))) as Hk
    by (vm_compute; reflexivity).
  split; [exact Hk|].
  pose proof (callPuterAPI_success_at env "chat" hi_params (attached sample_config)
                1 (Some "Hello!") Hk) as Hclaim.
  destruct Hclaim as [Hdone _]. exact Hdone.
Defined.

(** ** Nothing is left in flight *)

Lemma idle_no_timers s :
  bridge_inv s -> pendingRequests s = ∅ -> timers s = ∅.
Proof.
  intros Hinv Hp. apply map_empty. intros h.
  destruct (timers s !! h) as [ [ms [rid p] ] | ] eqn:Ht; [|done].
  apply (inv_timer s Hinv) in Ht. rewrite Hp, lookup_empty in Ht. done.
Qed.

Lemma subset_of_empty s s' :
  (forall rid e, pendingRequests s' !! rid = Some e -> pendingRequests s !! rid = Some e) ->
  pendingRequests s = ∅ -> pendingRequests s' = ∅.
Proof.
  intros Hsub Hp. apply map_empty. intros rid.
  destruct (pendingRequests s' !! rid) as [e|] eqn:He; [|done].
  apply Hsub in He. rewrite Hp, lookup_empty in He. done.
Qed.

Lemma callPuterAPI_entries env method params s :
  bridge_inv s -> pendingRequests s = ∅ ->
  pendingRequests (final (callPuterAPI env method params 3 s)) = ∅.
Proof.
  intros Hinv Hp. unfold callPuterAPI. destruct (webviewProvider s); [|exact Hp].
  destruct (attempt_loop_settles env method params 3 3 None [] s) as (_ & _ & Hsub).
  - lia.
  - exact Hinv.
  - intros k _. by rewrite Hp, lookup_empty.
  - exact (subset_of_empty s _ Hsub Hp).
Qed.

Lemma chat_entries env message systemPrompt s :
  bridge_inv s -> pendingRequests s = ∅ ->
  pendingRequests (snd (chat env message systemPrompt s)) = ∅.
Proof.
  intros Hinv Hp. unfold chat.
  destruct (getWorkspaceContext env) as [context|failure]; [|exact Hp].
  set (r := callPuterAPI env "chat" _ 3 s).
  assert (pendingRequests (final r) = ∅) as Hr by (by apply callPuterAPI_entries).
  by destruct (completion r).
Qed.

Lemma service_step_idle s op :
  bridge_inv s -> pendingRequests s = ∅ ->
  bridge_inv (service_step s op) /\ pendingRequests (service_step s op) = ∅.
Proof.
  intros Hinv Hp.
  assert (op_fresh s op) as Hfresh.
  { destruct op; simpl; try done; intros k _; by rewrite Hp, lookup_empty. }
  split.
  { apply (bridge_inv_service_run [op] s Hinv). simpl. done. }
  destruct op as [c m|c| |m|h|env message sp|env message sp];
    cbn [service_step]; try done.
  - destruct (bridge_inv_deliver [m] s Hinv) as (_ & Hsub & _).
    by apply (subset_of_empty s).
  - destruct (bridge_inv_fire_timer h s Hinv) as (_ & Hsub & _).
    by apply (subset_of_empty s).
  - by apply chat_entries.
  - unfold chatWithStreaming. destruct (negb (cv_enableStreaming (getConfig s))).
    + pose proof (chat_entries env message sp s Hinv Hp) as Hchat.
      by destruct (chat env message sp s) as [ [r|e|p] s'].
    + destruct (negb (webviewProvider s)); [done|].
      destruct (getWorkspaceContext env) as [context|failure]; [|done].
      simpl.
      match goal with
      | |- pendingRequests (deliver ?ms ?s0) = ∅ =>
          assert (bridge_inv s0) as Hinv0;
          [|destruct (bridge_inv_deliver ms s0 Hinv0) as (_ & Hsub & _);
            by apply (subset_of_empty s0)]
      end.
      destruct Hinv as [H1 H2 H3 H4 H5].
      constructor; simpl.
      * intros rid e He. destruct (H1 rid e He) as [Ht Hq]. split; [done|].
        rewrite lookup_insert_ne; [done|]. intros Heq.
        rewrite H5 in Hq; [done|lia].
      * done.
      * done.
      * done.
      * intros p Hlt. rewrite lookup_insert_ne by lia. apply H5. lia.
Qed.

Lemma idle_service_run cfg ops :
  idle (service_run ops (new_service cfg)) /\
  bridge_inv (service_run ops (new_service cfg)).
Proof.
  assert (forall s, bridge_inv s -> pendingRequests s = ∅ ->
            bridge_inv (service_run ops s) /\ pendingRequests (service_run ops s) = ∅)
    as Hrun.
  { induction ops as [|op ops IH]; intros s Hinv Hp; [done|].
    change (service_run (op :: ops) s) with (service_run ops (service_step s op)).
    destruct (service_step_idle s op Hinv Hp) as [Hinv' Hp']. by apply IH. }
  destruct (Hrun (new_service cfg) (bridge_inv_new_service cfg) eq_refl) as [Hinv Hp].
  split; [|done]. split; [done|]. by apply idle_no_timers.
Qed.


Lemma chat_always_returns_aux cfg ops env message systemPrompt :
  let s := service_run ops (new_service cfg) in
  let '(result, s') := chat env message systemPrompt s in
  ((exists text, result = Fulfilled text) \/
   (exists reason, result = Failed ("Puter AI Error: " +:+ reason)) \/
   (workspaceFolders env = Some [] /\ result = Failed undefined_name /\ s' = s)) /\
  idle s'.
Proof.
  intros s.
  destruct (idle_service_run cfg (ops ++ [OpChat env message systemPrompt]))
    as [Hidle _].
  unfold service_run in Hidle. rewrite fold_left_app in Hidle. simpl in Hidle.
  fold (service_run ops (new_service cfg)) in Hidle. fold s in Hidle.
  destruct (idle_service_run cfg ops) as [ [Hp _] Hinv]. fold s in Hp, Hinv.
  destruct (chat env message systemPrompt s) as [result s'] eqn:Hchat.
  simpl in Hidle. split; [|done].
  unfold chat in Hchat.
  destruct (getWorkspaceContext env) as [context|failure] eqn:Hctx.
  - match type of Hchat with
    | context [callPuterAPI ?e ?m ?p 3 s] =>
        destruct (callPuterAPI_settles e m p s Hinv) as (_ & Hset);
        [intros k _; by rewrite Hp, lookup_empty|]
    end.
    destruct Hset as [ [value Hc] | [reason Hc] ]; rewrite Hc in Hchat;
      injection Hchat as <- <-; eauto.
  - apply getWorkspaceContext_fails in Hctx as [Hempty ->].
    injection Hchat as <- <-. right. right. done.
Qed.


(** ** The webview's reply to an API request *)




(** ** A call through the webview's listener *)










(** ** Replies in any order *)

Lemma settle_other_fields p outcome s :
  pendingRequests (settle p outcome s) = pendingRequests s /\
  timers (settle p outcome s) = timers s.
Proof. unfold settle. by destruct (promises s !! p) as [ [] | ]. Qed.

Lemma settle_with_pending p outcome f s :
  settle p outcome (with_pending f s) = with_pending f (settle p outcome s).
Proof. unfold settle. simpl. by destruct (promises s !! p) as [ [] | ]. Qed.

Lemma settle_clearTimeout p outcome h s :
  settle p outcome (clearTimeout h s) = clearTimeout h (settle p outcome s).
Proof. unfold settle. simpl. by destruct (promises s !! p) as [ [] | ]. Qed.

Lemma clearTimeout_with_pending h f s :
  clearTimeout h (with_pending f s) = with_pending f (clearTimeout h s).
Proof. reflexivity. Qed.

Lemma settle_commute p1 p2 o1 o2 s :
  p1 <> p2 ->
  settle p1 o1 (settle p2 o2 s) = settle p2 o2 (settle p1 o1 s).
Proof.
  intros Hne. unfold settle.
  destruct (promises s !! p1) as [ [] | ] eqn:H1;
    destruct (promises s !! p2) as [ [] | ] eqn:H2; simpl;
    rewrite ?lookup_insert_ne, ?H1, ?H2 by done; try reflexivity.
  unfold with_promises. simpl. f_equal. by apply insert_insert_ne.
Qed.

Lemma clearTimeout_commute h1 h2 s :
  clearTimeout h1 (clearTimeout h2 s) = clearTimeout h2 (clearTimeout h1 s).
Proof. unfold clearTimeout, with_timers. simpl. f_equal. apply delete_delete. Qed.

Lemma delete_pending_commute i1 i2 s :
  with_pending (delete i1) (with_pending (delete i2) s) =
  with_pending (delete i2) (with_pending (delete i1) s).
Proof. unfold with_pending. simpl. f_equal. apply delete_delete. Qed.

(** Replies to two different requests in flight can be handled in either
    order: the resulting state is the same.  (The entries of two requests
    never share a promise when no request id was generated twice.) *)
Theorem replies_commute r1 r2 s :
  requestId r1 <> requestId r2 ->
  (forall e1 e2,
     pendingRequests s !! requestId r1 = Some e1 ->
     pendingRequests s !! requestId r2 = Some e2 ->
     entry_promise e1 <> entry_promise e2) ->
  handleAPIResponse r1 (handleAPIResponse r2 s) =
  handleAPIResponse r2 (handleAPIResponse r1 s).
Proof.
  intros Hne Hprom.
  assert (forall ra rb ea,
            requestId ra <> requestId rb ->
            pendingRequests s !! requestId ra = Some ea ->
            pendingRequests (handleAPIResponse rb s) !! requestId ra = Some ea) as Hkeep.
  { intros ra rb ea Hab Ha. unfold handleAPIResponse.
    destruct (pendingRequests s !! requestId rb) as [eb|]; [|exact Ha].
    cbn [pendingRequests with_pending]. rewrite lookup_delete_ne by done.
    unfold entry_resolve, entry_reject.
    destruct (success rb); by rewrite (proj1 (settle_other_fields _ _ _)). }
  assert (forall ra rb,
            requestId ra <> requestId rb ->
            pendingRequests s !! requestId ra = None ->
            pendingRequests (handleAPIResponse rb s) !! requestId ra = None) as Hnone.
  { intros ra rb Hab Ha. unfold handleAPIResponse.
    destruct (pendingRequests s !! requestId rb) as [eb|]; [|exact Ha].
    cbn [pendingRequests with_pending]. rewrite lookup_delete_ne by done.
    unfold entry_resolve, entry_reject.
    destruct (success rb); by rewrite (proj1 (settle_other_fields _ _ _)). }
  destruct (pendingRequests s !! requestId r1) as [e1|] eqn:H1;
    destruct (pendingRequests s !! requestId r2) as [e2|] eqn:H2.
  - specialize (Hprom e1 e2 eq_refl eq_refl).
    rewrite (handleAPIResponse_entry r1 e1 _ (Hkeep r1 r2 e1 Hne H1)).
    rewrite (handleAPIResponse_entry r2 e2 _ (Hkeep r2 r1 e2 (not_eq_sym Hne) H2)).
    rewrite (handleAPIResponse_entry r2 e2 s H2), (handleAPIResponse_entry r1 e1 s H1).
    rewrite !clearTimeout_with_pending, !settle_with_pending.
    rewrite !settle_clearTimeout.
    rewrite (settle_commute (entry_promise e1) (entry_promise e2)) by done.
    rewrite (clearTimeout_commute (entry_timeout e1) (entry_timeout e2)).
    apply delete_pending_commute.
  - rewrite (handleAPIResponse_no_entry r2 s H2).
    by rewrite (handleAPIResponse_no_entry r2 _ (Hnone r2 r1 (not_eq_sym Hne) H2)).
  - rewrite (handleAPIResponse_no_entry r1 s H1).
    by rewrite (handleAPIResponse_no_entry r1 _ (Hnone r1 r2 Hne H1)).
  - by rewrite (handleAPIResponse_no_entry r1 s H1), (handleAPIResponse_no_entry r2 s H2),
      (handleAPIResponse_no_entry r1 s H1).
Qed.

Lemma replies_commute_witness :
  let ra := reply_to "req_a" true "first" in
  let rb := reply_to "req_b" false "second" in
  requestId ra <> requestId rb /\
  promise_state 0 (handleAPIResponse ra (handleAPIResponse rb two_pending))
    = Resolved (Some "first") /\
  handleAPIResponse ra (handleAPIResponse rb two_pending) =
  handleAPIResponse rb (handleAPIResponse ra two_pending).
Proof.
  assert (requestId (reply_to "req_a" true "first")
          <> requestId (reply_to "req_b" false "second")) as Hne by discriminate.
  assert (forall e1 e2,
            pendingRequests two_pending !! requestId (reply_to "req_a" true "first")
              = Some e1 ->
            pendingRequests two_pending !! requestId (reply_to "req_b" false "second")
              = Some e2 ->
            entry_promise e1 <> entry_promise e2) as Hprom.
  { intros e1 e2 H1 H2. vm_compute in H1, H2.
    injection H1 as <-. injection H2 as <-. discriminate. }
  assert (promise_state 0
            (handleAPIResponse (reply_to "req_a" true "first")
               (handleAPIResponse (reply_to "req_b" false "second") two_pending))
          = Resolved (Some "first")) as Hstate by (vm_compute; reflexivity).
  split; [exact Hne|]. split; [exact Hstate|].
  exact (replies_commute (reply_to "req_a" true "first")
           (reply_to "req_b" false "second") two_pending Hne Hprom).
Defined.

(** ** History requests of the webview *)

(** A [getHistory] message is answered with exactly one [historyResponse]
    that carries the stored history of the conversation named in it, and of
    the conversation 'default' when the id is missing or empty; a
    [clearHistory] message followed by [getHistory] for the same id is
    answered with the empty history; neither touches a request in flight. *)
Theorem webview_history_requests cid s :
  webviewProvider s = true ->
  let s1 := onDidReceiveMessage (FwGetHistory cid) s in
  let s2 := deliver [FwClearHistory cid; FwGetHistory cid] s in
  outbox s1 = outbox s ++ [HistoryResponse (getHistory (or_default cid "default") s)] /\
  conversationHistory s1 = conversationHistory s /\
  outbox s2 = outbox s ++ [HistoryResponse []] /\
  (cid = None \/ cid = Some EmptyString ->
   outbox s1 = outbox s ++ [HistoryResponse (getHistory "default" s)]) /\
  pendingRequests s1 = pendingRequests s /\ pendingRequests s2 = pendingRequests s /\
  timers s2 = timers s /\ promises s2 = promises s.
Proof.
  intros Hprov s1 s2. subst s1 s2.
  unfold deliver, onDidReceiveMessage, sendMessage. simpl.
  rewrite Hprov. simpl.
  split; [done|]. split; [done|]. split.
  { by rewrite getHistory_clearHistory. }
  split; [|done].
  intros [-> | ->]; reflexivity.
Qed.

Lemma webview_history_requests_witness :
  let s := addToHistory "default" (sample_message 0) (attached sample_config) in
  webviewProvider s = true /\
  outbox (onDidReceiveMessage (FwGetHistory None) s) =
    outbox s ++ [HistoryResponse (getHistory (or_default None "default") s)].
Proof.
  assert (webviewProvider
            (addToHistory "default" (sample_message 0) (attached sample_config)) = true)
    as Hprov by (vm_compute; reflexivity).
  split; [exact Hprov|].
  pose proof (webview_history_requests None
                (addToHistory "default" (sample_message 0) (attached sample_config))
                Hprov) as Hclaim.
  destruct Hclaim as [Hout _]. exact Hout.
Defined.

(** ** Text helpers *)

Lemma prefix_app (sub c : string) : String.prefix sub (sub +:+ c) = true.
Proof.
  induction sub as [|x sub IH]; [by destruct c|].
  rewrite append_cons. simpl. destruct (ascii_dec x x); [exact IH|done].
Qed.

Lemma prefix_inv (sub s : string) :
  String.prefix sub s = true -> exists c, s = sub +:+ c.
Proof.
  revert s. induction sub as [|x sub IH]; intros s H.
  - exists s. reflexivity.
  - destruct s as [|y s]; [discriminate H|]. simpl in H.
    destruct (ascii_dec x y) as [->|]; [|discriminate H].
    destruct (IH s H) as [c ->]. exists c. reflexivity.
Qed.

Lemma includes_unfold (s sub : string) :
  includes s sub =
    String.prefix sub s ||
    match s with
    | EmptyString => false
    | String _ rest => includes rest sub
    end.
Proof. by destruct s. Qed.

Lemma includes_here (sub c : string) : includes (sub +:+ c) sub = true.
Proof. rewrite includes_unfold, prefix_app. reflexivity. Qed.

Lemma includes_later (a rest sub : string) :
  includes rest sub = true -> includes (a +:+ rest) sub = true.
Proof.
  intros H. induction a as [|x a IH]; [exact H|].
  rewrite append_cons, includes_unfold, IH. apply orb_true_r.
Qed.

Lemma includes_refl (s : string) : includes s s = true.
Proof.
  rewrite includes_unfold.
  replace (String.prefix s s) with true; [done|].
  symmetry. induction s as [|x s IH]; [done|]. simpl.
  destruct (ascii_dec x x); [exact IH|done].
Qed.

Lemma includes_inv (s sub : string) :
  includes s sub = true -> exists a c, s = a +:+ sub +:+ c.
Proof.
  induction s as [|x s IH]; rewrite includes_unfold; intros H.
  - apply orb_true_iff in H as [H|H]; [|discriminate H].
    apply prefix_inv in H as [c ->]. by exists EmptyString, c.
  - apply orb_true_iff in H as [H|H].
    + apply prefix_inv in H as [c ->]. by exists EmptyString, c.
    + destruct (IH H) as (a & c & ->). by exists (String x a), c.
Qed.

Lemma includes_trans (s t u : string) :
  includes s t = true -> includes t u = true -> includes s u = true.
Proof.
  intros Hst Htu.
  apply includes_inv in Hst as (a & c & ->). apply includes_inv in Htu as (a' & c' & ->).
  apply includes_later. rewrite !append_assoc. apply includes_later, includes_here.
Qed.

Lemma includes_empty (s : string) : includes s EmptyString = true.
Proof. rewrite includes_unfold. by destruct s. Qed.

Lemma split_on_length sep s : length (split_on sep s) = S (count_char sep s).
Proof.
  induction s as [|c s IH]; [done|]. simpl.
  destruct (Ascii.eqb c sep); simpl; [by rewrite IH|].
  destruct (split_on sep s); simpl in *; [done|lia].
Qed.

Lemma join_cons sep p q rest :
  join sep (p :: q :: rest) = p +:+ sep +:+ join sep (q :: rest).
Proof. reflexivity. Qed.

Lemma join_split_on sep s : join (String sep EmptyString) (split_on sep s) = s.
Proof.
  induction s as [|c s IH]; [done|]. simpl.
  pose proof (split_on_length sep s) as Hlen.
  destruct (split_on sep s) as [|first others]; [discriminate Hlen|].
  destruct (Ascii.eqb_spec c sep) as [->|Hne].
  - rewrite join_cons, IH. reflexivity.
  - destruct others as [|q rest].
    + simpl in *. by rewrite IH.
    + rewrite join_cons in *. rewrite append_cons. by rewrite IH.
Qed.

Lemma split_on_head sep s :
  exists word others rest, split_on sep s = word :: others /\ s = word +:+ rest.
Proof.
  induction s as [|c s (word & others & rest & Hs & Heq)].
  - by exists EmptyString, [], EmptyString.
  - simpl. destruct (Ascii.eqb c sep).
    + by exists EmptyString, (split_on sep s), (String c s).
    + rewrite Hs. exists (String c word), others, rest. by rewrite append_cons, <- Heq.
Qed.

(** ** analyzeCodeContext *)

Lemma analyzeCodeContext_report_aux trim code language :
  let lines := split_on line_feed code in
  exists dependencies,
    analyzeCodeContext trim code language =
      "Code Context (" +:+ language +:+ "):" +:+ nl +:+ dependencies
        +:+ "Lines of code: " +:+ pretty (S (count_char line_feed code)) +:+ nl /\
    ((dependencies = EmptyString /\
      Forall (fun line => is_dependency_line trim line = false) lines) \/
     (exists listed,
        dependencies = "Dependencies: " +:+ join ", " listed +:+ nl /\
        0 < length listed <= 5 /\
        Forall (fun line => line ∈ lines /\ is_dependency_line trim line = true) listed)) /\
    join nl lines = code.
Proof.
  intros lines. unfold analyzeCodeContext. fold lines.
  assert (length lines = S (count_char line_feed code)) as -> by apply split_on_length.
  destruct (List.filter (is_dependency_line trim) lines) as [|d ds] eqn:Hf.
  - exists EmptyString. simpl. rewrite !append_assoc. split; [reflexivity|].
    split; [|apply join_split_on]. left. split; [done|].
    apply Forall_forall. intros line Hin.
    destruct (is_dependency_line trim line) eqn:Hd; [|done].
    assert (In line (List.filter (is_dependency_line trim) lines)) as Hin'.
    { apply filter_In. split; [by apply list_elem_of_In|done]. }
    rewrite Hf in Hin'. destruct Hin'.
  - exists ("Dependencies: " +:+ join ", " (take 5 (d :: ds)) +:+ nl).
    change (0 <? length (d :: ds))%nat with true. cbv iota.
    rewrite !append_assoc. split; [reflexivity|].
    split; [|apply join_split_on]. right. exists (take 5 (d :: ds)).
    split; [done|]. split.
    + rewrite length_take. cbn [length]. lia.
    + apply Forall_forall. intros line Hin.
      apply elem_of_take in Hin as (i & Hi & _).
      apply list_elem_of_lookup_2 in Hi. rewrite <- Hf in Hi.
      apply list_elem_of_In, filter_In in Hi as [Hin Hd].
      split; [by apply list_elem_of_In|done].
Qed.

(** The report of [analyzeCodeContext] counts one line more than the code
    has line feeds, so never 0; it has a 'Dependencies' line exactly when
    some line passes the filter, and that line lists at most five of them,
    all of them lines of the code; and joining the lines again gives back
    the code. *)
Theorem analyzeCodeContext_report trim code language :
  let lines := split_on line_feed code in
  exists dependencies,
    analyzeCodeContext trim code language =
      "Code Context (" +:+ language +:+ "):" +:+ nl +:+ dependencies
        +:+ "Lines of code: " +:+ pretty (S (count_char line_feed code)) +:+ nl /\
    ((dependencies = EmptyString /\
      Forall (fun line => is_dependency_line trim line = false) lines) \/
     (exists listed,
        dependencies = "Dependencies: " +:+ join ", " listed +:+ nl /\
        0 < length listed <= 5 /\
        Forall (fun line => line ∈ lines /\ is_dependency_line trim line = true) listed)) /\
    join nl lines = code.
Proof. exact (analyzeCodeContext_report_aux trim code language). Qed.

(** ** getRelevantFilesContext *)

Lemma is_relevant_words toLowerCase query relativePath :
  is_relevant toLowerCase query relativePath =
    existsb (fun word => includes (toLowerCase relativePath) word)
      (split_on " " (toLowerCase query)).
Proof.
  unfold is_relevant.
  destruct (includes (toLowerCase relativePath) (toLowerCase query)) eqn:Hq; [|done].
  simpl. symmetry.
  destruct (split_on_head " " (toLowerCase query)) as (word & others & rest & Hs & Heq).
  rewrite Hs. simpl.
  replace (includes (toLowerCase relativePath) word) with true; [done|].
  symmetry. apply (includes_trans _ (toLowerCase query)); [exact Hq|].
  rewrite Heq at 1. apply includes_here.
Qed.

(** A file is relevant exactly when some word of the lower-cased query,
    split at single spaces, occurs in its lower-cased path: the test on the
    whole query adds nothing.  In particular a query with an empty word
    (the empty query, a leading or trailing space, two spaces in a row)
    makes every file relevant. *)
Theorem relevant_files_by_word toLowerCase query files :
  getRelevantFilesContext toLowerCase query files =
    match files with
    | FilesFound relativePaths =>
        let relevantFiles :=
          List.filter
            (fun path => existsb (fun word => includes (toLowerCase path) word)
                           (split_on " " (toLowerCase query))) relativePaths in
        match relevantFiles with
        | [] => "No relevant files found"
        | _ => "Relevant files for " +:+ dq +:+ query +:+ dq +:+ ":" +:+ nl
                 +:+ join nl (map (fun f => "- " +:+ f) (take 10 relevantFiles))
        end
    | FindFails message => "Error searching files: " +:+ message
    end /\
  (EmptyString ∈ split_on " " (toLowerCase query) ->
   forall relativePath, is_relevant toLowerCase query relativePath = true).
Proof.
  split.
  - destruct files as [paths|message]; [|reflexivity].
    unfold getRelevantFilesContext. cbv zeta.
    rewrite (filter_ext _ _ (is_relevant_words toLowerCase query)).
    by destruct (List.filter _ paths).
  - intros Hin path. rewrite is_relevant_words. apply existsb_exists.
    exists EmptyString. split; [by apply list_elem_of_In | apply includes_empty].
Qed.

(** With a query that has an empty word, the report lists the first ten of
    all files found, whatever their names. *)
Theorem blank_query_lists_all toLowerCase query relativePaths :
  EmptyString ∈ split_on " " (toLowerCase query) ->
  relativePaths <> [] ->
  getRelevantFilesContext toLowerCase query (FilesFound relativePaths) =
    "Relevant files for " +:+ dq +:+ query +:+ dq +:+ ":" +:+ nl
      +:+ join nl (map (fun f => "- " +:+ f) (take 10 relativePaths)).
Proof.
  intros Hin Hne. unfold getRelevantFilesContext.
  assert (List.filter (is_relevant toLowerCase query) relativePaths = relativePaths) as ->.
  { clear Hne. induction relativePaths as [|p ps IH]; [done|]. simpl.
    rewrite is_relevant_words.
    replace (existsb _ _) with true; [by rewrite IH|].
    symmetry. apply existsb_exists.
    exists EmptyString. split; [by apply list_elem_of_In | apply includes_empty]. }
  destruct relativePaths; done.
Qed.

Lemma blank_query_lists_all_witness :
  EmptyString ∈ split_on " " ((fun s : string => s) "fix ") /\
  getRelevantFilesContext (fun s => s) "fix " (FilesFound ["src/a.ts"; "lib/b.py"]) =
    "Relevant files for " +:+ dq +:+ "fix " +:+ dq +:+ ":" +:+ nl
      +:+ "- src/a.ts" +:+ nl +:+ "- lib/b.py".
Proof.
  assert (EmptyString ∈ split_on " " ((fun s : string => s) "fix ")) as Hin
    by (vm_compute; repeat constructor).
  assert (["src/a.ts"; "lib/b.py"] <> @nil string) as Hne by discriminate.
  split; [exact Hin|].
  exact (blank_query_lists_all (fun s => s) "fix " ["src/a.ts"; "lib/b.py"] Hin Hne).
Defined.

(** ** getNonce *)

Lemma charAt_possible k :
  k < 62 ->
  exists c, charAt possible k = String c EmptyString /\ is_alphanumeric c = true.
Proof.
  intros Hk.
  assert (forallb (fun i => match charAt possible i with
                            | String c EmptyString => is_alphanumeric c
                            | _ => false
                            end) (seq 0 62) = true) as Hall
    by (vm_compute; reflexivity).
  rewrite forallb_forall in Hall. specialize (Hall k).
  destruct (charAt possible k) as [|c [|c' rest] ];
    [discriminate Hall; apply in_seq; lia
    |exists c; split; [reflexivity|]; apply Hall, in_seq; lia
    |discriminate Hall; apply in_seq; lia].
Qed.

Lemma all_alphanumeric_app a b :
  all_alphanumeric a = true -> all_alphanumeric b = true ->
  all_alphanumeric (a +:+ b) = true.
Proof.
  intros Ha Hb. induction a as [|c a IH]; [exact Hb|].
  rewrite append_cons. simpl in *. apply andb_true_iff in Ha as [Hc Ha].
  by rewrite Hc, IH.
Qed.

Lemma length_append (a b : string) :
  String.length (a +:+ b) = String.length a + String.length b.
Proof. induction a as [|c a IH]; [done|]. rewrite append_cons. simpl. by rewrite IH. Qed.

(** The nonce is 32 characters long and consists of letters and digits
    only, whatever the random draws are. *)
Theorem getNonce_alphanumeric draws :
  (forall i, i < 32 -> draws i < 62) ->
  String.length (getNonce draws) = 32 /\ all_alphanumeric (getNonce draws) = true.
Proof.
  intros Hdraws. unfold getNonce.
  assert (forall n start text,
            start + n <= 32 ->
            let out := fold_left (fun text i => text +:+ charAt possible (draws i))
                         (seq start n) text in
            String.length out = String.length text + n /\
            (all_alphanumeric text = true -> all_alphanumeric out = true)) as Hloop.
  { induction n as [|n IH]; intros start text Hle; simpl.
    - split; [lia|done].
    - destruct (charAt_possible (draws start)) as (c & Hc & Hal); [apply Hdraws; lia|].
      destruct (IH (S start) (text +:+ charAt possible (draws start)) ltac:(lia))
        as [Hlen Hall].
      split.
      + rewrite Hlen, length_append, Hc. simpl. lia.
      + intros Htext. apply Hall, all_alphanumeric_app; [done|].
        rewrite Hc. simpl. by rewrite Hal. }
  destruct (Hloop 32 0 EmptyString ltac:(lia)) as [Hlen Hall].
  split; [exact Hlen | by apply Hall].
Qed.

Lemma getNonce_alphanumeric_witness :
  String.length (getNonce (fun i => (7 * i) mod 62)) = 32 /\
  all_alphanumeric (getNonce (fun i => (7 * i) mod 62)) = true.
Proof.
  apply (getNonce_alphanumeric (fun i => (7 * i) mod 62)).
  intros i Hi. do 32 (destruct i as [|i]; [vm_compute; lia|]). lia.
Defined.

(** ** The prompts of the service commands *)

Lemma fullPrompt_includes systemPrompt context message :
  includes (fullPrompt systemPrompt context message) message = true.
Proof.
  destruct systemPrompt as [ [|c r] | ]; unfold fullPrompt; try apply includes_refl.
  do 9 apply includes_later. apply includes_refl.
Qed.

Lemma chat_posted env message systemPrompt s :
  exists n context,
    n <= 3 /\
    posted_between s (snd (chat env message systemPrompt s)) =
      map (request_of env "chat"
             {| prompt := fullPrompt systemPrompt context message;
                model := cv_model (getConfig s);
                temperature := cv_temperature (getConfig s);
                max_tokens := cv_maxTokens (getConfig s) |}) (seq 0 n).
Proof.
  unfold chat, posted_between.
  destruct (getWorkspaceContext env) as [context|failure].
  - pose proof (callPuterAPI_bounded_effort_aux env "chat"
                  {| prompt := fullPrompt systemPrompt context message;
                     model := cv_model (getConfig s);
                     temperature := cv_temperature (getConfig s);
                     max_tokens := cv_maxTokens (getConfig s) |} s) as Hb.
    cbv zeta in Hb. destruct Hb as (Hn & _ & Hreq & _).
    set (r := callPuterAPI env "chat" _ 3 s) in *.
    exists (length (attempts r)), context. split; [exact Hn|].
    destruct (completion r); simpl; by rewrite Hreq, drop_app_length.
  - exists 0, EmptyString. split; [lia|]. simpl. by rewrite drop_all.
Qed.

Lemma chat_forwards env message systemPrompt texts s :
  Forall (fun text => includes message text = true) texts ->
  forwards (chat env message systemPrompt) texts s.
Proof.
  intros Htexts. unfold forwards. cbv zeta.
  destruct (chat_posted env message systemPrompt s) as (n & context & Hn & ->).
  split; [by rewrite length_map, length_seq|].
  apply Forall_forall. intros request Hin.
  apply list_elem_of_fmap in Hin as (k & -> & _).
  apply Forall_forall. intros text Htext. split; [reflexivity|]. simpl.
  eapply includes_trans; [apply fullPrompt_includes|].
  rewrite Forall_forall in Htexts. by apply Htexts.
Qed.

(** Whatever the webview answers, each of the six service commands posts
    at most three requests, all of method 'chat', and the prompt of each of
    them contains the user's code (for [generateCode], the description) and
    the language verbatim. *)
Theorem service_commands_forward_code env code language s :
  forwards (explainCode env code language) [code; language] s /\
  forwards (generateCode env code language) [code; language] s /\
  forwards (refactorCode env code language) [code; language] s /\
  forwards (addComments env code language) [code; language] s /\
  forwards (fixErrors env code language) [code; language] s /\
  forwards (generateTests env code language) [code; language] s.
Proof.
  split; [|split; [|split; [|split; [|split] ] ] ];
    unfold explainCode, generateCode, refactorCode, addComments, fixErrors, generateTests;
    apply chat_forwards; repeat constructor;
    unfold explainCode_prompt, generateCode_prompt, refactorCode_prompt,
      addComments_prompt, fixErrors_prompt, generateTests_prompt, fenced;
    rewrite ?append_assoc;
    repeat first [ apply includes_here | apply includes_later ].
Qed.

(** With no active editor [generateCodeWithContext] is [generateCode]; with
    one, every request it posts also carries the line count of the
    document. *)
Theorem generateCodeWithContext_context trim env documentText description language s :
  match activeTextEditor env with
  | None =>
      generateCodeWithContext trim env documentText description language s =
      generateCode env (description +:+ EmptyString) language s
  | Some _ =>
      forwards (generateCodeWithContext trim env documentText description language)
        [description; language; "Existing code context:";
         "Lines of code: " +:+ pretty (S (count_char line_feed documentText))] s
  end.
Proof.
  unfold generateCodeWithContext. destruct (activeTextEditor env); [|reflexivity].
  destruct (analyzeCodeContext_report_aux trim documentText language)
    as (dependencies & -> & _).
  apply chat_forwards. unfold generateCode_prompt.
  repeat constructor; rewrite ?append_assoc;
    repeat first [ apply includes_here
                 | rewrite <- (append_assoc "Lines of code: "); apply includes_here
                 | apply includes_later ].
Qed.

(** ** The editor commands *)

Lemma selection_command_outcome title call on_success env selectedText cfg ops
    (build : string -> string -> string) (systemPrompt : string -> string) :
  (forall text language s,
     call env text language s = chat env (build text language) (Some (systemPrompt language)) s) ->
  command_outcome (selection_command title call on_success) call title
    (on_success selectedText) env selectedText (service_run ops (new_service cfg)).
Proof.
  intros Hcall. unfold command_outcome, selection_command.
  destruct (activeTextEditor env) as [editor|]; [|done].
  destruct selectedText as [|c text]; [done|].
  pose proof (chat_always_returns_aux cfg ops env
                (build (String c text) (languageId editor))
                (Some (systemPrompt (languageId editor)))) as Hchat.
  cbv zeta in Hchat. rewrite !Hcall.
  destruct (chat env _ _ (service_run ops (new_service cfg))) as [result s'].
  destruct Hchat as [ [ [reply ->] | [ [reason ->] | (Hempty & -> & ->) ] ] _];
    cbn beta iota;
    (destruct (decide (String c text = EmptyString)) as [Heq|_]; [discriminate Heq|]);
    [left|right|right]; eauto 8.
Qed.

(** On a service reached by any sequence of operations, each command on
    the selection does exactly one of four things.  Without an active
    editor it shows 'No active editor found'; with an empty selection it
    shows 'Please select some code first'; in both cases the service is
    not called.  Otherwise it calls the service; on success it makes the
    UI calls of the command with the reply (replace the selection, or open
    a document) and on failure it shows 'Error: ' and the error of the
    service, which starts with 'Puter AI Error: ' unless it is the
    [TypeError] of an empty list of workspace folders, and edits nothing. *)
Theorem selection_commands_outcome cfg ops env selectedText :
  let s := service_run ops (new_service cfg) in
  command_outcome command_refactorCode refactorCode "Refactoring code..."
    (fun _ reply => [EditReplaceSelection reply;
                     ShowInformationMessage "Code refactored successfully!"])
    env selectedText s /\
  command_outcome command_addComments addComments "Adding comments..."
    (fun _ reply => [EditReplaceSelection reply;
                     ShowInformationMessage "Comments added successfully!"])
    env selectedText s /\
  command_outcome command_fixErrors fixErrors "Fixing errors..."
    (fun _ reply => [EditReplaceSelection reply;
                     ShowInformationMessage "Code fixed successfully!"])
    env selectedText s /\
  command_outcome command_generateTests generateTests "Generating tests..."
    (fun language reply => [OpenTextDocument reply language;
                            ShowInformationMessage "Tests generated successfully!"])
    env selectedText s /\
  command_outcome command_explainCode explainCode "Explaining code..."
    (fun language reply =>
       [OpenTextDocument
          (Some ("# Code Explanation" +:+ nl +:+ nl
                   +:+ "## Original Code (" +:+ language +:+ "):" +:+ nl
                   +:+ fenced selectedText language +:+ nl +:+ nl
                   +:+ "## Explanation:" +:+ nl +:+ interpolate reply))
          "markdown"])
    env selectedText s.
Proof.
  intros s. subst s.
  split; [|split; [|split; [|split] ] ].
  - exact (selection_command_outcome _ _ _ env selectedText cfg ops
             refactorCode_prompt _ (fun _ _ _ => eq_refl)).
  - exact (selection_command_outcome _ _ _ env selectedText cfg ops
             addComments_prompt (fun _ => _) (fun _ _ _ => eq_refl)).
  - exact (selection_command_outcome _ _ _ env selectedText cfg ops
             fixErrors_prompt _ (fun _ _ _ => eq_refl)).
  - exact (selection_command_outcome _ _ _ env selectedText cfg ops
             generateTests_prompt _ (fun _ _ _ => eq_refl)).
  - exact (selection_command_outcome _ _ _ env selectedText cfg ops
             explainCode_prompt (fun _ => _) (fun _ _ _ => eq_refl)).
Qed.

(** ** The JSON block of an agent reply *)

Lemma from_first_open_skip a rest :
  includes a "{" = false ->
  from_first_open (a +:+ String "{" rest) = Some (String "{" rest).
Proof.
  induction a as [|ch a IH]; intros Hno; [done|].
  rewrite append_cons. simpl.
  rewrite includes_unfold in Hno. apply orb_false_iff in Hno as [Hp Hno].
  destruct (Ascii.eqb_spec ch "{") as [-> | Hne].
  - simpl in Hp. by destruct a.
  - by apply IH.
Qed.

Lemma upto_last_close_none c :
  includes c "}" = false -> upto_last_close c = None.
Proof.
  induction c as [|ch c IH]; intros Hno; [done|].
  rewrite includes_unfold in Hno. apply orb_false_iff in Hno as [Hp Hno].
  simpl. rewrite (IH Hno).
  destruct (Ascii.eqb_spec ch "}") as [-> | Hne]; [|done].
  simpl in Hp. by destruct c.
Qed.

Lemma upto_last_close_exact x c :
  upto_last_close c = None ->
  upto_last_close (x +:+ String "}" c) = Some (x +:+ "}").
Proof.
  intros Hc. induction x as [|ch x IH].
  - rewrite !append_nil. simpl. rewrite Hc. reflexivity.
  - rewrite !append_cons. simpl. by rewrite IH.
Qed.

(** Prose around the JSON object of a reply is ignored: when the reply is
    [a], an opening brace, [b], a closing brace, [c], with no opening brace
    in [a] and no closing brace in [c], exactly the text from that opening
    brace to that closing brace is given to [JSON.parse], and the call
    returns what [JSON.parse] returns, or its error after 'Failed to parse
    agent response: '.  (So a reply with two objects is parsed as one
    span.) *)
Theorem agent_reply_span JSON_parse code a b c :
  includes a "{" = false ->
  includes c "}" = false ->
  parse_agent_response JSON_parse code (Some (a +:+ "{" +:+ b +:+ "}" +:+ c)) =
    match JSON_parse ("{" +:+ b +:+ "}") with
    | inl value => Fulfilled value
    | inr err => Failed ("Failed to parse agent response: " +:+ err)
    end.
Proof.
  intros Ha Hc. unfold parse_agent_response, match_braces.
  change ("{" +:+ b +:+ "}" +:+ c) with (String "{" (b +:+ String "}" c)).
  rewrite (from_first_open_skip a _ Ha). simpl.
  change (String "{" (b +:+ String "}" c)) with (String "{" b +:+ String "}" c).
  rewrite (upto_last_close_exact _ _ (upto_last_close_none c Hc)).
  reflexivity.
Qed.

Lemma agent_reply_span_witness :
  parse_agent_response parse_flat_object "x = 1"
    (Some ("Here you go: " +:+ "{" +:+ "" +:+ "}" +:+ " Bye.")) =
  Fulfilled (JObject []).
Proof.
  assert (includes "Here you go: " "{" = false) as Ha by (vm_compute; reflexivity).
  assert (includes " Bye." "}" = false) as Hc by (vm_compute; reflexivity).
  pose proof (agent_reply_span parse_flat_object "x = 1" "Here you go: " EmptyString
                " Bye." Ha Hc) as Hclaim.
  assert (parse_flat_object ("{" +:+ EmptyString +:+ "}") = inl (JObject [])) as Hparse
    by (vm_compute; reflexivity).
  rewrite Hparse in Hclaim. exact Hclaim.
Defined.

(** ** The two ends of a stream *)



(** ** Request ids *)

(** Two generated ids are equal only when both the clock value and the
    random suffix are equal, so attempts made at different milliseconds or
    with different suffixes never share an id; and an id of a request is
    never the id of a stream. *)
Theorem request_ids_distinct env i j :
  now env i <> now env j \/ random36 env i <> random36 env j ->
  make_requestId "req_" env i <> make_requestId "req_" env j /\
  make_requestId "stream_" env i <> make_requestId "stream_" env j /\
  make_requestId "req_" env i <> make_requestId "stream_" env j.
Proof.
  intros Hdiff. repeat split.
  - intros Heq. apply make_requestId_inj in Heq as [Hn Hr]. by destruct Hdiff.
  - intros Heq. apply make_requestId_inj in Heq as [Hn Hr]. by destruct Hdiff.
  - unfold make_requestId. discriminate.
Qed.

Lemma request_ids_distinct_witness :
  make_requestId "req_" (sample_env silent) 0 <> make_requestId "req_" (sample_env silent) 1.
Proof.
  assert (now (sample_env silent) 0 <> now (sample_env silent) 1 \/
          random36 (sample_env silent) 0 <> random36 (sample_env silent) 1) as Hdiff
    by (left; vm_compute; discriminate).
  pose proof (request_ids_distinct (sample_env silent) 0 1 Hdiff) as Hclaim.
  destruct Hclaim as [Hreq _]. exact Hreq.
Defined.

(** ** Who writes the history *)

Lemma nothing_recorded_ext s s' :
  conversationHistory s' = conversationHistory s -> outbox s' = outbox s ->
  nothing_recorded s -> nothing_recorded s'.
Proof. intros Hh Ho [H1 H2]. split; by rewrite ?Hh, ?Ho. Qed.

Lemma nothing_recorded_post m s :
  empty_history_response m -> nothing_recorded s -> nothing_recorded (post m s).
Proof.
  intros Hm [H1 H2]. split; [done|]. simpl. apply Forall_app. split; [done|].
  by constructor.
Qed.

Lemma nothing_recorded_settle p outcome s :
  nothing_recorded s -> nothing_recorded (settle p outcome s).
Proof. unfold settle. by destruct (promises s !! p) as [ [] | ]. Qed.

Lemma nothing_recorded_handleAPIResponse response s :
  nothing_recorded s -> nothing_recorded (handleAPIResponse response s).
Proof.
  intros H. unfold handleAPIResponse.
  destruct (pendingRequests s !! requestId response) as [e|]; [|done].
  apply (nothing_recorded_ext
           (if success response
            then entry_resolve e (data response) s
            else entry_reject e (or_default (error response) "Unknown error") s));
    [done|done|].
  destruct (success response); unfold entry_resolve, entry_reject;
    by apply nothing_recorded_settle.
Qed.

Lemma nothing_recorded_fire_timer h s :
  nothing_recorded s -> nothing_recorded (fire_timer h s).
Proof.
  intros H. unfold fire_timer.
  destruct (timers s !! h) as [ [ms [rid p] ] | ]; [|done].
  by apply nothing_recorded_settle.
Qed.

Lemma nothing_recorded_onDidReceiveMessage m s :
  nothing_recorded s -> nothing_recorded (onDidReceiveMessage m s).
Proof.
  intros H. destruct m; simpl; try done.
  - unfold handleChatMessage. destruct (webviewProvider s); [|done].
    apply nothing_recorded_post; [done|]. by apply nothing_recorded_post.
  - by apply nothing_recorded_handleAPIResponse.
  - destruct H as [H1 H2]. split; [|done]. simpl. rewrite H1. apply delete_empty.
  - unfold sendMessage. destruct (webviewProvider s); [|done].
    apply nothing_recorded_post; [|done].
    destruct H as [H1 _]. unfold getHistory. simpl. by rewrite H1, lookup_empty.
Qed.

Lemma nothing_recorded_deliver ms s :
  nothing_recorded s -> nothing_recorded (deliver ms s).
Proof.
  revert s. induction ms as [|m ms IH]; intros s H; [done|].
  apply IH. by apply nothing_recorded_onDidReceiveMessage.
Qed.

Lemma nothing_recorded_run_attempt env method params k s :
  nothing_recorded s -> nothing_recorded (snd (run_attempt env method params k s)).
Proof.
  intros H. unfold run_attempt. rewrite start_request_eq. simpl.
  apply nothing_recorded_fire_timer, nothing_recorded_deliver.
  unfold start_request. simpl.
  destruct H as [H1 H2]. split; [done|]. simpl. apply Forall_app. split; [done|].
  by constructor.
Qed.

Lemma nothing_recorded_attempt_loop env method params retries remaining lastError log s :
  nothing_recorded s ->
  nothing_recorded (final (attempt_loop env method params retries remaining lastError log s)).
Proof.
  revert lastError log s. induction remaining as [|n IH]; intros lastError log s H; [done|].
  rewrite attempt_loop_step.
  pose proof (nothing_recorded_run_attempt env method params (retries - S n) s H) as Hrun.
  destruct (run_attempt env method params (retries - S n) s) as [[p outcome] s1].
  simpl in Hrun. destruct outcome as [|v|msg]; [done|done|].
  destruct (non_retryable msg); [done|]. apply IH.
  case_decide; [|done]. by apply (nothing_recorded_ext s1).
Qed.

Lemma nothing_recorded_chat env message systemPrompt s :
  nothing_recorded s -> nothing_recorded (snd (chat env message systemPrompt s)).
Proof.
  intros H. unfold chat.
  destruct (getWorkspaceContext env) as [context|failure]; [|exact H].
  set (r := callPuterAPI env "chat" _ 3 s).
  assert (nothing_recorded (final r)) as Hr.
  { subst r. unfold callPuterAPI. destruct (webviewProvider s); [|exact H].
    by apply nothing_recorded_attempt_loop. }
  by destruct (completion r).
Qed.

Lemma nothing_recorded_service_step s op :
  not_an_append op -> nothing_recorded s -> nothing_recorded (service_step s op).
Proof.
  intros Hop H. destruct op as [c m|c| |m|h|env message sp|env message sp]; simpl.
  - destruct Hop.
  - destruct H as [H1 H2]. split; [|done]. simpl. rewrite H1. apply delete_empty.
  - by apply (nothing_recorded_ext s).
  - by apply nothing_recorded_onDidReceiveMessage.
  - by apply nothing_recorded_fire_timer.
  - by apply nothing_recorded_chat.
  - unfold chatWithStreaming. destruct (negb (cv_enableStreaming (getConfig s))).
    + pose proof (nothing_recorded_chat env message sp s H) as Hchat.
      destruct (chat env message sp s) as [ [r|e|p] s']; simpl in *; try done;
        by apply (nothing_recorded_ext s').
    + destruct (negb (webviewProvider s)); [done|].
      destruct (getWorkspaceContext env) as [context|failure]; [|done]. simpl.
      apply nothing_recorded_deliver.
      destruct H as [H1 H2]. split; [done|]. simpl. apply Forall_app. split; [done|].
      by constructor.
Qed.

(** Only [addToHistory] writes to the store.  As long as [addToHistory]
    is not called, whatever is chatted, streamed, received or timed out,
    every conversation stays empty, its statistics stay 0, and every
    [historyResponse] sent to the webview carries the empty history: a
    chat does not record its own exchange. *)
Theorem only_addToHistory_records cfg ops :
  Forall not_an_append ops ->
  let s := service_run ops (new_service cfg) in
  (forall cid,
     getHistory cid s = [] /\
     getConversationStats cid s =
       {| messageCount := 0; userMessages := 0; aiMessages := 0 |}) /\
  (forall history, HistoryResponse history ∈ outbox s -> history = []).
Proof.
  intros Hops s.
  assert (nothing_recorded s) as [Hstore Hout].
  { subst s.
    assert (nothing_recorded (new_service cfg)) as Hinit by (split; [done|constructor]).
    revert Hinit. generalize (new_service cfg).
    induction Hops as [|op ops Hop Hops IH]; intros s0 H0; [done|].
    apply IH. by apply nothing_recorded_service_step. }
  split.
  - intros cid. unfold getConversationStats, getHistory. by rewrite Hstore, lookup_empty.
  - intros history Hin. rewrite Forall_forall in Hout. exact (Hout _ Hin).
Qed.

Lemma only_addToHistory_records_witness :
  let ops := [OpAttach; OpChat (sample_env (replies true "Hello!")) "hi" None;
              OpReceive (FwGetHistory None)] in
  let s := service_run ops (new_service sample_config) in
  Forall not_an_append ops /\
  HistoryResponse [] ∈ outbox s /\
  getHistory "default" s = [].
Proof.
  intros ops s.
  assert (Forall not_an_append ops) as Hops by (repeat constructor).
  assert (HistoryResponse [] ∈ outbox s) as Hin.
  { assert (outbox s !! 1 = Some (HistoryResponse [])) as Hlook
      by (vm_compute; reflexivity).
    exact (list_elem_of_lookup_2 _ _ _ Hlook). }
  split; [exact Hops|]. split; [exact Hin|].
  pose proof (only_addToHistory_records sample_config ops Hops) as Hclaim.
  destruct Hclaim as [Hstore _]. destruct (Hstore "default") as [Hh _]. exact Hh.
Defined.

(** ** A call cleans up after itself *)

Lemma bridge_inv_two_pending : bridge_inv two_pending.
Proof.
  unfold two_pending.
  apply bridge_inv_start_request; [apply bridge_inv_start_request|].
  - apply (bridge_inv_ext (new_service sample_config)); try reflexivity.
    apply bridge_inv_new_service.
  - reflexivity.
  - vm_compute. reflexivity.
Qed.

(** When no request id is generated twice, a call of [callPuterAPI] always
    returns, and every pending entry and armed timer it leaves behind was
    there before the call: the entries and timers of its own attempts are
    gone, whether the attempts were answered or timed out, and requests of
    other calls still in flight are not touched unless the webview answered
    them. *)
Theorem callPuterAPI_cleans_up env method params s :
  bridge_inv s ->
  (forall k, k < 3 -> pendingRequests s !! make_requestId "req_" env k = None) ->
  let r := callPuterAPI env method params 3 s in
  ((exists value, completion r = Fulfilled value) \/
   (exists message, completion r = Failed message)) /\
  (forall rid e, pendingRequests (final r) !! rid = Some e ->
                 pendingRequests s !! rid = Some e) /\
  (forall h t, timers (final r) !! h = Some t -> timers s !! h = Some t) /\
  (forall k, k < 3 -> pendingRequests (final r) !! make_requestId "req_" env k = None).
Proof.
  intros Hinv Hfresh r.
  destruct (callPuterAPI_settles env method params s Hinv Hfresh) as [Hinv' Hset].
  fold r in Hinv', Hset.
  assert (forall rid e, pendingRequests (final r) !! rid = Some e ->
                        pendingRequests s !! rid = Some e) as Hsub.
  { subst r. unfold callPuterAPI. destruct (webviewProvider s); [|done].
    destruct (attempt_loop_settles env method params 3 3 None [] s) as (_ & _ & Hsub);
      [lia|exact Hinv|intros k Hk; apply Hfresh; lia|exact Hsub]. }
  split; [exact Hset|]. split; [exact Hsub|]. split.
  - intros h [ms [rid p] ] Ht.
    pose proof (inv_timer _ Hinv' h ms rid p Ht) as He.
    destruct (inv_entry _ Hinv' rid _ He) as [Ht' _]. simpl in Ht'.
    rewrite Ht in Ht'. injection Ht' as ->.
    apply Hsub in He. destruct (inv_entry _ Hinv rid _ He) as [Hts _]. exact Hts.
  - intros k Hk.
    destruct (pendingRequests (final r) !! make_requestId "req_" env k) as [e|] eqn:He;
      [|done].
    apply Hsub in He. by rewrite Hfresh in He.
Qed.

Lemma callPuterAPI_cleans_up_witness :
  let r := callPuterAPI (sample_env silent) "chat" hi_params 3 two_pending in
  pendingRequests two_pending !! "req_a" =
    Some {| entry_timeout := 0; entry_promise := 0 |} /\
  ((exists value, completion r = Fulfilled value) \/
   (exists message, completion r = Failed message)) /\
  (forall k, k < 3 ->
     pendingRequests (final r) !! make_requestId "req_" (sample_env silent) k = None).
Proof.
  assert (pendingRequests two_pending !! "req_a" =
            Some {| entry_timeout := 0; entry_promise := 0 |}) as Hother
    by (vm_compute; reflexivity).
  assert (forall k, k < 3 ->
            pendingRequests two_pending !! make_requestId "req_" (sample_env silent) k
            = None) as Hfresh.
  { intros k Hk. destruct k as [|[|[|k] ] ]; [vm_compute; reflexivity..|lia]. }
  pose proof (callPuterAPI_cleans_up (sample_env silent) "chat" hi_params two_pending
                bridge_inv_two_pending Hfresh) as Hclaim.
  destruct Hclaim as (Hset & _ & _ & Hgone).
  split; [exact Hother|]. split; [exact Hset | exact Hgone].
Defined.

(** ** The generateCode command *)

(** The [puter-ai.generateCode] command does nothing when the input box is
    dismissed or left empty.  Otherwise, on a service reached by any
    sequence of operations, it asks for code in the language of the active
    editor, or in 'javascript' without one, with the description in every
    prompt; it inserts the reply at the cursor, or opens it as a new
    document when there is no editor, and on failure it shows 'Error: '
    with the error of the service and changes nothing. *)
Theorem generateCode_command_outcome cfg ops env description :
  let s := service_run ops (new_service cfg) in
  let language :=
    match activeTextEditor env with
    | Some editor => or_default (Some (languageId editor)) "javascript"
    | None => "javascript"
    end in
  let '(calls, s') := command_generateCode env description s in
  match description with
  | Some (String c r) =>
      forwards (generateCode env (String c r) language) [String c r; language] s /\
      ((exists reply,
          generateCode env (String c r) language s = (Fulfilled reply, s') /\
          calls = [WithProgress "Generating code...";
                   match activeTextEditor env with
                   | Some _ => EditInsertAtCursor reply
                   | None => OpenTextDocument reply language
                   end]) \/
       (exists message,
          generateCode env (String c r) language s = (Failed message, s') /\
          calls = [WithProgress "Generating code...";
                   ShowErrorMessage ("Error: " +:+ message)]))
  | _ => calls = [] /\ s' = s
  end.
Proof.
  intros s language. unfold command_generateCode. fold language.
  destruct description as [ [|c r] | ]; [done| |done].
  pose proof (chat_always_returns_aux cfg ops env
                (generateCode_prompt (String c r) language)
                (Some ("You are an expert " +:+ language
                         +:+ " programmer. Generate clean, production-ready code.")))
    as Hchat.
  cbv zeta in Hchat. fold s in Hchat.
  change (chat env (generateCode_prompt (String c r) language)
            (Some ("You are an expert " +:+ language
                     +:+ " programmer. Generate clean, production-ready code.")) s)
    with (generateCode env (String c r) language s) in Hchat.
  assert (forwards (generateCode env (String c r) language) [String c r; language] s)
    as Hfw.
  { unfold generateCode. apply chat_forwards. unfold generateCode_prompt.
    repeat constructor; repeat first [ apply includes_here | apply includes_later ]. }
  destruct (generateCode env (String c r) language s) as [result s'].
  destruct Hchat as [ [ [reply ->] | [ [reason ->] | (_ & -> & ->) ] ] _];
    (split; [exact Hfw|]).
  - left. exists reply. split; [done|]. by destruct (activeTextEditor env).
  - right. eauto.
  - right. eauto.
Qed.

(** ** Streaming through the webview's listener *)

(** With streaming enabled, a webview attached and a workspace context
    that can be computed, [chatWithStreaming] never completes and never
    calls [onChunk], whatever the SDK streams: the webview answers with
    chunks and a terminal event, and nothing on the service side consumes
    them. *)
Theorem streaming_never_completes env message systemPrompt s sdk_chat sdk_stream :
  cv_enableStreaming (getConfig s) = true ->
  webviewProvider s = true ->
  workspaceFolders env <> Some [] ->
  (forall m, webview env m = webview_listener sdk_chat sdk_stream m) ->
  let '(result, s') := chatWithStreaming env message systemPrompt s in
  result = Unsettled (next_promise s) /\
  promises s' !! next_promise s = Some Pending /\
  onChunk_calls s' = onChunk_calls s.
Proof.
  intros Hstream Hprov Hfolders Hweb.
  apply chatWithStreaming_never_settles; [done|done|done|].
  intros rid params. rewrite Hweb. apply handleStreamRequest_well_formed.
Qed.

Lemma streaming_never_completes_witness :
  let env := sample_env (webview_listener (fun _ => ChatUnavailable) (fun _ => two_chunks)) in
  let run := chatWithStreaming env "hi" None (attached sample_config) in
  fst run = Unsettled 0 /\ onChunk_calls (snd run) = [].
Proof.
  assert (cv_enableStreaming (getConfig (attached sample_config)) = true) as Hstream
    by (vm_compute; reflexivity).
  assert (webviewProvider (attached sample_config) = true) as Hprov
    by (vm_compute; reflexivity).
  assert (workspaceFolders
            (sample_env (webview_listener (fun _ => ChatUnavailable)
                           (fun _ => two_chunks))) <> Some []) as Hfolders
    by discriminate.
  pose proof (streaming_never_completes
                (sample_env (webview_listener (fun _ => ChatUnavailable)
                               (fun _ => two_chunks)))
                "hi" None (attached sample_config)
                (fun _ => ChatUnavailable) (fun _ => two_chunks)
                Hstream Hprov Hfolders (fun m => eq_refl)) as Hclaim.
  cbv zeta.
  destruct (chatWithStreaming
              (sample_env (webview_listener (fun _ => ChatUnavailable)
                             (fun _ => two_chunks)))
              "hi" None (attached sample_config)) as [result s'].
  destruct Hclaim as (Hr & _ & Hc). split; [exact Hr | exact Hc].
Defined.

(** ** Examples *)

Example analyzeCodeContext_sample :
  analyzeCodeContext skip_ws sample_code "python" =
    "Code Context (python):" +:+ nl
      +:+ "Dependencies: import os,   from sys import path" +:+ nl
      +:+ "Lines of code: 4" +:+ nl.
Proof. vm_compute. reflexivity. Qed.

Example command_refactorCode_sample :
  fst (command_refactorCode (editing (replies true "y = 1")) "x = 1"
         (attached sample_config)) =
    [WithProgress "Refactoring code..."; EditReplaceSelection (Some "y = 1");
     ShowInformationMessage "Code refactored successfully!"] /\
  fst (command_refactorCode (editing silent) "x = 1" (attached sample_config)) =
    [WithProgress "Refactoring code...";
     ShowErrorMessage
       ("Error: Puter AI Error: Failed after 3 attempts: " +:+ timeout_message)].
Proof. split; vm_compute; reflexivity. Qed.
